(** * twitter-parser: the normalization pipeline of [TwitterDataParser]

    A shallow embedding of [twitter_parser/core/parser.py] together with the
    constants of [twitter_parser/utils/constants.py] and the output schema of
    [twitter_parser/schemas/tweet_data.py].

    Conventions of the embedding
    - a Python [str] is a list of Unicode code points ([list N]), so that
      [len], slices and [str.split] count what Python counts;
    - a JSON object is a record whose optional keys are [option] fields; a
      key that may hold JSON [null] has a [nullable] value;
    - a Python exception is the [Raise] case of [result]; the statements of
      a function are sequenced with the monadic bind of [result];
    - the dictionary [self._users] is a [gmap]; a Python [set] is a [gset];
    - what the interpreter, the operating system and the network decide
      (the iteration order of a [set], [glob], [os.path.relpath],
      [urllib.parse.urlparse], the lookup service) is gathered in the record
      [Externals] and is a parameter of every function that depends on it. *)

From Stdlib Require Import ZArith NArith Ascii.
From stdpp Require Import base option list strings gmap sets.

Set Default Proof Using "Type".

(** ** Python strings *)

Abbreviation char := N (only parsing).
Abbreviation str := (list N) (only parsing).

(** A string literal of the source, as code points. *)
Definition lit (s : string) : str :=
  map N_of_ascii (String.list_ascii_of_string s).

Module Py.

(** [str.isspace] on one code point (CPython's [_PyUnicode_IsWhitespace]). *)
Definition isspace (c : char) : bool :=
  ((9 <=? c) && (c <=? 13) || (28 <=? c) && (c <=? 32)
   || (c =? 133) || (c =? 160) || (c =? 5760)
   || (8192 <=? c) && (c <=? 8202)
   || (c =? 8232) || (c =? 8233) || (c =? 8239) || (c =? 8287)
   || (c =? 12288))%N.

Definition starts_nonspace (s : str) : bool :=
  match s with
  | [] => false
  | c :: _ => negb (isspace c)
  end.

(** [s.split()]: the maximal runs of non-whitespace code points. *)
Fixpoint split (s : str) : list str :=
  match s with
  | [] => []
  | c :: s' =>
      if isspace c then split s'
      else if starts_nonspace s' then
        match split s' with
        | w :: ws => (c :: w) :: ws
        | [] => [[c]]
        end
      else [c] :: split s'
  end.

(** [s.split(sep)] for a one-character separator. *)
Fixpoint split_on (sep : char) (s : str) : list str :=
  match s with
  | [] => [[]]
  | c :: s' =>
      if (c =? sep)%N then [] :: split_on sep s'
      else match split_on sep s' with
           | w :: ws => (c :: w) :: ws
           | [] => [[c]]
           end
  end.

Fixpoint startswith (p s : str) : bool :=
  match p, s with
  | [], _ => true
  | _ :: _, [] => false
  | a :: p', b :: s' => (a =? b)%N && startswith p' s'
  end.

Definition endswith (p s : str) : bool :=
  startswith (rev p) (rev s).

(** [s.replace(old, new)] for a non-empty [old]: scan left to right,
    [skip] counts the code points of the occurrence just replaced. *)
Fixpoint replace_scan (old new : str) (skip : nat) (s : str) : str :=
  match s with
  | [] => []
  | c :: s' =>
      match skip with
      | S k => replace_scan old new k s'
      | O =>
          if startswith old s
          then new ++ replace_scan old new (length old - 1) s'
          else c :: replace_scan old new 0 s'
      end
  end.

(** [s.replace(old, new)]; an empty [old] matches before every code point
    and at the end. *)
Definition replace (s old new : str) : str :=
  match old with
  | [] => new ++ flat_map (fun c => c :: new) s
  | _ => replace_scan old new 0 s
  end.

(** [s.index(sub)], [None] where Python raises. *)
Fixpoint find_from (sub s : str) (i : nat) : option nat :=
  if startswith sub s then Some i
  else match s with
       | [] => None
       | _ :: s' => find_from sub s' (S i)
       end.

Definition is_linebreak (c : char) : bool :=
  ((10 <=? c) && (c <=? 13) || (28 <=? c) && (c <=? 30)
   || (c =? 133) || (c =? 8232) || (c =? 8233))%N.

(** [s.splitlines()]; [after_cr] makes a line feed that follows a carriage
    return part of the same line boundary. *)
Fixpoint splitlines_from (after_cr : bool) (s : str) : list str :=
  match s with
  | [] => []
  | c :: s' =>
      if after_cr && (c =? 10)%N then splitlines_from false s'
      else if is_linebreak c then [] :: splitlines_from (c =? 13)%N s'
      else match splitlines_from false s' with
           | w :: ws => (c :: w) :: ws
           | [] => [[c]]
           end
  end.

Definition splitlines (s : str) : list str := splitlines_from false s.

(** [sep.join(parts)]. *)
Fixpoint join (sep : str) (parts : list str) : str :=
  match parts with
  | [] => []
  | [p] => p
  | p :: ps => p ++ sep ++ join sep ps
  end.

Fixpoint lstrip (s : str) : str :=
  match s with
  | c :: s' => if isspace c then lstrip s' else s
  | [] => []
  end.

Definition strip (s : str) : str := rev (lstrip (rev (lstrip s))).

Definition digit (c : char) : option Z :=
  if ((48 <=? c) && (c <=? 57))%N then Some (Z.of_N c - 48)%Z else None.

(** The digits of an integer literal, with single underscores allowed
    between digits. *)
Fixpoint digits (acc : Z) (after_digit : bool) (s : str) : option Z :=
  match s with
  | [] => if after_digit then Some acc else None
  | c :: s' =>
      if (c =? 95)%N then
        if after_digit then digits acc false s' else None
      else match digit c with
           | Some d => digits (acc * 10 + d)%Z true s'
           | None => None
           end
  end.

(** [int(s)] for a decimal string: surrounding whitespace, an optional
    sign, ASCII digits. [None] where Python raises [ValueError]. (Python
    also reads the decimal digits of other scripts, refuses the
    separators U+001C to U+001F around the digits, and refuses more than
    4300 digits; the ids and bitrates of an archive are short ASCII
    numerals.) *)
Definition int (s : str) : option Z :=
  match strip s with
  | 45%N :: ds => Z.opp <$> digits 0 false ds
  | 43%N :: ds => digits 0 false ds
  | ds => digits 0 false ds
  end.

End Py.


(** ** Exceptions *)

Inductive exn : Set :=
  | IndexError
  | KeyError
  | ValueError
  | OtherException.

Inductive result (A : Type) : Type :=
  | Ok (a : A)
  | Raise (e : exn).
Arguments Ok {A} a.
Arguments Raise {A} e.

#[global] Instance result_ret : MRet result := fun _ a => Ok a.
#[global] Instance result_bind : MBind result := fun _ _ f m =>
  match m with
  | Ok a => f a
  | Raise e => Raise e
  end.

(** [d[key]] on an optional key and [l[i]] on a list. *)
Definition getitem {A} (o : option A) : result A :=
  match o with
  | Some a => Ok a
  | None => Raise KeyError
  end.

Definition index {A} (l : list A) (i : nat) : result A :=
  match l !! i with
  | Some a => Ok a
  | None => Raise IndexError
  end.

(** A value that may be JSON [null] (Python [None]). *)
Inductive nullable (A : Type) : Type :=
  | Null
  | Val (a : A).
Arguments Null {A}.
Arguments Val {A} a.

(** What an f-string or [str.format] prints for a value that may be [None]. *)
Definition show (v : nullable str) : str :=
  match v with
  | Null => lit "None"
  | Val s => s
  end.

(** [for x in xs: st = body(x, st)], stopping at the first exception. *)
Fixpoint for_each {A S} (body : A -> S -> result S) (xs : list A) (st : S)
  : result S :=
  match xs with
  | [] => Ok st
  | x :: xs' => st' ← body x st; for_each body xs' st'
  end.

(** ** [str.format] on the templates of [constants.py] *)

(** The replacement fields of the templates are plain [{name}] or [{}]
    fields; a positional [{}] is looked up under the empty name. [field] is
    the reversed name being read inside braces. *)
Fixpoint format_scan (args : list (str * str)) (field : option str)
    (template : str) : result str :=
  match template with
  | [] =>
      match field with
      | None => Ok []
      | Some _ => Raise ValueError
      end
  | c :: t =>
      match field with
      | None =>
          if (c =? 123)%N then format_scan args (Some []) t
          else r ← format_scan args None t; Ok (c :: r)
      | Some name =>
          if (c =? 125)%N then
            match list_find (fun kv => kv.1 = rev name) args with
            | Some (_, (_, v)) => r ← format_scan args None t; Ok (v ++ r)
            | None => Raise KeyError
            end
          else format_scan args (Some (c :: name)) t
      end
  end.

Definition format (template : str) (args : list (str * str)) : result str :=
  format_scan args None template.

(** ** [os.path] (POSIX) *)

Module Path.

Definition sep : char := 47%N.

(** [os.path.join(a, b)]. *)
Definition join (a b : str) : str :=
  if Py.startswith [sep] b then b
  else if bool_decide (a = []) || Py.endswith [sep] a then a ++ b
  else a ++ sep :: b.

(** [os.path.split(p)[1]]: what follows the last separator. *)
Fixpoint basename (p : str) : str :=
  match p with
  | [] => []
  | c :: p' =>
      if bool_decide (sep ∈ p') then basename p'
      else if (c =? sep)%N then p' else p
  end.

Fixpoint rstrip_sep (rp : str) : str :=
  match rp with
  | c :: rp' => if (c =? sep)%N then rstrip_sep rp' else rp
  | [] => []
  end.

(** [os.path.split(p)[0]]: up to the last separator, trailing separators
    removed unless nothing else is left. *)
Definition dirname (p : str) : str :=
  let head := take (length p - length (basename p)) p in
  match rstrip_sep (rev head) with
  | [] => head
  | h => rev h
  end.

End Path.

(** ** Constants ([utils/constants.py]) *)

(** The constants that are dictionary keys are the field names of the
    records below; these are the ones that are values. *)
Definition USER_URL_TEMPLATE : str := lit "https://twitter.com/i/user/{}".
Definition DATA : str := lit "data".
Definition TWITTER_PARSER_OUTPUT : str := lit "twitter_parser-output".
Definition MEDIA : str := lit "media".
Definition TWITTER_PARSER_CACHE : str := lit "twitter_parser-cache".
Definition RT : str := lit "RT".
Definition REPLAY_TO_TWEET : str :=
  lit "https://twitter.com/{in_reply_to_screen_name}/status/{in_reply_to_status_id}".
Definition BEST_QUALITY_URL : str :=
  lit "https://pbs.twimg.com/media/{original_filename}:orig".
Definition TWEET_URL : str :=
  lit "https://twitter.com/{username}/status/{tweet_id_str}".
Definition UNKNOWN_HANDLE : str := lit "~unknown~handle~".
Definition DIRECT_MESSAGE_MEDIA : str := lit "direct_messages_media".
Definition DIRECT_MESSAGES_GROUP_MEDIA : str := lit "direct_messages_group_media".

(** U+2026, the ellipsis that ends a truncated link. *)
Definition ELLIPSIS : char := 8230%N.

(** ** The archive: raw JSON records *)

(** An element of [entities.urls]. *)
Record url_entity : Type := {
  ue_url : option str;
  ue_expanded_url : option str;
  ue_display_url : option str;
  ue_indices : option (nat * nat)
}.

(** An element of [video_info.variants]; [bitrate] is a decimal string. *)
Record variant : Type := {
  var_bitrate : option str;
  var_url : option str
}.

Record video_info : Type := {
  vi_variants : option (list variant)
}.

(** An element of [entities.media] and of [extended_entities.media]. *)
Record media_entity : Type := {
  med_url : option str;
  med_media_url : option str;
  med_video_info : option video_info
}.

(** An element of [entities.user_mentions]. *)
Record mention : Type := {
  men_id : option str;
  men_screen_name : option (nullable str)
}.

Record entities : Type := {
  ent_media : option (list media_entity);
  ent_urls : option (list url_entity);
  ent_user_mentions : option (nullable (list (nullable mention)))
}.

Record extended_entities : Type := {
  ext_media : option (list media_entity)
}.

Record tweet_obj : Type := {
  created_at : option str;
  full_text : option str;
  id_str : option str;
  tw_entities : option entities;
  tw_extended_entities : option extended_entities;
  in_reply_to_status_id : option str;
  in_reply_to_screen_name : option (nullable str);
  in_reply_to_user_id : option str
}.

(** An element of a tweets file: the tweet itself, or an object that holds
    it under the key [tweet]. *)
Inductive tweet_json : Type :=
  | Wrapped (t : tweet_obj)
  | Bare (t : tweet_obj).

(** An element of [following.js] ([{"following": {"accountId": ...}}]) or of
    [follower.js]: the outer key and the inner key may each be missing. *)
Record follow_json : Type := {
  fj_account : option (option str)
}.

(** An element of [urls] in a message. *)
Record dm_url : Type := {
  du_url : option str;
  du_expanded : option str
}.

Record message_create : Type := {
  mc_id : option str;
  mc_senderId : option str;
  mc_recipientId : option str;
  mc_text : option str;
  mc_createdAt : option str;
  mc_urls : option (list dm_url);
  mc_mediaUrls : option (list str)
}.

Record join_conversation : Type := {
  jc_initiatingUserId : option str;
  jc_participantsSnapshot : option (list str)
}.

Record participants_join : Type := {
  pj_initiatingUserId : option str;
  pj_userIds : option (list str)
}.

Record conversation_name_update : Type := {
  cn_name : option str
}.

(** An element of [messages]: an object with one key, which names the kind
    of event. *)
Inductive message : Type :=
  | MessageCreate (m : message_create)
  | JoinConversation (j : join_conversation)
  | ParticipantsJoin (p : participants_join)
  | ConversationNameUpdate (u : conversation_name_update)
  | OtherEvent.

Record dm_conversation : Type := {
  conversationId : option str;
  messages : option (list message)
}.

(** An element of [direct-messages.js] and of [direct-messages-group.js]. *)
Record conversation_json : Type := {
  dmConversation : option dm_conversation
}.

(** ** The normalized model ([schemas/tweet_data.py]) *)

Record User : Type := {
  user_handle : option str;
  user_profile_url : option str
}.

Module TweetType.
Inductive t : Set :=
  | TWEET
  | RETWEET
  | REPLY.
End TweetType.

#[global] Instance TweetType_eq_dec : EqDecision TweetType.t.
Proof. solve_decision. Defined.

Record Tweet : Type := {
  tweet_year : str;
  tweet_type : TweetType.t;
  retweeted_from : option str;
  replied_to_names : option (list str);
  replying_to_tweet : option str;
  tweet_data : str;
  tweeted_at : str;
  tweet_url : str;
  tweets_attached_media : option str
}.

Record DirectMessage : Type := {
  dm_from : str;
  dm_to : str;
  dm_data : str;
  dm_at : str
}.

Record GroupDirectMessage : Type := {
  group_dm_from : str;
  group_dm_data : str;
  group_dm_at : str
}.

Record GroupDirectMessages : Type := {
  group_name : option str;
  group_dms : option (list GroupDirectMessage);
  group_participant : list str
}.

Record TwitterUserInfo : Type := {
  user_name : str;
  following : option (list User);
  followers : option (list User);
  tweets : option (list Tweet);
  dms : option (list DirectMessage);
  groups_dms : option (list GroupDirectMessages);
  following_count : nat;
  follower_count : nat
}.

(** ** What the environment decides *)

(** The six components of [urllib.parse.urlparse(word)]. *)
Record url_parts : Type := {
  scheme : str;
  netloc : str;
  path : str;
  params : str;
  query : str;
  fragment : str
}.

(** A record of the JSON array the lookup service answers with. *)
Record api_user : Type := {
  api_id_str : option str;
  api_screen_name : option (nullable str)
}.

Record Externals : Type := {
  (** the order in which Python iterates over a [set] of strings, taken as
      a function of the members of the set (in CPython it also depends on
      the order in which the members were added) *)
  set_iter : gset str -> list str;
  (** [urllib.parse.urlparse]; it may raise [ValueError] *)
  urlparse : str -> result url_parts;
  (** [os.path.relpath(path, start)] *)
  relpath : str -> str -> str;
  (** [glob.glob(pattern)] on the files that exist *)
  glob : gset str -> str -> list str;
  (** the guest token the service hands out, or the exception raised *)
  guest_token : result str;
  (** one [GET] of the metadata of a batch of ids under a guest token: the
      decoded JSON array, or an exception (no answer, status other than 200,
      body that is not JSON) *)
  users_lookup : str -> list str -> result (list api_user)
}.

(** ** The state of a run *)

Record UserData : Type := {
  user_id : str;
  handle : str
}.

Inductive log_entry : Type :=
  | WarnNoUrlFound
      (original_url original_expanded_url archive_media_path media_url : str)
  | InfoTweetJson (t : tweet_obj)
  | WarnMissingLocalFile
      (archive_media_path original_url original_expanded_url : str)
  | InfoMissingDmFile (archive_media_path original_expanded_url : str)
  | WarnMissingGroupDmFile (archive_media_path original_expanded_url : str)
  | ErrorFailedDownload (e : exn).

(** Ghost state: who wrote an entry of [self._users]. *)
Inductive registration : Type :=
  | Discovered (id handle : str)
  | BulkResolved (id handle : str).

Record state : Type := {
  (** the regular files that exist ([os.path.isfile]) *)
  files : gset str;
  (** the list [media_sources] of [_get_tweets] *)
  media_sources : list (str * str);
  (** [self._users] *)
  users : gmap str UserData;
  (** what [logging.warning] and [logging.error] were called with, and the
      [logging.info] calls that report a fault *)
  log : list log_entry;
  (** every write to [self._users], in order *)
  registrations : list registration
}.

Definition isfile (st : state) (p : str) : bool :=
  bool_decide (p ∈ files st).

(** [shutil.copy(src, dst)]: afterwards [dst] exists. *)
Definition copy (src dst : str) (st : state) : state :=
  {| files := {[dst]} ∪ files st; media_sources := media_sources st;
     users := users st; log := log st; registrations := registrations st |}.

(** [media_sources.append(entry)]. *)
Definition append_media_source (entry : str * str) (st : state) : state :=
  {| files := files st; media_sources := media_sources st ++ [entry];
     users := users st; log := log st; registrations := registrations st |}.

Definition logging (entry : log_entry) (st : state) : state :=
  {| files := files st; media_sources := media_sources st;
     users := users st; log := log st ++ [entry];
     registrations := registrations st |}.

(** [self._users[id] = UserData(user_id=id, handle=handle)], recorded in the
    ghost trace as [who id handle]. *)
Definition register (who : str -> str -> registration) (id h : str)
    (st : state) : state :=
  {| files := files st; media_sources := media_sources st;
     users := <[id := {| user_id := id; handle := h |}]> (users st);
     log := log st;
     registrations := registrations st ++ [who id h] |}.

(** [self._users[id].handle if id in self._users else fallback]. *)
Definition handle_or (st : state) (id fallback : str) : str :=
  match users st !! id with
  | Some u => handle u
  | None => fallback
  end.

(** ** [PathConfig] *)

Record PathConfig : Type := {
  dir_archive : str;
  dir_input_data : str;
  dir_input_media : str;
  dir_output : str;
  dir_output_media : str;
  dir_output_cache : str;
  example_file_output_tweets : str
}.

(** [create_path_for_file_output_tweets]; [yyyy] and [mm] are the year and
    the month already printed with four and two digits. *)
Definition create_path_for_file_output_tweets (dir_output yyyy mm : str)
    (file_format kind : str) : str :=
  Path.join
    (Path.join (Path.join dir_output (kind ++ lit "-" ++ file_format)) yyyy)
    (yyyy ++ lit "-" ++ mm ++ lit "-01-" ++ kind ++ lit "." ++ file_format).

(** [PathConfig.__init__], given the one media directory that
    [find_dir_input_media] found. *)
Definition PathConfig_init (dir_archive dir_input_media : str) : PathConfig :=
  let dir_output := Path.join dir_archive TWITTER_PARSER_OUTPUT in
  {| dir_archive := dir_archive;
     dir_input_data := Path.join dir_archive DATA;
     dir_input_media := dir_input_media;
     dir_output := dir_output;
     dir_output_media := Path.join dir_output MEDIA;
     dir_output_cache := Path.join dir_archive TWITTER_PARSER_CACHE;
     example_file_output_tweets :=
       create_path_for_file_output_tweets dir_output (lit "2020") (lit "12")
         (lit "html") (lit "tweets") |}.

(** ** [TwitterDataParser] *)

Section TwitterDataParser.

(** The environment, and the attributes of [self] that are fixed before the
    pipeline starts: [self._paths] and [self.user_name]. *)
Variable X : Externals.
Variable paths : PathConfig.
Variable self_user_name : str.

(** [self._user_id_url_template.format(id)]. *)
Definition user_id_url (id : str) : result str :=
  format USER_URL_TEMPLATE [([], id)].

(** *** [_convert_tweet] *)

(** [for word in full_text.split(): body_markdown += word + " "]. *)
Definition join_words (words : list str) : str :=
  foldl (fun body_markdown word => body_markdown ++ word ++ [32%N]) [] words.

(** The loop of the retweet branch: [words] counts the words skipped so
    far, and the body collects every word after the first two. *)
Definition skip_two_words (all_words : list str) : str :=
  (foldl (fun '(body_markdown, words) word =>
            if (1 <? words)%nat then (body_markdown ++ word ++ [32%N], words)
            else (body_markdown, S words))
         ([], O) all_words).1.

(** [s[start:stop]] for indices that are not negative. *)
Definition slice (s : str) (start stop : nat) : str :=
  take (stop - start) (drop start s).

(** The classification that the first two words decide, with the body it
    leaves. *)
Definition retweet_header (full_text body_markdown : str)
  : result (TweetType.t * option str * str) :=
  first ← index (Py.split full_text) 0;
  if bool_decide (first = RT) then
    retweeted_from_handle ← index (Py.split full_text) 1;
    Ok (TweetType.RETWEET,
        Some (slice retweeted_from_handle 1 (length retweeted_from_handle - 1)),
        skip_two_words (Py.split full_text))
  else Ok (TweetType.TWEET, None, body_markdown).

(** The display form of a link, shortened the way Twitter does. *)
Definition display_url_of (url : url_parts) : str :=
  let netloc_short :=
    if Py.startswith (lit "www.") (netloc url) then drop 4 (netloc url)
    else netloc url in
  let path_short :=
    if (length (path url ++ lit "?" ++ query url) <? 15)%nat then path url
    else take 15 (path url ++ lit "?" ++ query url) ++ [ELLIPSIS] in
  netloc_short ++ path_short.

(** One word of the body of an old tweet: a word that is an absolute link
    is appended to [tweet["entities"]["urls"]], here [urls]. *)
Definition backfill_word (full_text word : str)
    (urls : option (list url_entity)) : result (option (list url_entity)) :=
  match urlparse X word with
  | Raise ValueError => Ok urls
  | Raise e => Raise e
  | Ok url =>
      if negb (bool_decide (scheme url = []))
         && negb (bool_decide (netloc url = []))
         && negb (Py.endswith [ELLIPSIS] word)
      then
        l ← getitem urls;
        i ← match Py.find_from word full_text 0 with
            | Some i => Ok i
            | None => Raise ValueError
            end;
        Ok (Some (l ++ [ {| ue_url := Some word;
                            ue_expanded_url := Some word;
                            ue_display_url := Some (display_url_of url);
                            ue_indices := Some (i, i + length word) |} ]))
      else Ok urls
  end.

Definition with_urls (tweet : tweet_obj) (ents : entities)
    (urls : option (list url_entity)) : tweet_obj :=
  {| created_at := created_at tweet; full_text := full_text tweet;
     id_str := id_str tweet;
     tw_entities := Some {| ent_media := ent_media ents; ent_urls := urls;
                            ent_user_mentions := ent_user_mentions ents |};
     tw_extended_entities := tw_extended_entities tweet;
     in_reply_to_status_id := in_reply_to_status_id tweet;
     in_reply_to_screen_name := in_reply_to_screen_name tweet;
     in_reply_to_user_id := in_reply_to_user_id tweet |}.

(** The links of old tweets are added to the [urls] entities; the tweet is
    the dictionary after the update. *)
Definition backfill_links (full_text : str) (tweet : tweet_obj)
  : result tweet_obj :=
  match tw_entities tweet with
  | Some ents =>
      if negb (bool_decide (is_Some (ent_media ents)))
         && bool_decide (length (default [] (ent_urls ents)) = 0)
      then
        urls ← for_each (backfill_word full_text) (Py.split full_text)
                 (ent_urls ents);
        Ok (with_urls tweet ents urls)
      else Ok tweet
  | None => Ok tweet
  end.

(** The [t.co] links of the body are replaced with their expanded form. *)
Definition expand_links (tweet : tweet_obj) (body_markdown : str) : str :=
  match tw_entities tweet with
  | Some ents =>
      match ent_urls ents with
      | Some urls =>
          foldl (fun body_markdown url =>
                   match ue_url url, ue_expanded_url url with
                   | Some u, Some expanded_url =>
                       Py.replace body_markdown u expanded_url
                   | _, _ => body_markdown
                   end) body_markdown urls
      | None => body_markdown
      end
  | None => body_markdown
  end.

Definition is_name_char (c : char) : bool :=
  ((48 <=? c) && (c <=? 57) || (65 <=? c) && (c <=? 90)
   || (97 <=? c) && (c <=? 122) || (c =? 95))%N.

(** The length of [re.match(r'^(@[0-9A-Za-z_]* )*', s)[0]]: [committed]
    code points are matched by complete repetitions of the group, and
    [pending] code points by the repetition being read when [in_name]. *)
Fixpoint mention_run (in_name : bool) (pending committed : nat) (s : str)
  : nat :=
  match s with
  | [] => committed
  | c :: s' =>
      if in_name then
        if is_name_char c then mention_run true (S pending) committed s'
        else if (c =? 32)%N then mention_run false 0 (committed + S pending) s'
        else committed
      else if (c =? 64)%N then mention_run true 1 committed s'
      else committed
  end.

Definition match_mentions (s : str) : str :=
  take (mention_run false 0 0 s) s.

(** The header of a reply: the classification, the names replied to, the
    link to the tweet replied to, and the body without the names. *)
Definition reply_header (tweet : tweet_obj) (tweet_type : TweetType.t)
    (body_markdown : str)
  : result (TweetType.t * option (list str) * option str * str) :=
  match in_reply_to_status_id tweet with
  | Some in_reply_to_status_id =>
      let matched := match_mentions body_markdown in
      let '(replying_to, body_markdown) :=
        if bool_decide (matched = []) then (lit "@" ++ self_user_name, body_markdown)
        else (matched, drop (length matched) body_markdown) in
      let names := Py.split replying_to in
      in_reply_to_screen_name ←
        match in_reply_to_screen_name tweet with
        | Some name => Ok (show name)
        | None => index names 0
        end;
      replying_to_tweet_by_user ←
        format REPLAY_TO_TWEET
          [(lit "in_reply_to_screen_name", in_reply_to_screen_name);
           (lit "in_reply_to_status_id", in_reply_to_status_id)];
      Ok (TweetType.REPLY, Some names, Some replying_to_tweet_by_user,
          body_markdown)
  | None => Ok (tweet_type, None, None, body_markdown)
  end.

(** [_rel_url]. *)
Definition _rel_url (media_path document_path : str) : str :=
  Py.replace (relpath X media_path (Path.dirname document_path))
    [92%N] (lit "/").

(** One variant of a video: a variant that carries a bitrate above the best
    one seen becomes the best one. *)
Definition best_variant_step (v : variant) (best : str * Z)
  : result (str * Z) :=
  match var_bitrate v with
  | Some b =>
      match Py.int b with
      | Some bitrate =>
          if (best.2 <? bitrate)%Z then
            u ← getitem (var_url v); Ok (u, bitrate)
          else Ok best
      | None => Raise ValueError
      end
  | None => Ok best
  end.

(** [(best_quality_url, best_bitrate)] after the loop over the variants. *)
Definition best_variant (variants : list variant) : result (str * Z) :=
  for_each best_variant_step variants ([], (-1)%Z).

(** The online location of the best quality of a video is saved, or a
    warning is logged when no variant has a bitrate. *)
Definition save_best_quality (tweet : tweet_obj)
    (original_url original_expanded_url : str)
    (archive_media_path archive_media_filename media_url : str)
    (media : media_entity) (st : state) : result state :=
  match med_video_info media with
  | Some vi =>
      match vi_variants vi with
      | Some variants =>
          '(best_quality_url, best_bitrate) ← best_variant variants;
          if bool_decide (best_bitrate = (-1)%Z) then
            Ok (logging (InfoTweetJson tweet)
                  (logging (WarnNoUrlFound original_url original_expanded_url
                              archive_media_path media_url) st))
          else
            Ok (append_media_source
                  (Path.join (dir_output_media paths) archive_media_filename,
                   best_quality_url) st)
      | None => Ok st
      end
  | None => Ok st
  end.

(** One file of the archive whose name starts with the id of the tweet. *)
Definition fallback_file (tweet : tweet_obj)
    (original_url original_expanded_url : str) (media : media_entity)
    (archive_media_path : str) (acc : str * state) : result (str * state) :=
  let '(markdown, st) := acc in
  let archive_media_filename := Path.basename archive_media_path in
  let file_output_media :=
    Path.join (dir_output_media paths) archive_media_filename in
  let media_url :=
    _rel_url file_output_media (example_file_output_tweets paths) in
  let st :=
    if isfile st file_output_media then st
    else copy archive_media_path file_output_media st in
  let markdown :=
    markdown ++ media_url
      ++ lit " > Your browser does not support the video tag" in
  st ← save_best_quality tweet original_url original_expanded_url
         archive_media_path archive_media_filename media_url media st;
  Ok (markdown, st).

(** One element of [extended_entities.media]. (The statement
    [markdown += '' if ... else ''] of the source adds the empty string in
    both cases and is left out.) *)
Definition media_step (tweet : tweet_obj) (tweet_id_str original_url : str)
    (media : media_entity) (acc : str * state) : result (str * state) :=
  let '(markdown, st) := acc in
  match med_url media, med_media_url media with
  | Some _, Some original_expanded_url =>
      let original_filename := Path.basename original_expanded_url in
      let archive_media_filename :=
        tweet_id_str ++ lit "-" ++ original_filename in
      let archive_media_path :=
        Path.join (dir_input_media paths) archive_media_filename in
      let file_output_media :=
        Path.join (dir_output_media paths) archive_media_filename in
      let media_url :=
        _rel_url file_output_media (example_file_output_tweets paths) in
      if isfile st archive_media_path then
        let st :=
          if isfile st file_output_media then st
          else copy archive_media_path file_output_media st in
        best_quality_url ←
          format BEST_QUALITY_URL [(lit "original_filename", original_filename)];
        Ok (markdown ++ media_url,
            append_media_source
              (Path.join (dir_output_media paths) archive_media_filename,
               best_quality_url) st)
      else
        let archive_media_paths :=
          glob X (files st)
            (Path.join (dir_input_media paths) (tweet_id_str ++ lit "*")) in
        if bool_decide (0 < length archive_media_paths) then
          for_each
            (fallback_file tweet original_url original_expanded_url media)
            archive_media_paths (markdown, st)
        else
          Ok (markdown ++ original_url,
              logging (WarnMissingLocalFile archive_media_path original_url
                         original_expanded_url) st)
  | _, _ => Ok (markdown, st)
  end.

(** The media of a tweet: the body without the link to the media, the
    markup of the media, and the state after the copies. *)
Definition attach_media (tweet : tweet_obj) (tweet_id_str body_markdown : str)
    (st : state) : result (str * option str * state) :=
  match tw_entities tweet, tw_extended_entities tweet with
  | Some ents, Some ext =>
      match ent_media ents, ext_media ext with
      | Some entity_media, Some extended_media =>
          first ← index entity_media 0;
          original_url ← getitem (med_url first);
          '(markdown, st) ←
            for_each (media_step tweet tweet_id_str original_url)
              extended_media ([], st);
          Ok (Py.replace body_markdown original_url [], Some markdown, st)
      | _, _ => Ok (body_markdown, None, st)
      end
  | _, _ => Ok (body_markdown, None, st)
  end.

(** [int(id) >= 0], raising what [int] raises. *)
Definition nonnegative_id (id : str) : result bool :=
  match Py.int id with
  | Some n => Ok (0 <=? n)%Z
  | None => Raise ValueError
  end.

(** The id and the handle of the user replied to are registered. *)
Definition discover_reply_target (tweet : tweet_obj) (st : state)
  : result state :=
  match in_reply_to_user_id tweet, in_reply_to_screen_name tweet with
  | Some reply_to_id, Some (Val h) =>
      ok ← nonnegative_id reply_to_id;
      if ok : bool then Ok (register Discovered reply_to_id h st) else Ok st
  | _, _ => Ok st
  end.

(** The id and the handle of one mention are registered. *)
Definition discover_mention (m : nullable mention) (st : state)
  : result state :=
  match m with
  | Val m =>
      match men_id m, men_screen_name m with
      | Some mentioned_id, Some h =>
          ok ← nonnegative_id mentioned_id;
          if ok : bool then
            match h with
            | Val h => Ok (register Discovered mentioned_id h st)
            | Null => Ok st
            end
          else Ok st
      | _, _ => Ok st
      end
  | Null => Ok st
  end.

Definition discover_mentions (tweet : tweet_obj) (st : state)
  : result state :=
  match tw_entities tweet with
  | Some ents =>
      match ent_user_mentions ents with
      | Some (Val mentions) => for_each discover_mention mentions st
      | _ => Ok st
      end
  | None => Ok st
  end.

Definition unwrap (tweet : tweet_json) : tweet_obj :=
  match tweet with
  | Wrapped t => t
  | Bare t => t
  end.

(** Converts a JSON-format tweet and returns a [Tweet]. *)
Definition _convert_tweet (tweet : tweet_json) (st : state)
  : result (Tweet * state) :=
  let tweet := unwrap tweet in
  timestamp_str ← getitem (created_at tweet);
  text ← getitem (full_text tweet);
  let body_markdown := join_words (Py.split text) in
  tweet_id_str ← getitem (id_str tweet);
  tweet_year ← index (Py.split timestamp_str) 5;
  '(tweet_type, retweeted_from, body_markdown) ←
    retweet_header text body_markdown;
  tweet ← backfill_links text tweet;
  let body_markdown := expand_links tweet body_markdown in
  '(tweet_type, replied_to_names_list, replying_to_tweet_by_user,
    body_markdown) ← reply_header tweet tweet_type body_markdown;
  '(body_markdown, tweet_attached_media, st) ←
    attach_media tweet tweet_id_str body_markdown st;
  tweet_url ←
    format TWEET_URL
      [(lit "username", self_user_name); (lit "tweet_id_str", tweet_id_str)];
  st ← discover_reply_target tweet st;
  st ← discover_mentions tweet st;
  Ok ({| tweet_year := tweet_year;
         tweet_type := tweet_type;
         retweeted_from := retweeted_from;
         replied_to_names := replied_to_names_list;
         replying_to_tweet := replying_to_tweet_by_user;
         tweet_data := body_markdown;
         tweeted_at := timestamp_str;
         tweet_url := tweet_url;
         tweets_attached_media := tweet_attached_media |}, st).

(** *** [_get_tweets] *)

(** [media_sources = []]. *)
Definition new_media_sources (st : state) : state :=
  {| files := files st; media_sources := []; users := users st;
     log := log st; registrations := registrations st |}.

(** Reads the tweets of every tweets file; [tweet_files] holds what
    [_read_json_from_js_file] returns for each of them. *)
Definition _get_tweets (tweet_files : list (list tweet_json)) (st : state)
  : result (list Tweet * state) :=
  for_each
    (fun json_obj =>
       for_each
         (fun tweet '(tweets, st) =>
            '(t, st) ← _convert_tweet tweet st;
            Ok (tweets ++ [t], st))
         json_obj)
    tweet_files ([], new_media_sources st).

(** *** The ids to look up *)

(** The loop shared by [_collect_user_ids_from_followings],
    [_collect_user_ids_from_followers], [_get_following_users] and
    [_get_followers_users]. *)
Definition collect_account_ids (follow_json_list : list follow_json)
  : list str :=
  foldl (fun ids follow =>
           match fj_account follow with
           | Some (Some account_id) => ids ++ [account_id]
           | _ => ids
           end) [] follow_json_list.

Definition _collect_user_ids_from_followings := collect_account_ids.
Definition _collect_user_ids_from_followers := collect_account_ids.

(** [user1_id, user2_id = conversation_id.split('-')]. *)
Definition unpack_pair (parts : list str) : result (str * str) :=
  match parts with
  | [user1_id; user2_id] => Ok (user1_id, user2_id)
  | _ => Raise ValueError
  end.

Definition dm_user_ids_step (conversation : conversation_json)
    (dms_user_ids : gset str) : result (gset str) :=
  match dmConversation conversation with
  | Some dm_conversation =>
      match conversationId dm_conversation with
      | Some conversation_id =>
          '(user1_id, user2_id) ←
            unpack_pair (Py.split_on 45%N conversation_id);
          Ok (dms_user_ids ∪ {[user1_id]} ∪ {[user2_id]})
      | None => Ok dms_user_ids
      end
  | None => Ok dms_user_ids
  end.

Definition _collect_user_ids_from_direct_messages
    (dms_json : list conversation_json) : result (list str) :=
  dms_user_ids ← for_each dm_user_ids_step dms_json ∅;
  Ok (set_iter X dms_user_ids).

(** [for participant_id in ids: group_user_ids.add(participant_id)]. *)
Definition add_all (ids : list str) (group_user_ids : gset str) : gset str :=
  foldl (fun group_user_ids participant_id =>
           group_user_ids ∪ {[participant_id]}) group_user_ids ids.

Definition participant_ids_step (m : message) (group_user_ids : gset str)
  : result (gset str) :=
  match m with
  | MessageCreate mc =>
      sender ← getitem (mc_senderId mc);
      Ok (group_user_ids ∪ {[sender]})
  | JoinConversation jc =>
      initiating ← getitem (jc_initiatingUserId jc);
      snapshot ← getitem (jc_participantsSnapshot jc);
      Ok (add_all snapshot (group_user_ids ∪ {[initiating]}))
  | ParticipantsJoin pj =>
      initiating ← getitem (pj_initiatingUserId pj);
      added ← getitem (pj_userIds pj);
      Ok (add_all added (group_user_ids ∪ {[initiating]}))
  | _ => Ok group_user_ids
  end.

(** Find IDs of all participating Users in a group direct message
    conversation. *)
Definition _find_group_dm_conversation_participant_ids
    (conversation : conversation_json) : result (gset str) :=
  match dmConversation conversation with
  | Some dm_conversation =>
      match conversationId dm_conversation with
      | Some _ =>
          match messages dm_conversation with
          | Some ms => for_each participant_ids_step ms ∅
          | None => Ok ∅
          end
      | None => Ok ∅
      end
  | None => Ok ∅
  end.

Definition _collect_user_ids_from_group_direct_messages
    (group_dms_json : list conversation_json) : result (list str) :=
  group_dms_user_ids ←
    for_each
      (fun conversation group_dms_user_ids =>
         participants ←
           _find_group_dm_conversation_participant_ids conversation;
         Ok (add_all (set_iter X participants) group_dms_user_ids))
      group_dms_json ∅;
  Ok (set_iter X group_dms_user_ids).

(** *** [_lookup_users] *)

(** [d[k] = v] on a dictionary kept in insertion order. *)
Fixpoint dict_set {V} (k : str) (v : V) (d : list (str * V))
  : list (str * V) :=
  match d with
  | [] => [(k, v)]
  | (k', v') :: d' =>
      if bool_decide (k' = k) then (k, v) :: d'
      else (k', v') :: dict_set k v d'
  end.

(** Returns a Twitter API guest token for the current session. *)
Definition _get_twitter_api_guest_token : result str :=
  token ← guest_token X;
  if bool_decide (token = []) then Raise OtherException else Ok token.

(** The loop of [_get_twitter_users]: while ids are left, a batch of at
    most 100 of them is requested. [fuel] bounds the number of batches. *)
Fixpoint get_twitter_users_loop (fuel : nat) (guest_token : str)
    (retrieved : list (str * api_user)) (user_ids : list str)
  : result (list (str * api_user)) :=
  match fuel, user_ids with
  | _, [] => Ok retrieved
  | O, _ => Ok retrieved
  | S fuel, _ =>
      let max_batch := 100 in
      let user_id_batch := take max_batch user_ids in
      let user_ids := drop max_batch user_ids in
      response_json ← users_lookup X guest_token user_id_batch;
      retrieved ←
        for_each (fun user retrieved =>
                    id ← getitem (api_id_str user);
                    Ok (dict_set id user retrieved))
          response_json retrieved;
      get_twitter_users_loop fuel guest_token retrieved user_ids
  end.

(** Asks Twitter for all metadata associated with [user_ids]; every batch
    takes at least one id, so [length user_ids] batches are enough. *)
Definition _get_twitter_users (guest_token : str) (user_ids : list str)
  : result (list (str * api_user)) :=
  get_twitter_users_loop (length user_ids) guest_token [] user_ids.

(** The loop over [retrieved_users.items()]: the state it reaches, and the
    exception that stopped it, if any. *)
Fixpoint register_retrieved (retrieved_users : list (str * api_user))
    (st : state) : state * option exn :=
  match retrieved_users with
  | [] => (st, None)
  | (user_id, user) :: rest =>
      match api_screen_name user with
      | None => (st, Some KeyError)
      | Some Null => register_retrieved rest st
      | Some (Val screen_name) =>
          register_retrieved rest
            (register BulkResolved user_id screen_name st)
      end
  end.

(** The ids of the request: those not in [self._users]. *)
Definition filtered_user_ids (user_ids : list str) (st : state) : list str :=
  filter (fun id => users st !! id = None) user_ids.

(** Fill the users dictionary with data from Twitter; every exception is
    logged, none is raised. *)
Definition _lookup_users (user_ids : list str) (st : state) : state :=
  let filtered_user_ids := filtered_user_ids user_ids st in
  if bool_decide (filtered_user_ids = []) then st
  else
    match guest_token ← _get_twitter_api_guest_token;
          _get_twitter_users guest_token filtered_user_ids with
    | Ok retrieved_users =>
        match register_retrieved retrieved_users st with
        | (st, None) => st
        | (st, Some err) => logging (ErrorFailedDownload err) st
        end
    | Raise err => logging (ErrorFailedDownload err) st
    end.

(** *** [_bulk_look_up_for_user_handles] *)

Record Archive : Type := {
  tweet_files : list (list tweet_json);
  following_json : list follow_json;
  follower_json : list follow_json;
  dms_json : list conversation_json;
  group_dms_json : list conversation_json
}.

(** [collected_user_ids], the argument of [_lookup_users]. *)
Definition collected_user_ids (a : Archive) : result (list str) :=
  let following_ids := _collect_user_ids_from_followings (following_json a) in
  let follower_ids := _collect_user_ids_from_followers (follower_json a) in
  dms_user_ids ← _collect_user_ids_from_direct_messages (dms_json a);
  group_dms_user_ids ←
    _collect_user_ids_from_group_direct_messages (group_dms_json a);
  let collected_user_ids_without_followers : list str :=
    set_iter X (list_to_set following_ids ∪ list_to_set dms_user_ids
                ∪ list_to_set group_dms_user_ids) in
  let collected_user_ids_only_in_followers : gset str :=
    list_to_set follower_ids
      ∖ list_to_set collected_user_ids_without_followers in
  Ok (set_iter X (list_to_set collected_user_ids_without_followers
                  ∪ collected_user_ids_only_in_followers)).

Definition _bulk_look_up_for_user_handles (a : Archive) (st : state)
  : result state :=
  collected_user_ids ← collected_user_ids a;
  Ok (_lookup_users collected_user_ids st).

(** *** Follow edges *)

Definition follow_edge (st : state) (following_id : str)
    (following : list User) : result (list User) :=
  let handle := handle_or st following_id UNKNOWN_HANDLE in
  profile_url ← user_id_url following_id;
  Ok (following ++ [ {| user_handle := Some handle;
                        user_profile_url := Some profile_url |} ]).

Definition _get_following_users (a : Archive) (st : state)
  : result (list User) :=
  for_each (follow_edge st) (collect_account_ids (following_json a)) [].

Definition _get_followers_users (a : Archive) (st : state)
  : result (list User) :=
  for_each (follow_edge st) (collect_account_ids (follower_json a)) [].

(** *** Direct messages *)

(** [self._users[id].handle if id in self._users else
    self._user_id_url_template.format(id)]. *)
Definition message_handle (st : state) (id : str) : result str :=
  match users st !! id with
  | Some u => Ok (handle u)
  | None => user_id_url id
  end.

(** The [t.co] links of a message are replaced with their expanded form. *)
Definition expand_dm_links (urls : list dm_url) (body : str) : str :=
  foldl (fun body url =>
           match du_url url, du_expanded url with
           | Some u, Some expanded_url => Py.replace body u expanded_url
           | _, _ => body
           end) body urls.

(** One file of the archive whose name starts with the id of the message:
    it is copied, and the link to the media becomes a link to the copy. *)
Definition fallback_dm_file (original_expanded_url : str)
    (acc : str * state) (archive_media_path : str) : str * state :=
  let '(body_markdown, st) := acc in
  let archive_media_filename := Path.basename archive_media_path in
  let media_url :=
    Path.join (dir_output_media paths) archive_media_filename in
  let st :=
    if isfile st media_url then st
    else copy archive_media_path media_url st in
  let video_markdown :=
    media_url ++ lit " Your browser does not support the video tag" in
  (Py.replace body_markdown original_expanded_url video_markdown, st).

(** The media of a message, which [_get_direct_messages] and
    [_get_group_direct_messages] resolve with the same statements up to the
    directory of the media ([media_dir]), the markup of an image
    ([image_markdown]) and the log call for a missing file ([missing]). *)
Definition attach_dm_media (media_dir : str) (image_markdown : str -> str)
    (missing : str -> str -> log_entry) (message_create : message_create)
    (body_markdown : str) (st : state) : result (str * state) :=
  match mc_mediaUrls message_create, mc_urls message_create with
  | Some [media_url0], Some urls =>
      first ← index urls 0;
      original_expanded_url ← getitem (du_expanded first);
      message_id ← getitem (mc_id message_create);
      let media_hash_and_type :=
        default [] (last (Py.split_on Path.sep media_url0)) in
      let archive_media_filename :=
        message_id ++ lit "-" ++ media_hash_and_type in
      let new_url :=
        Path.join (dir_output_media paths) archive_media_filename in
      let archive_media_path :=
        Path.join (Path.join (dir_input_data paths) media_dir)
          archive_media_filename in
      if isfile st archive_media_path then
        let st :=
          if isfile st new_url then st
          else copy archive_media_path new_url st in
        Ok (Py.replace body_markdown original_expanded_url
              (image_markdown new_url), st)
      else
        let archive_media_paths :=
          glob X (files st)
            (Path.join (Path.join (dir_input_data paths) media_dir)
               (message_id ++ lit "*")) in
        if bool_decide (0 < length archive_media_paths) then
          Ok (foldl (fallback_dm_file original_expanded_url)
                (body_markdown, st) archive_media_paths)
        else
          Ok (body_markdown,
              logging (missing archive_media_path original_expanded_url) st)
  | _, _ => Ok (body_markdown, st)
  end.

Definition direct_message_step (m : message)
    (acc : list DirectMessage * state)
  : result (list DirectMessage * state) :=
  let '(dms, st) := acc in
  match m with
  | MessageCreate message_create =>
      match mc_senderId message_create, mc_recipientId message_create,
            mc_text message_create, mc_createdAt message_create with
      | Some from_id, Some to_id, Some body, Some created_at =>
          let body :=
            match mc_urls message_create with
            | Some urls => expand_dm_links urls body
            | None => body
            end in
          let body_markdown := join_words (Py.split body) in
          '(body_markdown, st) ←
            attach_dm_media DIRECT_MESSAGE_MEDIA (fun new_url => new_url)
              InfoMissingDmFile message_create body_markdown st;
          to_handle ← message_handle st to_id;
          from_handle ← message_handle st from_id;
          let body_markdown :=
            Py.join [10%N] (Py.splitlines body_markdown) in
          Ok (dms ++ [ {| dm_from := from_handle; dm_to := to_handle;
                          dm_data := body_markdown; dm_at := created_at |} ],
              st)
      | _, _, _, _ => Ok acc
      end
  | _ => Ok acc
  end.

Definition _get_direct_messages (a : Archive) (st : state)
  : result (list DirectMessage * state) :=
  for_each
    (fun conversation acc =>
       match dmConversation conversation with
       | Some dm_conversation =>
           match conversationId dm_conversation,
                 messages dm_conversation with
           | Some _, Some ms => for_each direct_message_step ms acc
           | _, _ => Ok acc
           end
       | None => Ok acc
       end)
    (dms_json a) ([], st).

(** *** Group direct messages *)

(** The handles of the participants, in the order in which the set of
    their ids is iterated. *)
Definition group_participants (participants : gset str) (st : state)
  : result (list str) :=
  for_each (fun participant_id group_participant =>
              h ← message_handle st participant_id;
              Ok (group_participant ++ [h]))
    (set_iter X participants) [].

Definition group_message_step (m : message)
    (acc : option str * list GroupDirectMessage * state)
  : result (option str * list GroupDirectMessage * state) :=
  let '(group_name, group_dms, st) := acc in
  match m with
  | MessageCreate message_create =>
      match mc_senderId message_create, mc_text message_create,
            mc_createdAt message_create with
      | Some from_id, Some body, Some group_dm_at =>
          let body :=
            match mc_urls message_create with
            | Some urls => expand_dm_links urls body
            | None => body
            end in
          let body_markdown := join_words (Py.split body) in
          '(body_markdown, st) ←
            attach_dm_media DIRECT_MESSAGES_GROUP_MEDIA
              (fun new_url => [10%N] ++ lit "![](" ++ new_url ++ lit ")"
                              ++ [10%N])
              WarnMissingGroupDmFile message_create body_markdown st;
          group_dm_from ← message_handle st from_id;
          let group_dm_data :=
            Py.join ([10%N] ++ lit ">") (Py.splitlines body_markdown) in
          Ok (group_name,
              group_dms ++ [ {| group_dm_from := group_dm_from;
                                group_dm_data := group_dm_data;
                                group_dm_at := group_dm_at |} ],
              st)
      | _, _, _ => Ok acc
      end
  | ConversationNameUpdate conversation_name_update =>
      match cn_name conversation_name_update with
      | Some name => Ok (Some name, group_dms, st)
      | None => Ok acc
      end
  | _ => Ok acc
  end.

(** One conversation of [direct-messages-group.js]: the entry that is
    appended to the result, if any. A conversation without
    [dmConversation] or without its [conversationId] gives no entry. *)
Definition group_conversation (conversation : conversation_json)
    (st : state) : result (option GroupDirectMessages * state) :=
  match dmConversation conversation with
  | Some dm_conversation =>
      match conversationId dm_conversation with
      | Some _ =>
          participants ←
            _find_group_dm_conversation_participant_ids conversation;
          group_participant ← group_participants participants st;
          '(group_name, group_dms, st) ←
            match messages dm_conversation with
            | Some ms => for_each group_message_step ms (None, [], st)
            | None => Ok (None, [], st)
            end;
          Ok (Some {| group_name := group_name; group_dms := Some group_dms;
                      group_participant := group_participant |}, st)
      | None => Ok (None, st)
      end
  | None => Ok (None, st)
  end.

Definition _get_group_direct_messages (a : Archive) (st : state)
  : result (list GroupDirectMessages * state) :=
  for_each
    (fun conversation '(group_direct_message, st) =>
       '(g, st) ← group_conversation conversation st;
       match g with
       | Some g => Ok (group_direct_message ++ [g], st)
       | None => Ok (group_direct_message, st)
       end)
    (group_dms_json a) ([], st).

(** *** The pipeline: [__init__] and [retrieve_information] *)

(** The attributes of the parser once [__init__] has returned, with the
    state it left. *)
Record TwitterDataParser : Type := {
  self_tweets : list Tweet;
  self_following : list User;
  self_followers : list User;
  self_direct_messages : list DirectMessage;
  self_group_direct_messages : list GroupDirectMessages;
  self_state : state
}.

(** The state in which the pipeline starts: [self._users = {}]; [fs] are
    the files that exist once the archive is extracted. *)
Definition initial_state (fs : gset str) : state :=
  {| files := fs; media_sources := []; users := ∅; log := [];
     registrations := [] |}.

(** [__init__], from the point where the archive is extracted, the paths
    are found and the user name is read. *)
Definition TwitterDataParser_init (a : Archive) (fs : gset str)
  : result TwitterDataParser :=
  let st := initial_state fs in
  '(tweets, st) ← _get_tweets (tweet_files a) st;
  st ← _bulk_look_up_for_user_handles a st;
  following ← _get_following_users a st;
  followers ← _get_followers_users a st;
  '(direct_messages, st) ← _get_direct_messages a st;
  '(group_direct_messages, st) ← _get_group_direct_messages a st;
  Ok {| self_tweets := tweets; self_following := following;
        self_followers := followers;
        self_direct_messages := direct_messages;
        self_group_direct_messages := group_direct_messages;
        self_state := st |}.

Definition retrieve_information (self : TwitterDataParser)
  : TwitterUserInfo :=
  {| user_name := self_user_name;
     following := Some (self_following self);
     followers := Some (self_followers self);
     tweets := Some (self_tweets self);
     dms := Some (self_direct_messages self);
     groups_dms := Some (self_group_direct_messages self);
     following_count := length (self_following self);
     follower_count := length (self_followers self) |}.

End TwitterDataParser.

(** ** A concrete environment

    Models of the library functions and of the lookup service, with which
    the pipeline can be run on concrete archives. The theorems below hold
    for every environment; the examples are evaluated in this one. *)

Module Model.

Definition find_char (c : char) (s : str) : option nat :=
  fst <$> list_find (fun x => x = c) s.

(** [s.split(c, 1)] as a pair; the second part is empty when [c] does not
    occur. *)
Definition split_first (c : char) (s : str) : str * str :=
  match find_char c s with
  | Some i => (take i s, drop (S i) s)
  | None => (s, [])
  end.

Definition is_ascii_alpha (c : char) : bool :=
  ((65 <=? c) && (c <=? 90) || (97 <=? c) && (c <=? 122))%N.

Definition is_scheme_char (c : char) : bool :=
  is_ascii_alpha c || ((48 <=? c) && (c <=? 57))%N
  || bool_decide (c ∈ lit "+-.").

Definition lower (c : char) : char :=
  if ((65 <=? c) && (c <=? 90))%N then (c + 32)%N else c.

(** Leading C0 control characters and spaces are dropped. *)
Fixpoint lstrip_c0 (s : str) : str :=
  match s with
  | c :: s' => if (c <=? 32)%N then lstrip_c0 s' else s
  | [] => []
  end.

(** The scheme of a URL and what follows the colon. *)
Definition split_scheme (url : str) : str * str :=
  match find_char 58%N url, url with
  | Some (S i), c0 :: _ =>
      if is_ascii_alpha c0 && forallb is_scheme_char (take (S i) url)
      then (map lower (take (S i) url), drop (S (S i)) url)
      else ([], url)
  | _, _ => ([], url)
  end.

(** [_splitnetloc(url, 2)]: the network location ends at the first of
    [/], [?] and [#]. *)
Definition splitnetloc (url : str) : str * str :=
  let rest := drop 2 url in
  let delim :=
    default (length rest)
      (fst <$> list_find (fun x => x ∈ lit "/?#") rest) in
  (take delim rest, drop delim rest).

(** [_splitparams]: the parameters follow the first semicolon of the last
    segment of the path. *)
Definition splitparams (url : str) : str * str :=
  let last_segment := Path.basename url in
  let head := take (length url - length last_segment) url in
  match find_char 59%N last_segment with
  | Some i => (head ++ take i last_segment, drop (S i) last_segment)
  | None => (url, [])
  end.

Definition uses_params : list str :=
  [[]; lit "ftp"; lit "hdl"; lit "prospero"; lit "http"; lit "imap";
   lit "https"; lit "shttp"; lit "rtsp"; lit "rtspu"; lit "sip"; lit "sips";
   lit "mms"; lit "sftp"; lit "tel"].

(** [urllib.parse.urlparse] on a word of a tweet, after CPython's
    [urlsplit] and [urlparse]. (The check that the network location is
    stable under Unicode normalisation is left out.) *)
Definition py_urlparse (word : str) : result url_parts :=
  let url := lstrip_c0 word in
  let '(scheme, url) := split_scheme url in
  let '(netloc, url) :=
    if Py.startswith (lit "//") url then splitnetloc url else ([], url) in
  if bool_decide (91%N ∈ netloc) && negb (bool_decide (93%N ∈ netloc))
     || bool_decide (93%N ∈ netloc) && negb (bool_decide (91%N ∈ netloc))
  then Raise ValueError
  else
    let '(url, fragment) := split_first 35%N url in
    let '(url, query) := split_first 63%N url in
    let '(url, params) :=
      if bool_decide (scheme ∈ uses_params) && bool_decide (59%N ∈ url)
      then splitparams url else (url, []) in
    Ok {| scheme := scheme; netloc := netloc; path := url; params := params;
          query := query; fragment := fragment |}.

(** Drops the components that [start] and [p] share. *)
Fixpoint strip_common (start p : list str) : list str * list str :=
  match start, p with
  | a :: start', b :: p' =>
      if bool_decide (a = b) then strip_common start' p' else (start, p)
  | _, _ => (start, p)
  end.

(** [os.path.relpath(p, start)] for two normalised paths that are relative
    to the same directory. *)
Definition posix_relpath (p start : str) : str :=
  let components s := filter (fun c => c ≠ []) (Py.split_on Path.sep s) in
  let '(up, down) := strip_common (components start) (components p) in
  match map (fun _ => lit "..") up ++ down with
  | [] => lit "."
  | rel => Py.join [Path.sep] rel
  end.

(** [glob.glob(pattern)] for a pattern [prefix*]: the files whose path
    continues the prefix within the same directory. *)
Definition prefix_glob (fs : gset str) (pattern : str) : list str :=
  let prefix := take (length pattern - 1) pattern in
  filter (fun p => Py.startswith prefix p = true
                   ∧ Path.sep ∉ drop (length prefix) p)
         (elements fs).

(** A lookup service that knows every account as [user<id>]. *)
Definition echo_lookup (guest_token : str) (ids : list str)
  : result (list api_user) :=
  Ok (map (fun id => {| api_id_str := Some id;
                        api_screen_name := Some (Val (lit "user" ++ id)) |})
          ids).

Definition env : Externals :=
  {| set_iter := elements;
     urlparse := py_urlparse;
     relpath := posix_relpath;
     glob := prefix_glob;
     guest_token := Ok (lit "guest");
     users_lookup := echo_lookup |}.

(** The same environment when the lookup service cannot be reached. *)
Definition offline : Externals :=
  {| set_iter := elements;
     urlparse := py_urlparse;
     relpath := posix_relpath;
     glob := prefix_glob;
     guest_token := Raise OtherException;
     users_lookup := echo_lookup |}.

Definition paths : PathConfig :=
  PathConfig_init (lit "archive") (lit "archive/data/tweets_media").

End Model.

(** ** Notions the properties are stated with *)

(** The template of a permalink as the specification words it. *)
Definition spec_permalink_template : str :=
  lit "https://twitter.com/{owner_handle}/{post_id}".

(** A string that is empty or holds whitespace only. *)
Definition blank (s : str) : Prop :=
  Forall (fun c => Py.isspace c = true) s.

(** The profile URL built from a raw id. *)
Definition profile_url (id : str) : str :=
  lit "https://twitter.com/i/user/" ++ id.

(** The follow edge of an id that the registry does not resolve. *)
Definition unknown_edge (id : str) : User :=
  {| user_handle := Some UNKNOWN_HANDLE;
     user_profile_url := Some (profile_url id) |}.

(** The follow edge of an id in a registry. *)
Definition edge_of (st : state) (id : str) : User :=
  {| user_handle := Some (handle_or st id UNKNOWN_HANDLE);
     user_profile_url := Some (profile_url id) |}.

(** The two kinds of writes to the registry. *)
Definition is_discovery (r : registration) : Prop :=
  match r with
  | Discovered _ _ => True
  | BulkResolved _ _ => False
  end.

Definition is_bulk (r : registration) : Prop :=
  match r with
  | Discovered _ _ => False
  | BulkResolved _ _ => True
  end.

(** [st'] is [st] after some writes to the registry, all of the kind [Q]. *)
Definition grows (Q : registration -> Prop) (st st' : state) : Prop :=
  exists l, registrations st' = registrations st ++ l /\ Forall Q l.

(** The order of the writes that the specification states: every write of
    the bulk lookup comes before every write of a discovery. *)
Definition bulk_precedes_discovery (l : list registration) : Prop :=
  forall i j r r',
    l !! i = Some r -> is_bulk r -> l !! j = Some r' -> is_discovery r' ->
    i < j.

(** The order of the writes in the code: every write of a discovery comes
    before every write of the bulk lookup. *)
Definition discovery_precedes_bulk (l : list registration) : Prop :=
  forall i j r r',
    l !! i = Some r -> is_discovery r -> l !! j = Some r' -> is_bulk r' ->
    i < j.

(** A body starts with a mention token: an [@], a name of letters, digits
    and underscores that may be empty, and a space. *)
Definition starts_with_mention (body : str) : Prop :=
  exists name rest,
    body = 64%N :: name ++ 32%N :: rest
    /\ Forall (fun c => is_name_char c = true) name.

(** The first word of the body of a tweet is [RT]. *)
Definition starts_with_RT (tweet : tweet_obj) : Prop :=
  exists text, full_text tweet = Some text
               /\ head (Py.split text) = Some RT.

(** A host without its leading [www.]. *)
Definition drop_www (host : str) : str :=
  if Py.startswith (lit "www.") host then drop 4 host else host.

(** The display form of a link as the specification words it: the host
    without [www.], then the path and the query, cut after 15 code points
    and closed with an ellipsis when they are 15 or more. *)
Definition spec_display_url (host path_and_query : str) : str :=
  drop_www host
  ++ (if bool_decide (15 <= length path_and_query)
      then take 15 path_and_query ++ [ELLIPSIS]
      else path_and_query).

(** A word is an absolute link that is not truncated: it parses with a
    scheme and a network location, and does not end in an ellipsis. *)
Definition absolute_link (X : Externals) (word : str) (url : url_parts)
  : Prop :=
  urlparse X word = Ok url /\ scheme url <> [] /\ netloc url <> []
  /\ last word <> Some ELLIPSIS.

(** The link entity that the backfill makes up for a word of the body, if
    the word is an absolute link. *)
Definition pretend_link (X : Externals) (full_text word : str)
  : option url_entity :=
  match urlparse X word with
  | Ok url =>
      if negb (bool_decide (scheme url = []))
         && negb (bool_decide (netloc url = []))
         && negb (Py.endswith [ELLIPSIS] word)
      then Some {| ue_url := Some word;
                   ue_expanded_url := Some word;
                   ue_display_url := Some (display_url_of url);
                   ue_indices :=
                     (fun i => (i, i + length word))
                       <$> Py.find_from word full_text 0 |}
      else None
  | Raise _ => None
  end.

(** The integer bitrate that a variant carries, if it carries one. *)
Definition bitrate_of (v : variant) : option Z :=
  var_bitrate v ≫= Py.int.

(** A variant of the archive: its bitrate, if any, is a number that is not
    negative, and comes with the URL of the variant. *)
Definition real_variant (v : variant) : Prop :=
  match var_bitrate v with
  | Some b => (exists n, Py.int b = Some n /\ (0 <= n)%Z) /\ is_Some (var_url v)
  | None => True
  end.

(** Iterating over a set visits each of its members once, in some order. *)
Definition iterates_members (X : Externals) : Prop :=
  forall s : gset str, set_iter X s ≡ₚ elements s.

(** The ids that the four sources of an archive refer to. *)
Definition account_ref (follow_json_list : list follow_json) (id : str)
  : Prop :=
  exists f, f ∈ follow_json_list /\ fj_account f = Some (Some id).

(** An id is one of the two halves of the id of a pairwise conversation,
    split at its hyphen. *)
Definition dm_ref (a : Archive) (id : str) : Prop :=
  exists c dc cid id1 id2,
    c ∈ dms_json a /\ dmConversation c = Some dc
    /\ conversationId dc = Some cid
    /\ Py.split_on 45%N cid = [id1; id2] /\ (id = id1 \/ id = id2).

(** What an event of a group conversation contributes to the participants:
    the sender of a message; the initiator of a [joinConversation] and the
    ids of its snapshot; the initiator of a [participantsJoin] and the ids
    it adds. *)
Definition contributes (m : message) (id : str) : Prop :=
  match m with
  | MessageCreate mc => mc_senderId mc = Some id
  | JoinConversation jc =>
      jc_initiatingUserId jc = Some id
      \/ exists snapshot,
           jc_participantsSnapshot jc = Some snapshot /\ id ∈ snapshot
  | ParticipantsJoin pj =>
      pj_initiatingUserId pj = Some id
      \/ exists added, pj_userIds pj = Some added /\ id ∈ added
  | _ => False
  end.

(** The events of a group conversation; a conversation without an id has
    none. *)
Definition events (c : conversation_json) : list message :=
  match dmConversation c with
  | Some dc =>
      match conversationId dc with
      | Some _ => default [] (messages dc)
      | None => []
      end
  | None => []
  end.

(** The ids that an event contributes, in the order in which the event
    lists them. *)
Definition contributed_ids (m : message) : list str :=
  match m with
  | MessageCreate mc => option_list (mc_senderId mc)
  | JoinConversation jc =>
      option_list (jc_initiatingUserId jc)
      ++ default [] (jc_participantsSnapshot jc)
  | ParticipantsJoin pj =>
      option_list (pj_initiatingUserId pj) ++ default [] (pj_userIds pj)
  | _ => []
  end.

(** The elements of a list in the order in which they are first seen;
    [seen] are the elements met so far. *)
Fixpoint first_seen_from (seen : list str) (ids : list str) : list str :=
  match ids with
  | [] => []
  | id :: ids' =>
      if bool_decide (id ∈ seen) then first_seen_from seen ids'
      else id :: first_seen_from (id :: seen) ids'
  end.

(** The participants of a group conversation in the order in which the
    stream of its events first names them. *)
Definition first_seen_ids (c : conversation_json) : list str :=
  first_seen_from [] (flat_map contributed_ids (events c)).

Definition group_ref (a : Archive) (id : str) : Prop :=
  exists c m, c ∈ group_dms_json a /\ m ∈ events c /\ contributes m id.

Definition referenced (a : Archive) (id : str) : Prop :=
  account_ref (following_json a) id \/ account_ref (follower_json a) id
  \/ dm_ref a id \/ group_ref a id.

(** The number of hyphens in a conversation id. *)
Definition hyphens (conversation_id : str) : nat :=
  length (filter (fun c => c = 45%N) conversation_id).

(** ** Concrete archives *)

Module Examples.

Definition timestamp : str := lit "Tue Mar 19 14:05:17 +0000 2019".

(** A tweet that holds nothing but its three mandatory keys. *)
Definition plain_tweet (id text : str) : tweet_obj :=
  {| created_at := Some timestamp; full_text := Some text;
     id_str := Some id; tw_entities := None; tw_extended_entities := None;
     in_reply_to_status_id := None; in_reply_to_screen_name := None;
     in_reply_to_user_id := None |}.

Definition hello_tweet : tweet_obj := plain_tweet (lit "1") (lit "hello world").

Definition hello_post : Tweet :=
  {| tweet_year := lit "2019"; tweet_type := TweetType.TWEET;
     retweeted_from := None; replied_to_names := None;
     replying_to_tweet := None; tweet_data := lit "hello world ";
     tweeted_at := timestamp;
     tweet_url := lit "https://twitter.com/alice/status/1";
     tweets_attached_media := None |}.

Definition blank_tweet : tweet_obj := plain_tweet (lit "2") (lit "   ").

(** The conversion of a tweet of the archive of [alice], in the concrete
    environment, with no file on disk and nobody registered. *)
Definition convert (tweet : tweet_obj) : result (Tweet * state) :=
  _convert_tweet Model.env Model.paths (lit "alice") (Bare tweet)
    (initial_state ∅).

Definition empty_archive : Archive :=
  {| tweet_files := []; following_json := []; follower_json := [];
     dms_json := []; group_dms_json := [] |}.

(** The pipeline on an archive of [alice] in the concrete environment. *)
Definition run (a : Archive) : result TwitterDataParser :=
  TwitterDataParser_init Model.env Model.paths (lit "alice") a ∅.

Definition blank_archive : Archive :=
  {| tweet_files := [[Bare hello_tweet]; [Bare blank_tweet]];
     following_json := []; follower_json := [];
     dms_json := []; group_dms_json := [] |}.

(** A conversation that holds nothing but its id. *)
Definition conversation (id : str) (ms : list message) : conversation_json :=
  {| dmConversation := Some {| conversationId := Some id;
                               messages := Some ms |} |}.

(** An archive whose one conversation has an id without a hyphen. *)
Definition unpaired_archive : Archive :=
  {| tweet_files := [[Bare hello_tweet]];
     following_json := []; follower_json := [];
     dms_json := [conversation (lit "12-34") []; conversation (lit "1234") []];
     group_dms_json := [] |}.

Definition video_variant (bitrate : string) : variant :=
  {| var_bitrate := Some (lit bitrate);
     var_url := Some (lit "https://video.twimg.com/" ++ lit bitrate
                      ++ lit ".mp4") |}.

(** A playlist, which carries no bitrate. *)
Definition playlist_variant : variant :=
  {| var_bitrate := None;
     var_url := Some (lit "https://video.twimg.com/pl.m3u8") |}.

(** Variants with the bitrates 0, 320000 and 180000. *)
Definition three_variants : list variant :=
  [video_variant "0"; video_variant "320000"; video_variant "180000"].

Definition video (variants : list variant) : media_entity :=
  {| med_url := Some (lit "https://t.co/v");
     med_media_url := Some (lit "http://pbs.twimg.com/thumb/v.jpg");
     med_video_info := Some {| vi_variants := Some variants |} |}.

(** Two files of the archive whose names start with the id [1]. *)
Definition two_files : gset str :=
  {[ lit "archive/data/tweets_media/1-a.mp4";
     lit "archive/data/tweets_media/1-b.mp4" ]}.

Definition follow (id : str) : follow_json :=
  {| fj_account := Some (Some id) |}.

(** A message of a group, of which only the sender is known. *)
Definition sent_by (sender : str) : message :=
  MessageCreate {| mc_id := None; mc_senderId := Some sender;
                   mc_recipientId := None; mc_text := None;
                   mc_createdAt := None; mc_urls := None;
                   mc_mediaUrls := None |}.

(** Two group conversations with the same two senders, who write in the
    one order and in the other. *)
Definition group_12 : conversation_json :=
  conversation (lit "g12") [sent_by (lit "1"); sent_by (lit "2")].

Definition group_21 : conversation_json :=
  conversation (lit "g21") [sent_by (lit "2"); sent_by (lit "1")].

(** An old tweet: it has entities, among which no media and no link. *)
Definition old_tweet (text : str) : tweet_obj :=
  {| created_at := Some timestamp; full_text := Some text;
     id_str := Some (lit "4");
     tw_entities := Some {| ent_media := None; ent_urls := Some [];
                            ent_user_mentions := None |};
     tw_extended_entities := None;
     in_reply_to_status_id := None; in_reply_to_screen_name := None;
     in_reply_to_user_id := None |}.

Definition short_link : str := lit "http://a.com/p?q=1".

Definition short_link_text : str := lit "see http://a.com/p?q=1".

(** The link entity that the backfill makes up for [short_link]. *)
Definition short_link_entity : url_entity :=
  {| ue_url := Some short_link; ue_expanded_url := Some short_link;
     ue_display_url := Some (lit "a.com/p"); ue_indices := Some (4, 22) |}.

(** A reply with a picture that is not in the archive, in whose body the
    link to the picture is followed at once by a mention. *)
Definition media_reply_tweet : tweet_obj :=
  {| created_at := Some timestamp;
     full_text := Some (lit "@bob https://t.co/abc@carol hi");
     id_str := Some (lit "5");
     tw_entities :=
       Some {| ent_media :=
                 Some [ {| med_url := Some (lit "https://t.co/abc");
                           med_media_url := None;
                           med_video_info := None |} ];
               ent_urls := Some []; ent_user_mentions := None |};
     tw_extended_entities :=
       Some {| ext_media :=
                 Some [ {| med_url := Some (lit "https://t.co/abc");
                           med_media_url :=
                             Some (lit "http://pbs.twimg.com/media/x.jpg");
                           med_video_info := None |} ] |};
     in_reply_to_status_id := Some (lit "41");
     in_reply_to_screen_name := Some (Val (lit "bob"));
     in_reply_to_user_id := Some (lit "42") |}.

(** The reply of the specification: [@bob @carol thanks]. *)
Definition thanks_tweet : tweet_obj :=
  {| created_at := Some timestamp;
     full_text := Some (lit "@bob @carol thanks");
     id_str := Some (lit "6");
     tw_entities := None; tw_extended_entities := None;
     in_reply_to_status_id := Some (lit "41");
     in_reply_to_screen_name := Some (Val (lit "bob"));
     in_reply_to_user_id := Some (lit "42") |}.

(** A tweet of the owner that mentions the account [7], called [bob]. *)
Definition mention_tweet : tweet_obj :=
  {| created_at := Some timestamp; full_text := Some (lit "hello @bob");
     id_str := Some (lit "3");
     tw_entities :=
       Some {| ent_media := None; ent_urls := Some [];
               ent_user_mentions :=
                 Some (Val [Val {| men_id := Some (lit "7");
                                   men_screen_name := Some (Val (lit "bob")) |}])
            |};
     tw_extended_entities := None;
     in_reply_to_status_id := None; in_reply_to_screen_name := None;
     in_reply_to_user_id := None |}.

(** An archive whose four sources refer to the ids 7, 8, 9, 10 and 11, and
    whose one tweet mentions the account 7. *)
Definition lookup_archive : Archive :=
  {| tweet_files := [[Bare mention_tweet]];
     following_json := [follow (lit "8")];
     follower_json := [follow (lit "8"); follow (lit "9")];
     dms_json := [conversation (lit "7-8") []];
     group_dms_json :=
       [conversation (lit "g1")
          [sent_by (lit "10");
           ParticipantsJoin {| pj_initiatingUserId := Some (lit "10");
                               pj_userIds := Some [lit "11"] |}]] |}.

(** The registry once the tweet of [lookup_archive] is converted. *)
Definition bob_known : state :=
  register Discovered (lit "7") (lit "bob") (initial_state ∅).

(** A message of which only the sender, the recipient, the text and the
    time are known. *)
Definition text_message (sender recipient text : str) : message_create :=
  {| mc_id := None; mc_senderId := Some sender;
     mc_recipientId := Some recipient; mc_text := Some text;
     mc_createdAt := Some (lit "2022-01-27T15:58:52.744Z");
     mc_urls := None; mc_mediaUrls := None |}.

(** An archive in which the id [999] follows the owner and writes to
    them. *)
Definition stranger_archive : Archive :=
  {| tweet_files := [];
     following_json := [follow (lit "999")];
     follower_json := [follow (lit "999")];
     dms_json :=
       [conversation (lit "999-1")
          [MessageCreate (text_message (lit "999") (lit "1") (lit "hi"))]];
     group_dms_json := [] |}.

End Examples.

(** ** The rest of [parser.py]: reading the archive *)

(** [s[i:]] and [s[:j]] for an index that may be negative: a negative
    index counts from the end, and an index out of range is clipped. *)
Definition clip_index (len : nat) (i : Z) : nat :=
  Z.to_nat (if (i <? 0)%Z then Z.max 0 (i + Z.of_nat len)
            else Z.min i (Z.of_nat len)).

Definition slice_from (s : str) (i : Z) : str :=
  drop (clip_index (length s) i) s.

Definition slice_to (s : str) (j : Z) : str :=
  take (clip_index (length s) j) s.

(** [_extract_and_find_archive]: [cwd] is [os.getcwd()], [file_path] is
    [self._file_path], and [extractall zip dir] opens the zip file and
    extracts it into [dir], or raises. *)
Definition _extract_and_find_archive (cwd : str)
    (extractall : str -> str -> result unit) (file_path : str) : result str :=
  let list_file_name := Py.split_on 47%N file_path in
  file_name_final ← index list_file_name (length list_file_name - 1);
  let file_name_for_extracted_data :=
    cwd ++ lit "/"
    ++ slice_to file_name_final (Z.of_nat (length file_name_final) - 4) in
  if bool_decide
       (slice_from file_name_final (Z.of_nat (length file_name_final) - 4)
        <> lit ".zip")
  then Raise OtherException
  else
    _ ← extractall file_path file_name_for_extracted_data;
    Ok file_name_for_extracted_data.

(** What [_read_json_from_js_file] returns: the empty dictionary, or what
    [json.loads] made of the file. *)
Inductive js_file (J : Type) : Type :=
  | EmptyDict
  | Parsed (j : J).
Arguments EmptyDict {J}.
Arguments Parsed {J} j.

(** The text that is handed to [json.loads]: the first line becomes an
    opening bracket, followed by an opening brace if the line has one. *)
Definition js_to_json (data : list str) : str :=
  let prefix :=
    lit "[" ++ (if bool_decide (123%N ∈ default [] (head data))
                then lit " {" else []) in
  prefix ++ concat (drop 1 data).

(** [_read_json_from_js_file]: [data] are the lines of the file, as
    [readlines] returns them, and [json_loads] is [json.loads]. *)
Definition _read_json_from_js_file {J} (json_loads : str -> result J)
    (data : list str) : result (js_file J) :=
  if bool_decide (length data <= 1) then Ok EmptyDict
  else j ← json_loads (js_to_json data); Ok (Parsed j).

(** An element of [account.js]. *)
Record account_json : Type := {
  aj_account : option (option str)
}.

(** [_extract_username]: [account[0]["account"]["username"]]; the empty
    dictionary has no key [0]. *)
Definition _extract_username (account : js_file (list account_json))
  : result str :=
  match account with
  | EmptyDict => Raise KeyError
  | Parsed l =>
      first ← index l 0;
      inner ← getitem (aj_account first);
      getitem inner
  end.

(** What iterating over the result of [_read_json_from_js_file] yields:
    nothing for the empty dictionary. *)
Definition iterate {J} (file : js_file (list J)) : list J :=
  match file with
  | EmptyDict => []
  | Parsed l => l
  end.

(** ** Notions the further properties are stated with *)

(** The account id of an entry of [following.js] or [follower.js], if the
    entry carries one. *)
Definition account_id (f : follow_json) : option str :=
  match fj_account f with
  | Some (Some id) => Some id
  | _ => None
  end.

(** A message of a pairwise conversation is complete when it is a
    [messageCreate] with a sender, a recipient, a text and a time. *)
Definition complete_dm (m : message) : option message_create :=
  match m with
  | MessageCreate mc =>
      match mc_senderId mc, mc_recipientId mc, mc_text mc, mc_createdAt mc with
      | Some _, Some _, Some _, Some _ => Some mc
      | _, _, _, _ => None
      end
  | _ => None
  end.

(** A message of a group conversation is complete when it is a
    [messageCreate] with a sender, a text and a time. *)
Definition complete_group_dm (m : message) : option message_create :=
  match m with
  | MessageCreate mc =>
      match mc_senderId mc, mc_text mc, mc_createdAt mc with
      | Some _, Some _, Some _ => Some mc
      | _, _, _ => None
      end
  | _ => None
  end.

(** The name that an event gives to a group conversation. *)
Definition name_update (m : message) : option str :=
  match m with
  | ConversationNameUpdate u => cn_name u
  | _ => None
  end.

(** The handle under which a message names an account: the handle of the
    registry, or the profile URL of the id. *)
Definition resolve (st : state) (id : str) : str :=
  handle_or st id (profile_url id).

(** A direct message carries the time of its event and the resolved
    handles of its sender and its recipient. *)
Definition dm_of (st : state) (mc : message_create) (dm : DirectMessage)
  : Prop :=
  mc_createdAt mc = Some (dm_at dm)
  /\ resolve st <$> mc_senderId mc = Some (dm_from dm)
  /\ resolve st <$> mc_recipientId mc = Some (dm_to dm).

Definition group_dm_of (st : state) (mc : message_create)
    (gdm : GroupDirectMessage) : Prop :=
  mc_createdAt mc = Some (group_dm_at gdm)
  /\ resolve st <$> mc_senderId mc = Some (group_dm_from gdm).

(** The complete messages of a pairwise conversation; a conversation
    without an id or without messages has none. *)
Definition complete_dms (c : conversation_json) : list message_create :=
  match dmConversation c with
  | Some dc =>
      match conversationId dc, messages dc with
      | Some _, Some ms => omap complete_dm ms
      | _, _ => []
      end
  | None => []
  end.

(** The complete messages of a group conversation. *)
Definition complete_group_dms (c : conversation_json) : list message_create :=
  omap complete_group_dm (events c).

(** A word: not empty, and without a whitespace code point. *)
Definition word (w : str) : Prop :=
  w <> [] /\ Forall (fun c => Py.isspace c = false) w.

(** A tweet that has nothing but its three mandatory keys is plain. *)
Definition plain (tweet : tweet_obj) : Prop :=
  tw_entities tweet = None /\ tw_extended_entities tweet = None
  /\ in_reply_to_status_id tweet = None
  /\ in_reply_to_screen_name tweet = None
  /\ in_reply_to_user_id tweet = None.

(** The exception that the first lines of [_convert_tweet] raise on a
    tweet, before its entities are looked at: a mandatory key that is
    missing, a timestamp of fewer than six fields, a text without a word,
    or a retweet marker that nothing follows. *)
Definition header_failure (tweet : tweet_obj) : option exn :=
  match created_at tweet, full_text tweet, id_str tweet with
  | Some timestamp_str, Some text, Some _ =>
      if bool_decide (length (Py.split timestamp_str) < 6) then Some IndexError
      else match Py.split text with
           | [] => Some IndexError
           | [w] => if bool_decide (w = RT) then Some IndexError else None
           | _ => None
           end
  | _, _, _ => Some KeyError
  end.

(** The pair that naming an account discovers: the id must read as an
    integer that is not negative, and the handle must not be null. *)
Definition discovery_of (id : str) (h : nullable str) : option (str * str) :=
  match Py.int id, h with
  | Some n, Val h => if (0 <=? n)%Z then Some (id, h) else None
  | _, _ => None
  end.

Definition mention_discovery (m : nullable mention) : option (str * str) :=
  match m with
  | Val m =>
      match men_id m, men_screen_name m with
      | Some id, Some h => discovery_of id h
      | _, _ => None
      end
  | Null => None
  end.

(** The accounts that a tweet names, in the order in which the conversion
    comes to them: the account replied to, then the mentions. *)
Definition discoveries (tweet : tweet_obj) : list (str * str) :=
  match in_reply_to_user_id tweet, in_reply_to_screen_name tweet with
  | Some id, Some h => option_list (discovery_of id h)
  | _, _ => []
  end
  ++ match tw_entities tweet ≫= ent_user_mentions with
     | Some (Val mentions) => omap mention_discovery mentions
     | _ => []
     end.

(** [self._users] after the pairs of [l] were written to it, in order. *)
Definition written (l : list (str * str)) (m : gmap str UserData)
  : gmap str UserData :=
  foldl (fun m p => <[p.1 := {| user_id := p.1; handle := p.2 |}]> m) m l.

(** A state is [st] after the pairs of [l] were discovered. *)
Definition discovered_from (st : state) (l : list (str * str)) (st' : state)
  : Prop :=
  users st' = written l (users st)
  /\ registrations st'
     = registrations st ++ map (fun p => Discovered p.1 p.2) l.


(** ** The requests of the bulk lookup *)

(** The slices [user_ids[:100]], [user_ids[100:200]], ... that the loop of
    [_get_twitter_users] takes off the list; [fuel] bounds their number. *)
Fixpoint batches_fuel (fuel : nat) (user_ids : list str) : list (list str) :=
  match fuel, user_ids with
  | _, [] => []
  | O, _ => []
  | S fuel, _ => take 100 user_ids :: batches_fuel fuel (drop 100 user_ids)
  end.

Definition batches (user_ids : list str) : list (list str) :=
  batches_fuel (length user_ids) user_ids.

(** One turn of the loop of [_get_twitter_users]: the request for a batch,
    and the answer stored under the ids of its records. *)
Definition batch_step (X : Externals) (guest_token : str)
    (user_id_batch : list str) (retrieved : list (str * api_user))
  : result (list (str * api_user)) :=
  response_json ← users_lookup X guest_token user_id_batch;
  for_each (fun user retrieved =>
              id ← getitem (api_id_str user);
              Ok (dict_set id user retrieved))
    response_json retrieved.

(** The service refuses the lookup of [user_ids]: no guest token is handed
    out, or the request for one of the batches fails. *)
Definition lookup_refused (X : Externals) (user_ids : list str) : Prop :=
  (exists e, guest_token X = Raise e)
  \/ guest_token X = Ok []
  \/ exists token batch e,
       guest_token X = Ok token /\ batch ∈ batches user_ids
       /\ users_lookup X token batch = Raise e.

(** The records of an answer up to the first one without a [screen_name],
    with their screen names. *)
Fixpoint named_records (retrieved_users : list (str * api_user))
  : list (str * nullable str) :=
  match retrieved_users with
  | [] => []
  | (user_id, user) :: rest =>
      match api_screen_name user with
      | Some h => (user_id, h) :: named_records rest
      | None => []
      end
  end.

(** The pair that a record with a screen name resolves. *)
Definition resolved (r : str * nullable str) : option (str * str) :=
  match r.2 with
  | Val h => Some (r.1, h)
  | Null => None
  end.

(** The answer of the service to the lookup of [user_ids]. *)
Definition retrieved_users (X : Externals) (user_ids : list str)
  : result (list (str * api_user)) :=
  guest_token ← _get_twitter_api_guest_token X;
  _get_twitter_users X guest_token user_ids.

(** An event of a group conversation that lacks a key the collection of
    the participants reads. *)
Definition lacks_participant_key (m : message) : Prop :=
  match m with
  | MessageCreate mc => mc_senderId mc = None
  | JoinConversation jc =>
      jc_initiatingUserId jc = None \/ jc_participantsSnapshot jc = None
  | ParticipantsJoin pj =>
      pj_initiatingUserId pj = None \/ pj_userIds pj = None
  | _ => False
  end.

(** ** The media of a tweet *)

(** The expanded link of a media element that has both its links; the
    loop over the media passes by an element that lacks one. *)
Definition media_link (media : media_entity) : option str :=
  match med_url media, med_media_url media with
  | Some _, Some original_expanded_url => Some original_expanded_url
  | _, _ => None
  end.

(** The name of the file that the archive holds for a media element of a
    tweet: the id of the tweet, a hyphen and the last component of the
    expanded link. *)
Definition archive_name (tweet_id_str original_expanded_url : str) : str :=
  tweet_id_str ++ lit "-" ++ Path.basename original_expanded_url.

(** The media of a tweet are attached: the tweet has [entities.media]
    whose first element has the link [original_url], and
    [extended_entities.media] is [medias]. *)
Definition has_media (tweet : tweet_obj) (original_url : str)
    (medias : list media_entity) : Prop :=
  exists ents first ext,
    tw_entities tweet = Some ents
    /\ ent_media ents ≫= head = Some first
    /\ med_url first = Some original_url
    /\ tw_extended_entities tweet = Some ext
    /\ ext_media ext = Some medias.

(** A link entity that stands for itself: its short form and its expanded
    form are the same word. *)
Definition self_link (u : url_entity) : Prop :=
  exists w, w <> [] /\ ue_url u = Some w /\ ue_expanded_url u = Some w.

(** A post is the post of a tweet: it carries its timestamp, and its
    permalink is built from the handle of the owner and the id of the
    tweet. *)
Definition post_of (owner : str) (tweet : tweet_json) (t : Tweet) : Prop :=
  created_at (unwrap tweet) = Some (tweeted_at t)
  /\ exists id,
       id_str (unwrap tweet) = Some id
       /\ tweet_url t
          = lit "https://twitter.com/" ++ owner ++ lit "/status/" ++ id.

(** The test under which [_get_direct_messages] and
    [_get_group_direct_messages] look for the media of a message: it has
    [mediaUrls] with exactly one element, and it has [urls]. *)
Definition carries_media (mc : message_create) : bool :=
  match mc_mediaUrls mc, mc_urls mc with
  | Some [_], Some _ => true
  | _, _ => false
  end.

(** The text of a direct message without media: the words of the text of
    its event after the links were expanded, each followed by a space. *)
Definition dm_text_of (mc : message_create) (dm : DirectMessage) : Prop :=
  carries_media mc = false ->
  exists text,
    mc_text mc = Some text
    /\ dm_data dm
       = flat_map (fun w => w ++ [32%N])
           (Py.split (expand_dm_links (default [] (mc_urls mc)) text)).

(** A conversation none of whose messages carries media. *)
Definition media_free (c : conversation_json) : Prop :=
  forall mc, MessageCreate mc ∈ events c -> carries_media mc = false.

(** ** The files of a run *)






(** A conversation of [direct-messages-group.js] that has its
    [conversationId]; the others give no entry. *)
Definition with_id (c : conversation_json) : Prop :=
  is_Some (dmConversation c ≫= conversationId).

#[global] Instance with_id_dec (c : conversation_json) : Decision (with_id c).
Proof. unfold with_id. apply _. Defined.

(** The body of a tweet as it reaches the reply step of [_convert_tweet]:
    the words of the text, without the first two for a retweet, after the
    links of the tweet were backfilled and expanded. *)
Definition body_before_reply (X : Externals) (tweet : tweet_obj)
  : result str :=
  text ← getitem (full_text tweet);
  '(_, _, body_markdown) ← retweet_header text (join_words (Py.split text));
  tweet ← backfill_links X text tweet;
  Ok (expand_links tweet body_markdown).

(** ** What the bulk lookup sends *)

(** The requests of [_lookup_users] for the ids [user_ids]: the guest
    token is asked for, then one request is made for each batch of the
    ids, and the records of the answers are stored batch after batch. *)
Definition requests (X : Externals) (user_ids : list str)
  : result (list (str * api_user)) :=
  guest_token ← _get_twitter_api_guest_token X;
  for_each (batch_step X guest_token) (batches user_ids) [].

(** What [_lookup_users] makes of the answers: the records are
    registered, and an exception is logged. *)
Definition store_answers (answers : result (list (str * api_user)))
    (st : state) : state :=
  match answers with
  | Ok retrieved_users =>
      match register_retrieved retrieved_users st with
      | (st, None) => st
      | (st, Some err) => logging (ErrorFailedDownload err) st
      end
  | Raise err => logging (ErrorFailedDownload err) st
  end.

(** The record with which a service answers for the id [id], when it
    knows the account under the handle [h id]. *)
Definition answer (h : str -> str) (id : str) : api_user :=
  {| api_id_str := Some id; api_screen_name := Some (Val (h id)) |}.

(** A service that hands out the token [token] and answers every request
    with one record for each id of the request, in order. *)
Definition answers_every_id (X : Externals) (token : str) (h : str -> str)
  : Prop :=
  guest_token X = Ok token /\ token <> []
  /\ forall batch, users_lookup X token batch = Ok (map (answer h) batch).

(** ** More concrete archives *)

Module More.

Definition time1 : str := lit "2022-01-27T15:58:52.744Z".
Definition time2 : str := lit "2022-01-28T09:00:00.000Z".

Definition message_at (time sender recipient text : str) : message :=
  MessageCreate {| mc_id := None; mc_senderId := Some sender;
                   mc_recipientId := Some recipient; mc_text := Some text;
                   mc_createdAt := Some time;
                   mc_urls := None; mc_mediaUrls := None |}.

Definition renamed (name : str) : message :=
  ConversationNameUpdate {| cn_name := Some name |}.

(** An archive with a pairwise conversation of two complete messages
    around one without a text, and a group conversation that is renamed
    twice. *)
Definition chat_archive : Archive :=
  {| tweet_files := []; following_json := []; follower_json := [];
     dms_json :=
       [Examples.conversation (lit "1-2")
          [message_at time1 (lit "1") (lit "2") (lit "hi");
           Examples.sent_by (lit "2");
           message_at time2 (lit "2") (lit "1") (lit "hello  there")]];
     group_dms_json :=
       [Examples.conversation (lit "g")
          [renamed (lit "Trip");
           message_at time1 (lit "1") (lit "") (lit "where to?");
           JoinConversation
             {| jc_initiatingUserId := Some (lit "2");
                jc_participantsSnapshot := Some [lit "1"; lit "3"] |};
           renamed (lit "Trip 2024");
           message_at time2 (lit "3") (lit "") (lit "north")];
        {| dmConversation := None |}] |}.


(** A reply to an account whose id is [-1], which mentions the account 7
    twice, under two handles, and an account without a handle. *)
Definition naming_tweet : tweet_obj :=
  {| created_at := Some Examples.timestamp;
     full_text := Some (lit "@ghost hello @bob");
     id_str := Some (lit "9");
     tw_entities :=
       Some {| ent_media := None; ent_urls := Some [];
               ent_user_mentions :=
                 Some (Val [Val {| men_id := Some (lit "7");
                                   men_screen_name := Some (Val (lit "bob")) |};
                            Null;
                            Val {| men_id := Some (lit "8");
                                   men_screen_name := Some Null |};
                            Val {| men_id := Some (lit "7");
                                   men_screen_name :=
                                     Some (Val (lit "robert")) |}]) |};
     tw_extended_entities := None;
     in_reply_to_status_id := Some (lit "41");
     in_reply_to_screen_name := Some (Val (lit "ghost"));
     in_reply_to_user_id := Some (lit "-1") |}.

(** A lookup service that answers full batches only. *)
Definition full_batches_only : Externals :=
  {| set_iter := elements;
     urlparse := Model.py_urlparse;
     relpath := Model.posix_relpath;
     glob := Model.prefix_glob;
     guest_token := Ok (lit "guest");
     users_lookup := fun token ids =>
       if bool_decide (length ids = 100) then Model.echo_lookup token ids
       else Raise OtherException |}.

(** A lookup service whose answer has a record with a null screen name
    and then a record without a screen name. *)
Definition gappy : Externals :=
  {| set_iter := elements;
     urlparse := Model.py_urlparse;
     relpath := Model.posix_relpath;
     glob := Model.prefix_glob;
     guest_token := Ok (lit "guest");
     users_lookup := fun _ _ =>
       Ok [ {| api_id_str := Some (lit "1");
               api_screen_name := Some (Val (lit "ann")) |};
            {| api_id_str := Some (lit "2"); api_screen_name := Some Null |};
            {| api_id_str := Some (lit "3"); api_screen_name := None |};
            {| api_id_str := Some (lit "4");
               api_screen_name := Some (Val (lit "dan")) |} ] |}.

(** A message without a sender. *)
Definition anonymous : message :=
  MessageCreate {| mc_id := None; mc_senderId := None;
                   mc_recipientId := None;
                   mc_text := Some (lit "who?");
                   mc_createdAt := Some time2;
                   mc_urls := None; mc_mediaUrls := None |}.

Definition anonymous_events : list message :=
  [message_at time1 (lit "1") (lit "") (lit "hi"); anonymous].

(** An archive with a group conversation one of whose messages has no
    sender. *)
Definition anonymous_archive : Archive :=
  {| tweet_files := []; following_json := []; follower_json := [];
     dms_json := [];
     group_dms_json := [Examples.conversation (lit "g") anonymous_events] |}.

(** A tweet with two pictures, and the state in which the archive holds
    both of them. *)
Definition picture (short_url name : string) : media_entity :=
  {| med_url := Some (lit short_url);
     med_media_url := Some (lit "http://pbs.twimg.com/media/" ++ lit name);
     med_video_info := None |}.

Definition pictures_tweet : tweet_obj :=
  {| created_at := Some Examples.timestamp;
     full_text := Some (lit "look https://t.co/abc");
     id_str := Some (lit "5");
     tw_entities :=
       Some {| ent_media := Some [picture "https://t.co/abc" "x.jpg"];
               ent_urls := Some []; ent_user_mentions := None |};
     tw_extended_entities :=
       Some {| ext_media :=
                 Some [picture "https://t.co/abc" "x.jpg";
                       {| med_url := None; med_media_url := None;
                          med_video_info := None |};
                       picture "https://t.co/abd" "y.jpg"] |};
     in_reply_to_status_id := None; in_reply_to_screen_name := None;
     in_reply_to_user_id := None |}.

Definition picture_files : gset str :=
  {[ lit "archive/data/tweets_media/5-x.jpg";
     lit "archive/data/tweets_media/5-y.jpg" ]}.

Definition with_pictures : state := initial_state picture_files.


(** An old reply: it names the status it replies to, but not the account. *)
Definition old_reply : tweet_obj :=
  {| created_at := Some Examples.timestamp;
     full_text := Some (lit "@bob hi");
     id_str := Some (lit "6");
     tw_entities := None; tw_extended_entities := None;
     in_reply_to_status_id := Some (lit "41");
     in_reply_to_screen_name := None;
     in_reply_to_user_id := None |}.

(** Two files of tweets. *)
Definition two_tweet_files : list (list tweet_json) :=
  [[Bare (Examples.plain_tweet (lit "1") (lit "one"));
    Wrapped (Examples.plain_tweet (lit "2") (lit "two"))];
   [];
   [Bare (Examples.plain_tweet (lit "3") (lit "three"))]].

(** A message whose text runs over two lines. *)
Definition two_lines : str := lit "first line" ++ [10%N] ++ lit " second  line".

(** A message that lists no media: its [mediaUrls] are empty. *)
Definition two_lines_message : message_create :=
  {| mc_id := Some (lit "77"); mc_senderId := Some (lit "1");
     mc_recipientId := Some (lit "2"); mc_text := Some two_lines;
     mc_createdAt := Some time1;
     mc_urls := Some []; mc_mediaUrls := Some [] |}.

Definition two_lines_archive : Archive :=
  {| tweet_files := []; following_json := []; follower_json := [];
     dms_json :=
       [Examples.conversation (lit "1-2") [MessageCreate two_lines_message]];
     group_dms_json := [] |}.

End More.
(** * Properties *)

(** ** The [result] monad and [for_each] *)

Lemma bind_Ok {A B} (m : result A) (f : A -> result B) (b : B) :
  m ≫= f = Ok b -> exists a, m = Ok a /\ f a = Ok b.
Proof. destruct m as [a|e]; simpl; [eauto | discriminate]. Qed.

Lemma bind_Raise {A B} (m : result A) (f : A -> result B) (e : exn) :
  m = Raise e -> m ≫= f = Raise e.
Proof. by intros ->. Qed.

(** Splits a hypothesis [H : x ← m; k = Ok b] into [Ha : m = Ok a] and
    [H : k a = Ok b], without unfolding anything. *)
Ltac inv_bind_as H a Ha :=
  cbv beta iota in H;
  lazymatch type of H with
  | mbind ?f ?m = Ok ?b =>
      destruct m as [a|?] eqn:Ha;
      [ change (f a = Ok b) in H; cbv beta iota in H
      | discriminate H ]
  end.

Tactic Notation "inv_bind" hyp(H) "as" ident(a) ident(Ha) :=
  inv_bind_as H a Ha.

Tactic Notation "inv_bind" hyp(H) "as" "tuple" simple_intropattern(p)
    ident(Ha) :=
  let x := fresh "x" in inv_bind_as H x Ha; destruct x as p.

Tactic Notation "inv_bind" hyp(H) :=
  let x := fresh "x" in let Hx := fresh "H" x in inv_bind_as H x Hx.

Lemma getitem_Ok {A} (o : option A) (a : A) : getitem o = Ok a -> o = Some a.
Proof. destruct o; simpl; congruence. Qed.

Lemma index_Ok {A} (l : list A) (i : nat) (a : A) :
  index l i = Ok a -> l !! i = Some a.
Proof. unfold index. destruct (l !! i); congruence. Qed.

Lemma for_each_invariant {A S} (P : S -> Prop) (body : A -> S -> result S)
    (xs : list A) (st st' : S) :
  (forall x s s', x ∈ xs -> P s -> body x s = Ok s' -> P s') ->
  P st -> for_each body xs st = Ok st' -> P st'.
Proof.
  revert st. induction xs as [|x xs IH]; intros st Hstep HP H; simpl in H.
  - by inversion H; subst.
  - inv_bind H as s1 Hs1. apply (IH s1); [| |done].
    + intros y s s' Hy. apply Hstep. by right.
    + eapply Hstep; [left|done|done].
Qed.

Lemma for_each_app {A S} (body : A -> S -> result S) (xs ys : list A) st :
  for_each body (xs ++ ys) st = for_each body xs st ≫= for_each body ys.
Proof.
  revert st. induction xs as [|x xs IH]; intros st; simpl; [done|].
  destruct (body x st); simpl; [apply IH|done].
Qed.

(** A loop whose body raises on one of its elements, whatever the state,
    raises. *)
Lemma for_each_raises {A S} (body : A -> S -> result S) (xs : list A)
    (x : A) (st : S) :
  x ∈ xs -> (forall s, exists e, body x s = Raise e) ->
  exists e, for_each body xs st = Raise e.
Proof.
  intros Hx Hraise. revert st.
  induction xs as [|y xs IH]; intros st; [by apply not_elem_of_nil in Hx|].
  simpl. apply elem_of_cons in Hx as [<-|Hx].
  - destruct (Hraise st) as [e ->]. by exists e.
  - destruct (body y st) as [s|e]; simpl; [by apply IH | by exists e].
Qed.

(** The same, when the body can raise nothing but [e]. *)
Lemma for_each_raises_only {A S} (body : A -> S -> result S) (xs : list A)
    (x : A) (e : exn) (st : S) :
  x ∈ xs -> (forall s, body x s = Raise e) ->
  (forall y s e', body y s = Raise e' -> e' = e) ->
  for_each body xs st = Raise e.
Proof.
  intros Hx Hraise Honly. revert st.
  induction xs as [|y xs IH]; intros st; [by apply not_elem_of_nil in Hx|].
  simpl. apply elem_of_cons in Hx as [<-|Hx].
  - by rewrite Hraise.
  - destruct (body y st) as [s|e'] eqn:Hy; simpl; [by apply IH|].
    by rewrite (Honly _ _ _ Hy).
Qed.

(** ** Python strings *)

Lemma split_nil (s : str) : Py.split s = [] <-> blank s.
Proof.
  unfold blank. induction s as [|c s IH]; simpl.
  - split; [constructor|done].
  - destruct (Py.isspace c) eqn:Hc.
    + rewrite IH. split; [by constructor | by inversion 1].
    + split.
      * destruct (Py.starts_nonspace s); [destruct (Py.split s)|]; done.
      * inversion 1; congruence.
Qed.

Lemma index_nil {A} (i : nat) : index (@nil A) i = Raise IndexError.
Proof. done. Qed.

Lemma index_lt {A} (l : list A) (i : nat) :
  i < length l -> exists a, index l i = Ok a.
Proof.
  intros Hi. unfold index.
  destruct (lookup_lt_is_Some_2 l i Hi) as [a ->]. by exists a.
Qed.


Lemma startswith_app (w post : str) : Py.startswith w (w ++ post) = true.
Proof. induction w as [|c w IH]; simpl; [done|]. by rewrite N.eqb_refl. Qed.

Lemma startswith_prefix (p s : str) :
  Py.startswith p s = true <-> exists rest, s = p ++ rest.
Proof.
  split.
  - revert s. induction p as [|a p IH]; intros s H; [by exists s|].
    destruct s as [|b s]; [done|]. simpl in H.
    apply andb_true_iff in H as [->%N.eqb_eq Hp].
    destruct (IH s Hp) as [rest ->]. by exists rest.
  - intros [rest ->]. apply startswith_app.
Qed.

Lemma endswith_last (c : char) (s : str) :
  Py.endswith [c] s = true <-> last s = Some c.
Proof.
  unfold Py.endswith. rewrite startswith_prefix.
  induction s as [|x s _] using rev_ind.
  - split; [by intros [rest ?]|done].
  - rewrite rev_app_distr, last_snoc. simpl. split.
    + by intros [rest [= ->]].
    + intros [= ->]. by eexists.
Qed.

(** A substring is found. *)
Lemma find_from_substring (w pre post : str) (k : nat) :
  exists i, Py.find_from w (pre ++ w ++ post) k = Some i.
Proof.
  revert k. induction pre as [|c pre IH]; intros k.
  - destruct (w ++ post) eqn:E; simpl; rewrite <- ?E;
      rewrite startswith_app; by eexists.
  - simpl. destruct (Py.startswith w (c :: pre ++ w ++ post));
      [by eexists|apply IH].
Qed.

(** The words of a string are substrings of it, and a string that starts
    with a code point that is not a space starts with its first word. *)
Lemma split_substring (s : str) :
  (forall w, w ∈ Py.split s -> exists pre post, s = pre ++ w ++ post)
  /\ (Py.starts_nonspace s = true ->
      exists w ws rest, Py.split s = w :: ws /\ s = w ++ rest).
Proof.
  induction s as [|c s [IHwords IHfirst]]; simpl.
  - split; [by intros w ?%not_elem_of_nil|done].
  - destruct (Py.isspace c) eqn:Hc; simpl.
    + split; [|done]. intros w Hw.
      destruct (IHwords w Hw) as (pre & post & ->). by exists (c :: pre), post.
    + destruct (Py.starts_nonspace s) eqn:Hs.
      * destruct (IHfirst eq_refl) as (w0 & ws & rest & Hsplit & Hrest).
        rewrite Hsplit. split.
        -- intros w [->|Hw]%elem_of_cons.
           ++ exists [], rest. simpl. by rewrite Hrest.
           ++ destruct (IHwords w) as (pre & post & ->);
                [rewrite Hsplit; by right|]. by exists (c :: pre), post.
        -- intros _. exists (c :: w0), ws, rest. split; [done|].
           simpl. by rewrite Hrest.
      * split.
        -- intros w [->|Hw]%elem_of_cons; [by exists [], s|].
           destruct (IHwords w Hw) as (pre & post & ->).
           by exists (c :: pre), post.
        -- intros _. by exists [c], (Py.split s), s.
Qed.

Lemma find_from_word (text w : str) :
  w ∈ Py.split text -> exists i, Py.find_from w text 0 = Some i.
Proof.
  intros Hw. destruct (proj1 (split_substring text) w Hw) as (pre & post & ->).
  apply find_from_substring.
Qed.

Example split_example :
  Py.split (lit "  RT @alice:  hello world ") =
  [lit "RT"; lit "@alice:"; lit "hello"; lit "world"].
Proof. reflexivity. Qed.

Example split_on_example :
  Py.split_on 45%N (lit "12-34") = [lit "12"; lit "34"]
  /\ Py.split_on 45%N (lit "1234") = [lit "1234"]
  /\ Py.split_on 45%N (lit "-") = [[]; []].
Proof. repeat split; reflexivity. Qed.

Example replace_example :
  Py.replace (lit "aXXbXXX") (lit "XX") (lit "-") = lit "a-b-X"
  /\ Py.replace (lit "abc") [] (lit "-") = lit "-a-b-c-".
Proof. split; reflexivity. Qed.

Example splitlines_example :
  Py.splitlines [97; 13; 10; 10; 98; 10]%N = [[97]; []; [98]]%N.
Proof. reflexivity. Qed.

Example int_example :
  Py.int (lit " -1 ") = Some (-1)%Z /\ Py.int (lit "320000") = Some 320000%Z
  /\ Py.int (lit "1_000") = Some 1000%Z /\ Py.int (lit "1_") = None
  /\ Py.int (lit "") = None.
Proof. repeat split; reflexivity. Qed.

Example format_example :
  format (lit "https://twitter.com/i/user/{}") [([], lit "999")]
  = Ok (lit "https://twitter.com/i/user/999").
Proof. reflexivity. Qed.

Example path_example :
  Path.join (lit "out/media") (lit "1-a.jpg") = lit "out/media/1-a.jpg"
  /\ Path.basename (lit "http://pbs.twimg.com/media/a.jpg") = lit "a.jpg"
  /\ Path.dirname (lit "out/tweets-html/2020/x.html") = lit "out/tweets-html/2020"
  /\ Path.dirname (lit "/x") = lit "/"
  /\ Path.basename (lit "a/") = [].
Proof. repeat split; reflexivity. Qed.

(** ** The templates *)

Lemma user_id_url_eq (id : str) :
  user_id_url id = Ok (lit "https://twitter.com/i/user/" ++ id).
Proof.
  transitivity (Ok (lit "https://twitter.com/i/user/" ++ id ++ []));
    [reflexivity | by rewrite app_nil_r].
Qed.

Lemma TWEET_URL_format (username tweet_id_str : str) :
  format TWEET_URL
    [(lit "username", username); (lit "tweet_id_str", tweet_id_str)]
  = Ok (lit "https://twitter.com/" ++ username ++ lit "/status/"
        ++ tweet_id_str).
Proof.
  transitivity (Ok (lit "https://twitter.com/" ++ username ++ lit "/status/"
                    ++ tweet_id_str ++ []));
    [reflexivity | by rewrite app_nil_r].
Qed.

Lemma REPLAY_TO_TWEET_format (name id : str) :
  format REPLAY_TO_TWEET
    [(lit "in_reply_to_screen_name", name);
     (lit "in_reply_to_status_id", id)]
  = Ok (lit "https://twitter.com/" ++ name ++ lit "/status/" ++ id).
Proof.
  transitivity (Ok (lit "https://twitter.com/" ++ name ++ lit "/status/"
                    ++ id ++ []));
    [reflexivity | by rewrite app_nil_r].
Qed.

Lemma BEST_QUALITY_URL_format (original_filename : str) :
  format BEST_QUALITY_URL [(lit "original_filename", original_filename)]
  = Ok (lit "https://pbs.twimg.com/media/" ++ original_filename
        ++ lit ":orig").
Proof. reflexivity. Qed.

(** ** The anatomy of [_convert_tweet] *)

(** The steps of the conversion are reasoned about through their lemmas. *)
#[local] Arguments format : simpl never.
#[local] Arguments index : simpl never.
#[local] Arguments Py.split : simpl never.
#[local] Arguments join_words : simpl never.
#[local] Arguments retweet_header : simpl never.
#[local] Arguments backfill_links : simpl never.
#[local] Arguments expand_links : simpl never.
#[local] Arguments reply_header : simpl never.
#[local] Arguments attach_media : simpl never.
#[local] Arguments discover_reply_target : simpl never.
#[local] Arguments discover_mentions : simpl never.

Section Convert.

Variable X : Externals.
Variable paths : PathConfig.
Variable owner : str.

(** A conversion that returns went through every step of the function. *)
Lemma _convert_tweet_Ok (tweet : tweet_json) (st st' : state) (t : Tweet) :
  _convert_tweet X paths owner tweet st = Ok (t, st') ->
  exists timestamp_str text tweet_id_str year ty0 rt body0 tweet' ty names
         reply_url body1 body2 attached st1 st2,
    created_at (unwrap tweet) = Some timestamp_str
    /\ full_text (unwrap tweet) = Some text
    /\ id_str (unwrap tweet) = Some tweet_id_str
    /\ index (Py.split timestamp_str) 5 = Ok year
    /\ retweet_header text (join_words (Py.split text)) = Ok (ty0, rt, body0)
    /\ backfill_links X text (unwrap tweet) = Ok tweet'
    /\ reply_header owner tweet' ty0 (expand_links tweet' body0)
       = Ok (ty, names, reply_url, body1)
    /\ attach_media X paths tweet' tweet_id_str body1 st
       = Ok (body2, attached, st1)
    /\ discover_reply_target tweet' st1 = Ok st2
    /\ discover_mentions tweet' st2 = Ok st'
    /\ t = {| tweet_year := year; tweet_type := ty; retweeted_from := rt;
              replied_to_names := names; replying_to_tweet := reply_url;
              tweet_data := body2; tweeted_at := timestamp_str;
              tweet_url := lit "https://twitter.com/" ++ owner
                           ++ lit "/status/" ++ tweet_id_str;
              tweets_attached_media := attached |}.
Proof.
  unfold _convert_tweet. intros H.
  inv_bind H as timestamp_str Hts. inv_bind H as text Htext.
  inv_bind H as tweet_id_str Hid. inv_bind H as year Hyear.
  inv_bind H as tuple [[ty0 rt] body0] Hrt. inv_bind H as tweet' Hbackfill.
  inv_bind H as tuple [[[ty names] reply_url] body1] Hreply.
  inv_bind H as tuple [[body2 attached] st1] Hmedia.
  rewrite TWEET_URL_format in H.
  inv_bind H as tweet_url Hurl. inversion Hurl; subst tweet_url; clear Hurl.
  inv_bind H as st2 Hst2. inv_bind H as st3 Hst3.
  inversion H; subst; clear H.
  apply getitem_Ok in Hts, Htext, Hid.
  by repeat eexists.
Qed.

End Convert.


(** ** The batches of [_get_twitter_users] *)

(** The loop over the batches does not run out of fuel: every batch takes
    at least one id, so that any fuel from the number of ids on gives the
    same answer. *)
Lemma get_twitter_users_loop_fuel (X : Externals) (fuel fuel' : nat)
    (guest_token : str) (retrieved : list (str * api_user))
    (user_ids : list str) :
  length user_ids <= fuel -> length user_ids <= fuel' ->
  get_twitter_users_loop X fuel guest_token retrieved user_ids
  = get_twitter_users_loop X fuel' guest_token retrieved user_ids.
Proof.
  revert fuel' retrieved user_ids.
  induction fuel as [|fuel IH]; intros fuel' retrieved user_ids Hfuel Hfuel'.
  - destruct user_ids; [by destruct fuel'|simpl in Hfuel; lia].
  - destruct user_ids as [|id user_ids]; [by destruct fuel'|].
    destruct fuel' as [|fuel']; [simpl in Hfuel'; lia|].
    cbn [get_twitter_users_loop].
    destruct (users_lookup X guest_token _) as [response|e]; [|done].
    cbn [mbind result_bind].
    destruct (for_each _ response retrieved) as [retrieved'|e]; [|done].
    cbn [mbind result_bind].
    apply IH; rewrite length_drop; simpl in *; lia.
Qed.

(** Without ids there is no request, and with at most 100 ids there is
    one, for all of them. *)
Lemma _get_twitter_users_one_batch (X : Externals) (guest_token : str)
    (user_ids : list str) :
  0 < length user_ids <= 100 ->
  _get_twitter_users X guest_token user_ids
  = response_json ← users_lookup X guest_token user_ids;
    for_each (fun user retrieved =>
                id ← getitem (api_id_str user);
                Ok (dict_set id user retrieved))
      response_json [].
Proof.
  intros Hlen. unfold _get_twitter_users.
  destruct user_ids as [|id user_ids]; [simpl in Hlen; lia|].
  cbn [length get_twitter_users_loop].
  rewrite take_ge, drop_ge by (simpl in *; lia).
  destruct (users_lookup X guest_token _) as [response|e]; [|done].
  cbn [mbind result_bind].
  destruct (for_each _ response _) as [retrieved|e]; [|done].
  cbn [mbind result_bind]. by destruct (length user_ids).
Qed.
(** ** The permalink (C6) *)

(** C6, as the code has it: whatever the classification of a post, its
    permalink is the template
    [https://twitter.com/{username}/status/{tweet_id_str}] of [TWEET_URL]
    filled with the handle of the owner of the archive and the id of the
    post; the template has a [/status/] segment, which the template of the
    claim lacks. *)
Theorem permalink_is_TWEET_URL (X : Externals) (paths : PathConfig)
    (owner : str) (tweet : tweet_json) (st st' : state) (t : Tweet) :
  _convert_tweet X paths owner tweet st = Ok (t, st') ->
  exists post_id,
    id_str (unwrap tweet) = Some post_id
    /\ format TWEET_URL
         [(lit "username", owner); (lit "tweet_id_str", post_id)]
       = Ok (tweet_url t)
    /\ tweet_url t
       = lit "https://twitter.com/" ++ owner ++ lit "/status/" ++ post_id.
Proof.
  intros H. apply _convert_tweet_Ok in H.
  destruct H as (ts & text & id & year & ty0 & rt & body0 & tweet' & ty
                 & names & reply_url & body1 & body2 & attached & st1 & st2
                 & _ & _ & Hid & _ & _ & _ & _ & _ & _ & _ & ->).
  exists id. by rewrite TWEET_URL_format.
Qed.

Lemma permalink_is_TWEET_URL_witness :
  Examples.convert Examples.hello_tweet
  = Ok (Examples.hello_post, initial_state ∅)
  /\ exists post_id,
       id_str Examples.hello_tweet = Some post_id
       /\ format TWEET_URL
            [(lit "username", lit "alice"); (lit "tweet_id_str", post_id)]
          = Ok (tweet_url Examples.hello_post)
       /\ tweet_url Examples.hello_post
          = lit "https://twitter.com/" ++ lit "alice" ++ lit "/status/"
            ++ post_id.
Proof.
  assert (H : Examples.convert Examples.hello_tweet
              = Ok (Examples.hello_post, initial_state ∅))
    by (vm_compute; reflexivity).
  split; [exact H|].
  exact (permalink_is_TWEET_URL _ _ _ _ _ _ _ H).
Defined.

(** C6 as it is stated fails: the permalink of the post with id [1] of the
    archive of [alice] is not the claimed template filled with [alice] and
    [1]. *)
Lemma permalink_is_not_the_claimed_template :
  exists t st',
    Examples.convert Examples.hello_tweet = Ok (t, st')
    /\ format spec_permalink_template
         [(lit "owner_handle", lit "alice"); (lit "post_id", lit "1")]
       = Ok (lit "https://twitter.com/alice/1")
    /\ tweet_url t = lit "https://twitter.com/alice/status/1"
    /\ tweet_url t <> lit "https://twitter.com/alice/1".
Proof.
  exists Examples.hello_post, (initial_state ∅).
  split; [vm_compute; reflexivity|].
  split; [vm_compute; reflexivity|].
  split; [reflexivity|]. vm_compute. discriminate.
Qed.

(** ** A body without a word (C9) *)

Lemma retweet_header_blank (text body : str) :
  blank text -> retweet_header text body = Raise IndexError.
Proof.
  intros Hblank. apply split_nil in Hblank.
  unfold retweet_header. by rewrite Hblank.
Qed.

Lemma _get_tweets_raises (X : Externals) (paths : PathConfig) (owner : str)
    (tweet_files : list (list tweet_json)) (file : list tweet_json)
    (tweet : tweet_json) (st : state) :
  file ∈ tweet_files -> tweet ∈ file ->
  (forall s, exists e, _convert_tweet X paths owner tweet s = Raise e) ->
  exists e, _get_tweets X paths owner tweet_files st = Raise e.
Proof.
  intros Hfile Htweet Hraise. unfold _get_tweets.
  apply (for_each_raises _ _ file); [done|].
  intros acc. apply (for_each_raises _ _ tweet); [done|].
  intros [tweets s]. destruct (Hraise s) as [e He].
  exists e. by rewrite He.
Qed.

(** C9: a post whose timestamp has its six fields and whose body is empty
    or holds whitespace only is not converted: the conversion raises
    [IndexError] when it looks at the first word of the body, and a run over
    an archive that holds such a post raises instead of returning. *)
Theorem blank_body_raises_IndexError (X : Externals) (paths : PathConfig)
    (owner : str) (tweet : tweet_json) (timestamp_str text id : str) :
  created_at (unwrap tweet) = Some timestamp_str ->
  6 <= length (Py.split timestamp_str) ->
  full_text (unwrap tweet) = Some text ->
  blank text ->
  id_str (unwrap tweet) = Some id ->
  (forall st, _convert_tweet X paths owner tweet st = Raise IndexError)
  /\ (forall a fs file,
        file ∈ tweet_files a -> tweet ∈ file ->
        exists e, TwitterDataParser_init X paths owner a fs = Raise e).
Proof.
  intros Hts Hfields Htext Hblank Hid.
  assert (Hconv : forall st,
             _convert_tweet X paths owner tweet st = Raise IndexError).
  { intros st. unfold _convert_tweet. rewrite Hts, Htext, Hid. simpl.
    destruct (index_lt (Py.split timestamp_str) 5) as [year ->]; [lia|].
    simpl. by rewrite retweet_header_blank. }
  split; [done|].
  intros a fs file Hfile Htweet. unfold TwitterDataParser_init.
  destruct (_get_tweets_raises X paths owner (tweet_files a) file tweet
              (initial_state fs) Hfile Htweet) as [e He].
  { intros s. exists IndexError. apply Hconv. }
  exists e. by rewrite He.
Qed.

Lemma blank_body_raises_IndexError_witness :
  (created_at Examples.blank_tweet = Some Examples.timestamp
   /\ 6 <= length (Py.split Examples.timestamp)
   /\ full_text Examples.blank_tweet = Some (lit "   ")
   /\ blank (lit "   ")
   /\ id_str Examples.blank_tweet = Some (lit "2"))
  /\ Examples.convert Examples.blank_tweet = Raise IndexError
  /\ exists e, Examples.run Examples.blank_archive = Raise e.
Proof.
  assert (Hblank : blank (lit "   ")) by (repeat constructor).
  assert (Hfields : 6 <= length (Py.split Examples.timestamp))
    by (vm_compute; lia).
  pose proof (blank_body_raises_IndexError Model.env Model.paths (lit "alice")
                (Bare Examples.blank_tweet) Examples.timestamp (lit "   ")
                (lit "2") eq_refl Hfields eq_refl Hblank eq_refl)
    as [Hconv Hrun].
  split; [by repeat split|].
  split; [apply Hconv|].
  apply (Hrun Examples.blank_archive ∅ [Bare Examples.blank_tweet]).
  - unfold Examples.blank_archive; simpl. set_solver.
  - set_solver.
Defined.

(** ** The id of a pairwise conversation (C10) *)

Lemma split_on_length (sep : char) (s : str) :
  length (Py.split_on sep s) = S (length (filter (fun c => c = sep) s)).
Proof.
  induction s as [|c s IH]; [done|]. simpl.
  destruct (N.eqb_spec c sep) as [->|Hne].
  - rewrite filter_cons_True by done. simpl. by rewrite IH.
  - rewrite filter_cons_False by done.
    destruct (Py.split_on sep s); simpl in *; [lia|done].
Qed.

Lemma unpack_pair_Ok (parts : list str) :
  length parts = 2 -> exists a b, parts = [a; b] /\ unpack_pair parts = Ok (a, b).
Proof.
  destruct parts as [|a [|b [|c parts]]]; try done. intros _. by exists a, b.
Qed.

Lemma unpack_pair_Raise (parts : list str) :
  length parts <> 2 -> unpack_pair parts = Raise ValueError.
Proof. by destruct parts as [|a [|b [|c parts]]]. Qed.

Lemma dm_user_ids_step_raises_only (conversation : conversation_json)
    (ids : gset str) (e : exn) :
  dm_user_ids_step conversation ids = Raise e -> e = ValueError.
Proof.
  unfold dm_user_ids_step.
  destruct (dmConversation conversation) as [dc|]; [|done].
  destruct (conversationId dc) as [cid|]; [|done].
  destruct (Py.split_on 45 cid) as [|a [|b [|c parts]]]; simpl; congruence.
Qed.

Lemma dm_user_ids_step_malformed (conversation : conversation_json)
    (dc : dm_conversation) (cid : str) (ids : gset str) :
  dmConversation conversation = Some dc -> conversationId dc = Some cid ->
  hyphens cid <> 1 ->
  dm_user_ids_step conversation ids = Raise ValueError.
Proof.
  intros Hdc Hcid Hcount. unfold dm_user_ids_step. rewrite Hdc, Hcid.
  rewrite unpack_pair_Raise; [done|].
  rewrite split_on_length. unfold hyphens in Hcount. lia.
Qed.

(** C10: a pairwise conversation whose id has no hyphen, or more than one,
    makes the collection of the ids raise [ValueError]; nothing handles it,
    so that the run raises instead of returning, and raises this very
    exception once the tweets are converted. *)
Theorem malformed_conversation_id_raises_ValueError (X : Externals)
    (dms : list conversation_json) (conversation : conversation_json)
    (dc : dm_conversation) (cid : str) :
  conversation ∈ dms ->
  dmConversation conversation = Some dc ->
  conversationId dc = Some cid ->
  hyphens cid <> 1 ->
  _collect_user_ids_from_direct_messages X dms = Raise ValueError
  /\ (forall paths owner a fs,
        dms_json a = dms ->
        (exists e, TwitterDataParser_init X paths owner a fs = Raise e)
        /\ (forall converted,
              _get_tweets X paths owner (tweet_files a) (initial_state fs)
              = Ok converted ->
              TwitterDataParser_init X paths owner a fs = Raise ValueError)).
Proof.
  intros Hin Hdc Hcid Hcount.
  assert (Hcollect :
            _collect_user_ids_from_direct_messages X dms = Raise ValueError).
  { unfold _collect_user_ids_from_direct_messages.
    rewrite (for_each_raises_only _ dms conversation ValueError); [done|done| |].
    - intros ids. by eapply dm_user_ids_step_malformed.
    - intros y ids e. apply dm_user_ids_step_raises_only. }
  split; [done|].
  intros paths owner a fs Hdms.
  assert (Hbulk : forall st,
             _bulk_look_up_for_user_handles X a st = Raise ValueError).
  { intros st. unfold _bulk_look_up_for_user_handles, collected_user_ids.
    by rewrite Hdms, Hcollect. }
  assert (Hrun : forall converted,
             _get_tweets X paths owner (tweet_files a) (initial_state fs)
             = Ok converted ->
             TwitterDataParser_init X paths owner a fs = Raise ValueError).
  { intros [tweets st] Htweets. unfold TwitterDataParser_init.
    rewrite Htweets. simpl. by rewrite Hbulk. }
  split; [|done].
  destruct (_get_tweets X paths owner (tweet_files a) (initial_state fs))
    as [converted|e] eqn:Htweets.
  - exists ValueError. by apply (Hrun converted).
  - exists e. unfold TwitterDataParser_init. by rewrite Htweets.
Qed.

Lemma malformed_conversation_id_raises_ValueError_witness :
  (Examples.conversation (lit "1234") []
     ∈ dms_json Examples.unpaired_archive
   /\ hyphens (lit "1234") <> 1)
  /\ _collect_user_ids_from_direct_messages Model.env
       (dms_json Examples.unpaired_archive) = Raise ValueError
  /\ Examples.run Examples.unpaired_archive = Raise ValueError.
Proof.
  assert (Hin : Examples.conversation (lit "1234") []
                  ∈ dms_json Examples.unpaired_archive)
    by (simpl; set_solver).
  assert (Hcount : hyphens (lit "1234") <> 1) by (vm_compute; lia).
  pose proof (malformed_conversation_id_raises_ValueError Model.env
                (dms_json Examples.unpaired_archive)
                (Examples.conversation (lit "1234") []) _ (lit "1234")
                Hin eq_refl eq_refl Hcount) as [Hcollect Hrun].
  split; [done|]. split; [exact Hcollect|].
  destruct (Hrun Model.paths (lit "alice") Examples.unpaired_archive ∅ eq_refl)
    as [_ Hraise].
  apply (Hraise ([Examples.hello_post], initial_state ∅)).
  vm_compute. reflexivity.
Defined.

(** Conversely, when every id has exactly one hyphen the collection
    returns. *)
Lemma well_formed_conversation_ids_collect (X : Externals)
    (dms : list conversation_json) :
  (forall conversation dc cid,
      conversation ∈ dms -> dmConversation conversation = Some dc ->
      conversationId dc = Some cid -> hyphens cid = 1) ->
  exists ids, _collect_user_ids_from_direct_messages X dms = Ok ids.
Proof.
  intros Hwf. unfold _collect_user_ids_from_direct_messages.
  assert (Hloop : forall acc, exists s, for_each dm_user_ids_step dms acc = Ok s).
  { induction dms as [|c dms' IH]; intros acc; simpl; [by eexists|].
    assert (Hstep : exists s, dm_user_ids_step c acc = Ok s).
    { unfold dm_user_ids_step.
      destruct (dmConversation c) as [dc|] eqn:Hdc; [|by eexists].
      destruct (conversationId dc) as [cid|] eqn:Hcid; [|by eexists].
      destruct (unpack_pair_Ok (Py.split_on 45 cid)) as (a & b & _ & ->).
      - rewrite split_on_length.
        specialize (Hwf c dc cid). unfold hyphens in Hwf.
        rewrite Hwf; [done|by left|done|done].
      - simpl. by eexists. }
    destruct Hstep as [s ->]. simpl. apply IH.
    intros conversation dc cid Hin. apply Hwf. by right. }
  destruct (Hloop ∅) as [s ->]. simpl. by eexists.
Qed.

(** ** Ids that the registry does not resolve (C8) *)

Lemma for_each_append {A B} (body : A -> list B -> result (list B))
    (f : A -> B) (xs : list A) (acc : list B) :
  (forall x acc, body x acc = Ok (acc ++ [f x])) ->
  for_each body xs acc = Ok (acc ++ map f xs).
Proof.
  intros Hbody. revert acc. induction xs as [|x xs IH]; intros acc; simpl.
  - by rewrite app_nil_r.
  - rewrite Hbody. simpl. rewrite IH. by rewrite <- app_assoc.
Qed.

Lemma follow_edges_eq (st : state) (ids : list str) :
  for_each (follow_edge st) ids [] = Ok (map (edge_of st) ids).
Proof.
  apply (for_each_append _ (edge_of st)). intros id acc.
  unfold follow_edge. by rewrite user_id_url_eq.
Qed.

Lemma message_handle_eq (st : state) (id : str) :
  message_handle st id = Ok (handle_or st id (profile_url id)).
Proof.
  unfold message_handle, handle_or.
  destruct (users st !! id); [done|apply user_id_url_eq].
Qed.

Lemma handle_or_unresolved (st : state) (id fallback : str) :
  users st !! id = None -> handle_or st id fallback = fallback.
Proof. unfold handle_or. by intros ->. Qed.

Section DmMedia.

Variable X : Externals.
Variable paths : PathConfig.

Lemma fallback_dm_file_users expanded acc p :
  users (fallback_dm_file paths expanded acc p).2 = users acc.2
  /\ registrations (fallback_dm_file paths expanded acc p).2
     = registrations acc.2.
Proof. destruct acc as [b s]. simpl. by destruct (isfile s _). Qed.

(** Resolving the media of a message copies files and logs; the registry
    is left as it is. *)
Lemma attach_dm_media_users media_dir image_markdown missing mc body st
    body' st' :
  attach_dm_media X paths media_dir image_markdown missing mc body st
  = Ok (body', st') ->
  users st' = users st /\ registrations st' = registrations st.
Proof.
  unfold attach_dm_media. intros H.
  destruct (mc_mediaUrls mc) as [[|media_url0 [|]]|];
    try (by inversion H).
  destruct (mc_urls mc) as [urls|]; [|by inversion H].
  inv_bind H as first Hfirst. inv_bind H as expanded Hexp.
  inv_bind H as message_id Hid.
  destruct (isfile st _).
  - inversion H. by destruct (isfile st _).
  - destruct (bool_decide _); [|by inversion H].
    inversion H as [Hfold]. clear H.
    match type of Hfold with
    | ?l = _ => assert (Hst' : st' = l.2) by (by rewrite Hfold)
    end.
    rewrite Hst'. clear Hfold Hst'.
    set (found := glob X (files st) _). clearbody found.
    change (users st) with (users (body, st).2).
    change (registrations st) with (registrations (body, st).2).
    generalize (body, st).
    induction found as [|p ps IH]; intros acc; [done|].
    simpl. destruct (IH (fallback_dm_file paths expanded acc p)) as [-> ->].
    apply fallback_dm_file_users.
Qed.

(** A message of a pairwise conversation that has its four fields becomes
    one [DirectMessage], whose two handles are resolved in the registry as
    it is when the message is reached. *)
Lemma direct_message_step_handles mc from_id to_id text created dms st acc' :
  mc_senderId mc = Some from_id -> mc_recipientId mc = Some to_id ->
  mc_text mc = Some text -> mc_createdAt mc = Some created ->
  direct_message_step X paths (MessageCreate mc) (dms, st) = Ok acc' ->
  exists dm,
    acc'.1 = dms ++ [dm]
    /\ dm_from dm = handle_or st from_id (profile_url from_id)
    /\ dm_to dm = handle_or st to_id (profile_url to_id)
    /\ users acc'.2 = users st.
Proof.
  intros Hfrom Hto Htext Hcreated H. unfold direct_message_step in H.
  rewrite Hfrom, Hto, Htext, Hcreated in H.
  inv_bind H as tuple [body st1] Hmedia.
  apply attach_dm_media_users in Hmedia as [Husers _].
  rewrite !message_handle_eq in H. simpl in H.
  inversion H; subst; clear H. eexists. split; [done|]. simpl.
  unfold handle_or. by rewrite Husers.
Qed.

(** The same for a message of a group conversation, which has a sender
    only. *)
Lemma group_message_step_handle mc from_id text created name gdms st acc' :
  mc_senderId mc = Some from_id ->
  mc_text mc = Some text -> mc_createdAt mc = Some created ->
  group_message_step X paths (MessageCreate mc) (name, gdms, st) = Ok acc' ->
  exists gdm,
    acc'.1.2 = gdms ++ [gdm]
    /\ group_dm_from gdm = handle_or st from_id (profile_url from_id)
    /\ users acc'.2 = users st.
Proof.
  intros Hfrom Htext Hcreated H. unfold group_message_step in H.
  rewrite Hfrom, Htext, Hcreated in H.
  inv_bind H as tuple [body st1] Hmedia.
  apply attach_dm_media_users in Hmedia as [Husers _].
  rewrite !message_handle_eq in H. simpl in H.
  inversion H; subst; clear H. eexists. split; [done|]. simpl.
  unfold handle_or. by rewrite Husers.
Qed.

(** The participants of a group are the members of the set of their ids,
    resolved one by one in the order of the iteration. *)
Lemma group_participants_eq (participants : gset str) (st : state) :
  group_participants X participants st
  = Ok (map (fun id => handle_or st id (profile_url id))
            (set_iter X participants)).
Proof.
  unfold group_participants.
  apply (for_each_append _ (fun id => handle_or st id (profile_url id))).
  intros id acc. by rewrite message_handle_eq.
Qed.

End DmMedia.

(** C8: an id that the registry does not hold is given the sentinel
    [UNKNOWN_HANDLE] as its handle in a follow edge, and the profile URL
    built from the id wherever a message needs a handle: as the sender or
    the recipient of a direct message, as a participant of a group and as
    the sender of a group message. *)
Theorem unresolved_id_handles (X : Externals) (paths : PathConfig)
    (st : state) (id : str) :
  users st !! id = None ->
  (forall a i,
      collect_account_ids (following_json a) !! i = Some id ->
      exists edges, _get_following_users a st = Ok edges
                    /\ edges !! i = Some (unknown_edge id))
  /\ (forall a i,
        collect_account_ids (follower_json a) !! i = Some id ->
        exists edges, _get_followers_users a st = Ok edges
                      /\ edges !! i = Some (unknown_edge id))
  /\ (forall mc from_id to_id text created dms acc',
        mc_senderId mc = Some from_id -> mc_recipientId mc = Some to_id ->
        mc_text mc = Some text -> mc_createdAt mc = Some created ->
        direct_message_step X paths (MessageCreate mc) (dms, st) = Ok acc' ->
        exists dm, acc'.1 = dms ++ [dm]
                   /\ (from_id = id -> dm_from dm = profile_url id)
                   /\ (to_id = id -> dm_to dm = profile_url id))
  /\ (forall participants i,
        set_iter X participants !! i = Some id ->
        exists handles, group_participants X participants st = Ok handles
                        /\ handles !! i = Some (profile_url id))
  /\ (forall mc text created name gdms acc',
        mc_senderId mc = Some id ->
        mc_text mc = Some text -> mc_createdAt mc = Some created ->
        group_message_step X paths (MessageCreate mc) (name, gdms, st)
        = Ok acc' ->
        exists gdm, acc'.1.2 = gdms ++ [gdm]
                    /\ group_dm_from gdm = profile_url id).
Proof.
  intros Hunknown.
  assert (Hedge : edge_of st id = unknown_edge id).
  { unfold edge_of, unknown_edge. by rewrite handle_or_unresolved. }
  repeat split.
  - intros a i Hi. eexists. split; [apply follow_edges_eq|].
    by rewrite list_lookup_fmap, Hi, <- Hedge.
  - intros a i Hi. eexists. split; [apply follow_edges_eq|].
    by rewrite list_lookup_fmap, Hi, <- Hedge.
  - intros mc from_id to_id text created dms acc' Hfrom Hto Htext Hcreated H.
    destruct (direct_message_step_handles X paths mc from_id to_id text
                created dms st acc' Hfrom Hto Htext Hcreated H)
      as (dm & Hdms & Hdm_from & Hdm_to & _).
    exists dm. split; [done|].
    split; intros ->; [rewrite Hdm_from | rewrite Hdm_to];
      by apply handle_or_unresolved.
  - intros participants i Hi. eexists.
    split; [apply group_participants_eq|].
    rewrite list_lookup_fmap, Hi. simpl. by rewrite handle_or_unresolved.
  - intros mc text created name gdms acc' Hfrom Htext Hcreated H.
    destruct (group_message_step_handle X paths mc id text created name gdms
                st acc' Hfrom Htext Hcreated H) as (gdm & Hgdms & Hgdm & _).
    exists gdm. split; [done|]. rewrite Hgdm. by apply handle_or_unresolved.
Qed.

(** The id [999] in an empty registry: the follow edge has the sentinel,
    the direct message has [https://twitter.com/i/user/999]. *)
Lemma unresolved_id_handles_witness :
  users (initial_state ∅) !! lit "999" = None
  /\ (exists edges,
        _get_following_users Examples.stranger_archive
          (initial_state ∅) = Ok edges
        /\ edges !! 0 = Some {| user_handle := Some (lit "~unknown~handle~");
                                user_profile_url :=
                                  Some (lit "https://twitter.com/i/user/999") |})
  /\ (exists dm,
        (direct_message_step Model.offline Model.paths
           (MessageCreate
              (Examples.text_message (lit "999") (lit "1") (lit "hi")))
           ([], initial_state ∅)
         ≫= fun acc => Ok acc.1) = Ok [dm]
        /\ dm_from dm = lit "https://twitter.com/i/user/999").
Proof.
  assert (Hunknown : users (initial_state ∅) !! lit "999" = None)
    by (vm_compute; reflexivity).
  destruct (unresolved_id_handles Model.offline Model.paths (initial_state ∅)
              (lit "999") Hunknown) as (Hfollowing & _ & Hdm & _ & _).
  split; [exact Hunknown|]. split.
  - apply (Hfollowing Examples.stranger_archive 0). reflexivity.
  - destruct (direct_message_step Model.offline Model.paths
                (MessageCreate
                   (Examples.text_message (lit "999") (lit "1") (lit "hi")))
                ([], initial_state ∅)) as [acc'|e] eqn:Hstep;
      [|vm_compute in Hstep; discriminate Hstep].
    destruct (Hdm (Examples.text_message (lit "999") (lit "1") (lit "hi"))
                (lit "999") (lit "1") (lit "hi")
                (lit "2022-01-27T15:58:52.744Z") [] acc'
                eq_refl eq_refl eq_refl eq_refl Hstep)
      as (dm & Hacc & Hfrom & _).
    exists dm. simpl. rewrite Hacc. split; [done|]. by apply Hfrom.
Defined.

(** The whole pipeline on that archive when the service cannot be reached:
    nothing is resolved, and nothing is raised. *)
Example stranger_archive_offline :
  exists self,
    TwitterDataParser_init Model.offline Model.paths (lit "alice")
      Examples.stranger_archive ∅ = Ok self
    /\ self_following self = [unknown_edge (lit "999")]
    /\ self_followers self = [unknown_edge (lit "999")]
    /\ self_direct_messages self
       = [ {| dm_from := lit "https://twitter.com/i/user/999";
              dm_to := lit "https://twitter.com/i/user/1";
              dm_data := lit "hi ";
              dm_at := lit "2022-01-27T15:58:52.744Z" |} ]
    /\ users (self_state self) = ∅
    /\ log (self_state self) = [ErrorFailedDownload OtherException].
Proof. eexists. split; [vm_compute; reflexivity|]. by repeat split. Qed.

(** ** The best variant of a video (C3) *)

Lemma best_variant_step_real (v : variant) (u0 : str) (b0 : Z) :
  real_variant v ->
  exists u b,
    best_variant_step v (u0, b0) = Ok (u, b)
    /\ ((b = b0 /\ u = u0 /\ forall n, bitrate_of v = Some n -> (n <= b0)%Z)
        \/ ((b0 < b)%Z /\ bitrate_of v = Some b /\ var_url v = Some u)).
Proof.
  unfold real_variant, best_variant_step, bitrate_of.
  destruct (var_bitrate v) as [raw|]; simpl.
  - intros [(n & -> & Hn) [u ->]]. simpl.
    destruct (Z.ltb_spec b0 n).
    + exists u, n. split; [done|]. by right.
    + exists u0, b0. split; [done|]. left. repeat split.
      intros m [= <-]. lia.
  - intros _. exists u0, b0. split; [done|]. left. by repeat split.
Qed.

(** The loop over the variants keeps the first variant of the greatest
    bitrate above the one it starts from. *)
Lemma best_variant_loop (variants : list variant) (u0 : str) (b0 : Z) :
  Forall real_variant variants ->
  exists u b,
    for_each best_variant_step variants (u0, b0) = Ok (u, b)
    /\ (forall v n, v ∈ variants -> bitrate_of v = Some n -> (n <= b)%Z)
    /\ ((b = b0 /\ u = u0)
        \/ ((b0 < b)%Z
            /\ exists v, v ∈ variants /\ bitrate_of v = Some b
                         /\ var_url v = Some u)).
Proof.
  intros Hreal. revert u0 b0.
  induction Hreal as [|v vs Hv _ IH]; intros u0 b0; simpl.
  - exists u0, b0. split; [done|]. split; [|by left].
    intros v n Hin. by apply not_elem_of_nil in Hin.
  - destruct (best_variant_step_real v u0 b0 Hv) as (u1 & b1 & -> & Hstep).
    simpl. destruct (IH u1 b1) as (u & b & -> & Hmax & Hsel).
    exists u, b. split; [done|].
    assert (Hb1 : (b1 <= b)%Z) by (destruct Hsel as [[-> _]|[? _]]; lia).
    split.
    + intros v' n [->|Hin]%elem_of_cons Hn; [|by eapply Hmax].
      destruct Hstep as [(-> & _ & Hle)|(_ & Hb & _)].
      * specialize (Hle n Hn). lia.
      * rewrite Hb in Hn. injection Hn as <-. lia.
    + destruct Hsel as [[-> ->]|[Hlt (v' & Hin & Hb & Hu)]].
      * destruct Hstep as [(-> & -> & _)|(Hlt & Hb & Hu)]; [by left|].
        right. split; [done|]. exists v. split; [by left|done].
      * right. split.
        { destruct Hstep as [(-> & _)|(? & _)]; lia. }
        exists v'. split; [by right|done].
Qed.

Lemma bitrate_of_real (v : variant) (n : Z) :
  real_variant v -> bitrate_of v = Some n -> (0 <= n)%Z.
Proof.
  unfold real_variant, bitrate_of. destruct (var_bitrate v); [|done].
  simpl. intros [(m & -> & Hm) _] [= <-]. done.
Qed.

(** The outcome of the loop from the sentinel [-1]: the best variant, or
    the sentinel when no variant carries a bitrate. *)
Lemma best_variant_real (variants : list variant) :
  Forall real_variant variants ->
  (exists v n u,
      best_variant variants = Ok (u, n)
      /\ v ∈ variants /\ bitrate_of v = Some n /\ var_url v = Some u
      /\ (0 <= n)%Z
      /\ forall v' n', v' ∈ variants -> bitrate_of v' = Some n' -> (n' <= n)%Z)
  \/ (best_variant variants = Ok ([], (-1)%Z)
      /\ forall v, v ∈ variants -> var_bitrate v = None).
Proof.
  intros Hreal. unfold best_variant.
  destruct (best_variant_loop variants [] (-1) Hreal)
    as (u & b & -> & Hmax & [[-> ->]|[Hlt (v & Hin & Hb & Hu)]]).
  - right. split; [done|]. intros v Hin.
    rewrite Forall_forall in Hreal. specialize (Hreal v Hin).
    specialize (Hmax v). unfold real_variant, bitrate_of in *.
    destruct (var_bitrate v) as [raw|]; [|done]. simpl in Hmax.
    destruct Hreal as [(n & Hn & Hpos) _].
    specialize (Hmax n Hin Hn). lia.
  - left. exists v, b, u. repeat split; try done. lia.
Qed.

Section Fallback.

Variable X : Externals.
Variable paths : PathConfig.

(** One matching file, once the loop over the variants has returned: the
    file is copied unless the copy exists, the markup of a video is added,
    and either the best variant is recorded or the warning is logged. *)
Lemma fallback_file_eq (tweet : tweet_obj)
    (original_url original_expanded_url : str) (media : media_entity)
    (vi : video_info) (variants : list variant)
    (archive_media_path markdown : str) (st : state) (u : str) (n : Z) :
  med_video_info media = Some vi ->
  vi_variants vi = Some variants ->
  best_variant variants = Ok (u, n) ->
  let copied :=
    Path.join (dir_output_media paths) (Path.basename archive_media_path) in
  exists markdown' st',
    fallback_file X paths tweet original_url original_expanded_url media
      archive_media_path (markdown, st) = Ok (markdown', st')
    /\ if bool_decide (n = (-1)%Z)
       then media_sources st' = media_sources st
            /\ log st'
               = log st
                 ++ [WarnNoUrlFound original_url original_expanded_url
                       archive_media_path
                       (_rel_url X copied (example_file_output_tweets paths));
                     InfoTweetJson tweet]
       else media_sources st' = media_sources st ++ [(copied, u)]
            /\ log st' = log st.
Proof.
  intros Hvi Hvariants Hbest copied.
  unfold fallback_file, save_best_quality.
  rewrite Hvi, Hvariants, Hbest. simpl.
  destruct (bool_decide (n = (-1)%Z)); simpl; eexists _, _;
    (split; [done|]); simpl;
    destruct (isfile st _); simpl; by rewrite <- ?app_assoc.
Qed.

(** C3, as the code has it: in the fallback on the files whose name starts
    with the id of the tweet, for a media entry with a list of variants
    whose bitrates are not negative, each matching file makes the loop
    select a variant of the greatest bitrate and append exactly one entry,
    the path of the copy with the URL of that variant, to [media_sources],
    without a warning; when no variant carries a bitrate it appends nothing
    and logs a warning. A bitrate of [0] is above the sentinel [-1] and is
    selected when it is the greatest; of the bitrates 0, 320000 and 180000
    it is the variant of 320000 that is selected. *)
Theorem best_bitrate_variant_is_recorded (tweet : tweet_obj)
    (original_url original_expanded_url : str) (media : media_entity)
    (vi : video_info) (variants : list variant)
    (archive_media_path markdown : str) (st : state) :
  med_video_info media = Some vi ->
  vi_variants vi = Some variants ->
  Forall real_variant variants ->
  let copied :=
    Path.join (dir_output_media paths) (Path.basename archive_media_path) in
  let step :=
    fallback_file X paths tweet original_url original_expanded_url media
      archive_media_path (markdown, st) in
  ((exists v, v ∈ variants /\ is_Some (var_bitrate v)) ->
   exists v n u markdown' st',
     v ∈ variants /\ bitrate_of v = Some n /\ var_url v = Some u
     /\ (forall v' n',
           v' ∈ variants -> bitrate_of v' = Some n' -> (n' <= n)%Z)
     /\ step = Ok (markdown', st')
     /\ media_sources st' = media_sources st ++ [(copied, u)]
     /\ log st' = log st)
  /\ ((forall v, v ∈ variants -> var_bitrate v = None) ->
      exists markdown' st' w,
        step = Ok (markdown', st')
        /\ media_sources st' = media_sources st
        /\ log st' = log st ++ [w; InfoTweetJson tweet]
        /\ w = WarnNoUrlFound original_url original_expanded_url
                 archive_media_path
                 (_rel_url X copied (example_file_output_tweets paths)))
  /\ best_variant [Examples.video_variant "0"]
     = Ok (lit "https://video.twimg.com/0.mp4", 0%Z)
  /\ best_variant Examples.three_variants
     = Ok (lit "https://video.twimg.com/320000.mp4", 320000%Z).
Proof.
  intros Hvi Hvariants Hreal copied step.
  pose proof (fun u n =>
                fallback_file_eq tweet original_url original_expanded_url
                  media vi variants archive_media_path markdown st u n
                  Hvi Hvariants) as Hstep.
  simpl in Hstep. fold copied in Hstep. fold step in Hstep.
  split; [|split; [|split; reflexivity]].
  - intros (v0 & Hin0 & Hcarries).
    destruct (best_variant_real variants Hreal)
      as [(v & n & u & Hbest & Hin & Hn & Hu & Hpos & Hmax)|[_ Hnone]].
    + destruct (Hstep u n Hbest) as (markdown' & st' & Hok & Hrec).
      rewrite bool_decide_eq_false_2 in Hrec by lia.
      exists v, n, u, markdown', st'. by destruct Hrec.
    + rewrite (Hnone v0 Hin0) in Hcarries. by destruct Hcarries.
  - intros Hnone.
    destruct (best_variant_real variants Hreal)
      as [(v & n & u & Hbest & Hin & Hn & _)|[Hbest _]].
    + unfold bitrate_of in Hn. by rewrite (Hnone v Hin) in Hn.
    + destruct (Hstep _ _ Hbest) as (markdown' & st' & Hok & Hrec).
      rewrite bool_decide_eq_true_2 in Hrec by done.
      destruct Hrec. by eexists markdown', st', _.
Qed.

End Fallback.

Lemma real_video_variant (bitrate : string) (n : Z) :
  Py.int (lit bitrate) = Some n -> (0 <= n)%Z ->
  real_variant (Examples.video_variant bitrate).
Proof. intros Hint Hn. split; [by exists n | by eexists]. Qed.

Lemma best_bitrate_variant_is_recorded_witness :
  Forall real_variant Examples.three_variants
  /\ exists markdown' st',
       fallback_file Model.env Model.paths Examples.hello_tweet
         (lit "https://t.co/v") (lit "http://pbs.twimg.com/thumb/v.jpg")
         (Examples.video Examples.three_variants)
         (lit "archive/data/tweets_media/1-v.mp4") ([], initial_state ∅)
       = Ok (markdown', st')
       /\ media_sources st'
          = [(lit "archive/twitter_parser-output/media/1-v.mp4",
              lit "https://video.twimg.com/320000.mp4")]
       /\ log st' = [].
Proof.
  assert (Hreal : Forall real_variant Examples.three_variants).
  { apply Forall_cons_2; [by apply (real_video_variant "0" 0)|].
    apply Forall_cons_2; [by apply (real_video_variant "320000" 320000)|].
    apply Forall_cons_2; [by apply (real_video_variant "180000" 180000)|].
    apply Forall_nil_2. }
  split; [exact Hreal|].
  destruct (best_bitrate_variant_is_recorded Model.env Model.paths
              Examples.hello_tweet (lit "https://t.co/v")
              (lit "http://pbs.twimg.com/thumb/v.jpg")
              (Examples.video Examples.three_variants) _
              Examples.three_variants
              (lit "archive/data/tweets_media/1-v.mp4") [] (initial_state ∅)
              eq_refl eq_refl Hreal) as [Hsome _].
  destruct Hsome as (v & n & u & markdown' & st' & Hin & Hn & Hu & Hmax
                     & Hstep & Hsources & Hlog).
  { exists (Examples.video_variant "0"). split; [by left | by eexists]. }
  exists markdown', st'. split; [exact Hstep|].
  vm_compute in Hstep. injection Hstep as <- <-. by split.
Defined.

(** The whole fallback of a media entry: one entry of [media_sources] for
    each matching file, all with the URL of the selected variant. *)
Lemma fallback_records_one_source_per_file (X : Externals)
    (paths : PathConfig) (tweet : tweet_obj)
    (original_url original_expanded_url : str) (media : media_entity)
    (vi : video_info) (variants : list variant) (found : list str)
    (markdown : str) (st : state) :
  med_video_info media = Some vi ->
  vi_variants vi = Some variants ->
  Forall real_variant variants ->
  (exists v, v ∈ variants /\ is_Some (var_bitrate v)) ->
  exists u n markdown' st',
    best_variant variants = Ok (u, n)
    /\ for_each
         (fallback_file X paths tweet original_url original_expanded_url media)
         found (markdown, st) = Ok (markdown', st')
    /\ media_sources st'
       = media_sources st
         ++ map (fun p => (Path.join (dir_output_media paths)
                             (Path.basename p), u)) found.
Proof.
  intros Hvi Hvariants Hreal Hcarries.
  destruct (best_variant_real variants Hreal)
    as [(v & n & u & Hbest & _ & _ & _ & Hpos & _)|[_ Hnone]].
  2: { destruct Hcarries as (v & Hin & Hsome).
       rewrite (Hnone v Hin) in Hsome. by destruct Hsome. }
  exists u, n. revert markdown st.
  induction found as [|p found IH]; intros markdown st.
  - exists markdown, st. by rewrite app_nil_r.
  - destruct (fallback_file_eq X paths tweet original_url
                original_expanded_url media vi variants p markdown st u n
                Hvi Hvariants Hbest) as (markdown1 & st1 & Hstep & Hsources).
    rewrite bool_decide_eq_false_2 in Hsources by lia.
    destruct Hsources as [Hsources _].
    destruct (IH markdown1 st1) as (markdown' & st' & _ & Hloop & Hall).
    exists markdown', st'. split; [done|]. cbn [for_each].
    rewrite Hstep. split; [done|].
    rewrite Hall, Hsources. simpl. by rewrite <- app_assoc.
Qed.

(** C3 as it is stated fails: for a media entry whose fallback matches two
    files of the archive, two entries are appended to [media_sources], not
    exactly one. *)
Lemma two_matching_files_record_two_sources :
  exists markdown' st',
    media_step Model.env Model.paths Examples.hello_tweet (lit "1")
      (lit "https://t.co/v") (Examples.video Examples.three_variants)
      ([], initial_state Examples.two_files) = Ok (markdown', st')
    /\ media_sources st'
       = [(lit "archive/twitter_parser-output/media/1-b.mp4",
           lit "https://video.twimg.com/320000.mp4");
          (lit "archive/twitter_parser-output/media/1-a.mp4",
           lit "https://video.twimg.com/320000.mp4")]
    /\ length (media_sources st')
       <> length (media_sources (initial_state Examples.two_files)) + 1.
Proof.
  eexists _, _. split; [vm_compute; reflexivity|].
  split; [reflexivity|]. simpl. lia.
Qed.

(** ** The ids of the lookup request (C2) *)

Lemma collect_account_ids_elem (l : list follow_json) (id : str) :
  id ∈ collect_account_ids l <-> account_ref l id.
Proof.
  unfold collect_account_ids, account_ref.
  assert (H : forall acc,
             id ∈ foldl (fun ids follow =>
                           match fj_account follow with
                           | Some (Some account_id) => ids ++ [account_id]
                           | _ => ids
                           end) acc l
             <-> id ∈ acc \/ exists f, f ∈ l /\ fj_account f = Some (Some id)).
  { induction l as [|f l IH]; intros acc; simpl.
    - split; [by left|]. intros [?|(f & Hf & _)]; [done|].
      by apply not_elem_of_nil in Hf.
    - rewrite IH. split.
      + intros [Hacc|(g & Hg & Hid)].
        * destruct (fj_account f) as [[account_id|]|] eqn:Hf;
            try by left.
          apply elem_of_app in Hacc as [?|Hid]; [by left|].
          apply list_elem_of_singleton in Hid as ->.
          right. exists f. split; [by left|done].
        * right. exists g. split; [by right|done].
      + intros [Hacc|(g & [->|Hg]%elem_of_cons & Hid)].
        * left. destruct (fj_account f) as [[account_id|]|]; try done.
          apply elem_of_app. by left.
        * left. rewrite Hid. apply elem_of_app. right. by left.
        * right. by exists g. }
  rewrite H. split; [intros [Hnil|?]; [by apply not_elem_of_nil in Hnil|done]
                    | by right].
Qed.

(** A loop that adds to a set holds, when it returns, what it started with
    and what its elements contributed. *)
Lemma for_each_union {A} (body : A -> gset str -> result (gset str))
    (contrib : A -> str -> Prop) (xs : list A) :
  (forall x acc s, x ∈ xs -> body x acc = Ok s ->
                   forall id, id ∈ s <-> id ∈ acc \/ contrib x id) ->
  forall acc s, for_each body xs acc = Ok s ->
    forall id, id ∈ s <-> id ∈ acc \/ exists x, x ∈ xs /\ contrib x id.
Proof.
  induction xs as [|x xs IH]; intros Hbody acc s H id; simpl in H.
  - injection H as <-. split; [by left|].
    intros [?|(x & Hx & _)]; [done|]. by apply not_elem_of_nil in Hx.
  - inv_bind H as s1 Hs1.
    rewrite (IH (fun y acc' s' Hy => Hbody y acc' s' (list_elem_of_further _ _ _ Hy))
               s1 s H id).
    rewrite (Hbody x acc s1 (list_elem_of_here _ _) Hs1 id).
    split.
    + intros [[?|?]|(y & Hy & ?)]; [by left| |].
      * right. exists x. split; [by left|done].
      * right. exists y. split; [by right|done].
    + intros [?|(y & [->|Hy]%elem_of_cons & ?)]; [by left; left|by left; right|].
      right. by exists y.
Qed.

Lemma add_all_elem (ids : list str) (s : gset str) (id : str) :
  id ∈ add_all ids s <-> id ∈ s \/ id ∈ ids.
Proof.
  unfold add_all. revert s. induction ids as [|x ids IH]; intros s; simpl.
  - split; [by left|]. by intros [?|?%not_elem_of_nil].
  - rewrite IH, elem_of_union, elem_of_singleton, elem_of_cons. tauto.
Qed.

Lemma set_iter_elem (X : Externals) (s : gset str) (id : str) :
  iterates_members X -> id ∈ set_iter X s <-> id ∈ s.
Proof. intros HX. rewrite (HX s). apply elem_of_elements. Qed.

Lemma set_iter_NoDup (X : Externals) (s : gset str) :
  iterates_members X -> NoDup (set_iter X s).
Proof. intros HX. rewrite (HX s). apply NoDup_elements. Qed.

Lemma participant_ids_step_elem (m : message) (acc s : gset str) :
  participant_ids_step m acc = Ok s ->
  forall id, id ∈ s <-> id ∈ acc \/ contributes m id.
Proof.
  intros H id. destruct m as [mc|jc|pj|u|]; simpl in *.
  - inv_bind H as sender Hsender. apply getitem_Ok in Hsender.
    injection H as <-. rewrite Hsender, elem_of_union, elem_of_singleton.
    split; (intros [?|Heq]; [by left|right; congruence]).
  - inv_bind H as initiating Hinit. inv_bind H as snapshot Hsnap.
    apply getitem_Ok in Hinit, Hsnap. injection H as <-.
    rewrite add_all_elem, Hinit, Hsnap, elem_of_union, elem_of_singleton.
    split.
    + intros [[?| ->]|?]; [by left|by right; left|].
      right. right. by exists snapshot.
    + intros [?|[Heq|(l & Heq & ?)]]; [by left; left| |].
      * injection Heq as ->. by left; right.
      * injection Heq as <-. by right.
  - inv_bind H as initiating Hinit. inv_bind H as added Hadded.
    apply getitem_Ok in Hinit, Hadded. injection H as <-.
    rewrite add_all_elem, Hinit, Hadded, elem_of_union, elem_of_singleton.
    split.
    + intros [[?| ->]|?]; [by left|by right; left|].
      right. right. by exists added.
    + intros [?|[Heq|(l & Heq & ?)]]; [by left; left| |].
      * injection Heq as ->. by left; right.
      * injection Heq as <-. by right.
  - injection H as <-. tauto.
  - injection H as <-. tauto.
Qed.

(** The set that [_find_group_dm_conversation_participant_ids] returns
    holds the ids that the events of the conversation contribute, and no
    other id. *)
Lemma participant_ids_elem (c : conversation_json) (s : gset str) :
  _find_group_dm_conversation_participant_ids c = Ok s ->
  forall id, id ∈ s <-> exists m, m ∈ events c /\ contributes m id.
Proof.
  unfold _find_group_dm_conversation_participant_ids, events. intros H id.
  assert (Hnone : forall P : message -> Prop,
             id ∈ (∅ : gset str) <-> exists m, m ∈ @nil message /\ P m).
  { intros P. split; [set_solver|]. intros (m & Hm & _).
    by apply not_elem_of_nil in Hm. }
  destruct (dmConversation c) as [dc|]; [|injection H as <-; apply Hnone].
  destruct (conversationId dc); [|injection H as <-; apply Hnone].
  destruct (messages dc) as [ms|]; [|injection H as <-; apply Hnone].
  simpl.
  rewrite (for_each_union participant_ids_step contributes ms
             (fun m acc s' _ => participant_ids_step_elem m acc s') ∅ s H id).
  split; [|by right]. by intros [?%not_elem_of_empty|?].
Qed.

Lemma dm_user_ids_step_elem (c : conversation_json) (acc s : gset str) :
  dm_user_ids_step c acc = Ok s ->
  forall id, id ∈ s
    <-> id ∈ acc
        \/ exists dc cid id1 id2,
             dmConversation c = Some dc /\ conversationId dc = Some cid
             /\ Py.split_on 45%N cid = [id1; id2] /\ (id = id1 \/ id = id2).
Proof.
  unfold dm_user_ids_step. intros H id.
  destruct (dmConversation c) as [dc|] eqn:Hc.
  2: { injection H as <-. split; [by left|].
       by intros [?|(dc' & ? & ? & ? & Hdc & _)]. }
  destruct (conversationId dc) as [cid|] eqn:Hconv.
  2: { injection H as <-. split; [by left|].
       intros [?|(dc' & ? & ? & ? & Hdc & Hcid & _)]; [done|].
       injection Hdc as <-. congruence. }
  inv_bind H as tuple [id1 id2] Hpair. injection H as <-.
  destruct (Py.split_on 45 cid) as [|a [|b [|? ?]]] eqn:Hsplit; try done.
  injection Hpair as -> ->.
  rewrite !elem_of_union, !elem_of_singleton. split.
  - intros [[?| ->]| ->]; [by left| |];
      right; exists dc, cid, id1, id2; repeat split; auto.
  - intros [?|(dc' & cid' & a & b & Hdc & Hcid & Hsplit' & Hid)];
      [by left; left|].
    injection Hdc as <-. rewrite Hconv in Hcid. injection Hcid as <-.
    rewrite Hsplit in Hsplit'. injection Hsplit' as <- <-. tauto.
Qed.

Section Lookup.

Variable X : Externals.
Hypothesis HX : iterates_members X.

Lemma _collect_user_ids_from_direct_messages_elem (a : Archive)
    (ids : list str) :
  _collect_user_ids_from_direct_messages X (dms_json a) = Ok ids ->
  forall id, id ∈ ids <-> dm_ref a id.
Proof using HX.
  unfold _collect_user_ids_from_direct_messages. intros H id.
  inv_bind H as s Hs. injection H as <-. rewrite set_iter_elem by done.
  rewrite (for_each_union dm_user_ids_step _ (dms_json a)
             (fun c acc s' _ => dm_user_ids_step_elem c acc s') ∅ s Hs id).
  unfold dm_ref. split.
  - intros [Hempty|(c & Hc & dc & cid & id1 & id2 & ?)]; [set_solver|].
    exists c, dc, cid, id1, id2. tauto.
  - intros (c & dc & cid & id1 & id2 & Hc & ?). right.
    exists c. split; [done|]. exists dc, cid, id1, id2. tauto.
Qed.

Lemma _collect_user_ids_from_group_direct_messages_elem (a : Archive)
    (ids : list str) :
  _collect_user_ids_from_group_direct_messages X (group_dms_json a) = Ok ids ->
  forall id, id ∈ ids <-> group_ref a id.
Proof using HX.
  unfold _collect_user_ids_from_group_direct_messages. intros H id.
  inv_bind H as s Hs. injection H as <-. rewrite set_iter_elem by done.
  assert (Hmem : id ∈ s
                 <-> id ∈ (∅ : gset str)
                     \/ exists c, c ∈ group_dms_json a
                                  /\ exists m, m ∈ events c /\ contributes m id).
  { eapply (for_each_union _
              (fun c id => exists m, m ∈ events c /\ contributes m id));
      [|exact Hs].
    intros c acc s' _ Hstep id'.
    inv_bind Hstep as participants Hparticipants. injection Hstep as <-.
    rewrite add_all_elem, set_iter_elem by done.
    by rewrite (participant_ids_elem c participants Hparticipants id'). }
  rewrite Hmem. unfold group_ref. split.
  - intros [Hempty|(c & Hc & m & ? & ?)]; [set_solver|]. by exists c, m.
  - intros (c & m & ? & ? & ?). right. exists c. split; [done|]. by exists m.
Qed.

(** [collected_user_ids] lists, without a repetition, the ids that the four
    sources refer to. *)
Lemma collected_user_ids_elem (a : Archive) (ids : list str) :
  collected_user_ids X a = Ok ids ->
  NoDup ids /\ forall id, id ∈ ids <-> referenced a id.
Proof using HX.
  unfold collected_user_ids. intros H.
  inv_bind H as dm_ids Hdm. inv_bind H as group_ids Hgroup.
  injection H as <-. split; [by apply set_iter_NoDup|].
  intros id. rewrite set_iter_elem by done.
  rewrite elem_of_union, elem_of_difference, !elem_of_list_to_set.
  rewrite set_iter_elem by done.
  set (without_followers :=
         list_to_set (_collect_user_ids_from_followings (following_json a))
         ∪ list_to_set dm_ids ∪ list_to_set group_ids : gset str).
  assert (Hwithout : id ∈ without_followers
                     <-> account_ref (following_json a) id
                         \/ dm_ref a id \/ group_ref a id).
  { unfold without_followers.
    rewrite !elem_of_union, !elem_of_list_to_set.
    unfold _collect_user_ids_from_followings.
    rewrite collect_account_ids_elem.
    rewrite (_collect_user_ids_from_direct_messages_elem a dm_ids Hdm id).
    rewrite (_collect_user_ids_from_group_direct_messages_elem a group_ids
               Hgroup id).
    tauto. }
  unfold _collect_user_ids_from_followers.
  rewrite collect_account_ids_elem. unfold referenced.
  destruct (decide (id ∈ without_followers)) as [Hin|Hnotin]; tauto.
Qed.

End Lookup.

Lemma elements_iterates_members : iterates_members Model.env.
Proof. intros s. reflexivity. Defined.


(** ** The participants of a group conversation (C5) *)

Lemma first_seen_from_elem (seen ids : list str) (id : str) :
  id ∈ first_seen_from seen ids <-> id ∈ ids /\ id ∉ seen.
Proof.
  revert seen. induction ids as [|x ids IH]; intros seen; simpl.
  - split; [by intros ?%not_elem_of_nil | by intros [?%not_elem_of_nil _]].
  - case_bool_decide as Hx.
    + rewrite IH, elem_of_cons. split; [tauto|].
      intros [[->|?] ?]; [done|tauto].
    + rewrite !elem_of_cons, IH, elem_of_cons. split.
      * intros [->|[? ?]]; [tauto|]. split; [tauto|]. tauto.
      * intros [[->|?] ?]; [by left|].
        destruct (decide (id = x)); [by left|right]. tauto.
Qed.

Lemma first_seen_from_NoDup (seen ids : list str) :
  NoDup (first_seen_from seen ids).
Proof.
  revert seen. induction ids as [|x ids IH]; intros seen; simpl.
  - constructor.
  - case_bool_decide; [apply IH|]. constructor; [|apply IH].
    rewrite first_seen_from_elem. intros [_ Hnot]. apply Hnot. by left.
Qed.

Lemma elem_of_default_nil (o : option (list str)) (id : str) :
  id ∈ default [] o <-> exists l, o = Some l /\ id ∈ l.
Proof.
  destruct o as [l|]; simpl.
  - split; [by exists l|]. by intros (l' & [= <-] & ?).
  - split; [by intros ?%not_elem_of_nil|]. by intros (l & ? & _).
Qed.

Lemma elem_of_option_list (o : option str) (id : str) :
  id ∈ option_list o <-> o = Some id.
Proof.
  destruct o as [x|]; simpl.
  - rewrite list_elem_of_singleton. split; congruence.
  - split; [by intros ?%not_elem_of_nil|done].
Qed.

Lemma contributed_ids_elem (m : message) (id : str) :
  id ∈ contributed_ids m <-> contributes m id.
Proof.
  destruct m as [mc|jc|pj|u|]; simpl;
    rewrite ?elem_of_app, ?elem_of_option_list, ?elem_of_default_nil;
    try done; split; by intros ?%not_elem_of_nil || done.
Qed.

Lemma elem_of_flat_map {A} (f : A -> list str) (l : list A) (id : str) :
  id ∈ flat_map f l <-> exists x, x ∈ l /\ id ∈ f x.
Proof.
  rewrite list_elem_of_In, in_flat_map.
  split; intros (x & Hx & Hid); exists x.
  - by rewrite !list_elem_of_In.
  - by rewrite <- !list_elem_of_In.
Qed.

Lemma first_seen_ids_elem (c : conversation_json) (id : str) :
  id ∈ first_seen_ids c <-> exists m, m ∈ events c /\ contributes m id.
Proof.
  unfold first_seen_ids. rewrite first_seen_from_elem, elem_of_flat_map.
  split.
  - intros [(m & Hm & Hid) _]. exists m. by rewrite <- contributed_ids_elem.
  - intros (m & Hm & Hid). split; [|apply not_elem_of_nil].
    exists m. by rewrite contributed_ids_elem.
Qed.

Section Group.

Variable X : Externals.
Variable paths : PathConfig.

(** The participants of a conversation that has an id are resolved from
    the set that the fold over its events returns. *)
Lemma group_conversation_participants c dc cid st g st' :
  dmConversation c = Some dc -> conversationId dc = Some cid ->
  group_conversation X paths c st = Ok (Some g, st') ->
  exists participants,
    _find_group_dm_conversation_participant_ids c = Ok participants
    /\ group_participant g
       = map (fun id => handle_or st id (profile_url id))
             (set_iter X participants).
Proof.
  intros Hdc Hcid H. unfold group_conversation in H. rewrite Hdc, Hcid in H.
  inv_bind H as participants Hparticipants.
  rewrite group_participants_eq in H.
  inv_bind H as handles Hhandles. injection Hhandles as <-.
  inv_bind H as tuple [[name gdms] st1] Hfold.
  injection H as <- <-. by exists participants.
Qed.

(** C5, as the code has it: the ids of the participants of a group
    conversation are those that its events contribute (the sender of a
    message, the initiator and the snapshot of a [joinConversation], the
    initiator and the added ids of a [participantsJoin]) and no other; they
    are resolved to handles, with the profile URL for an id that the
    registry does not hold, once the fold over all the events has returned
    their set; the list of the handles follows the order in which the set is
    iterated, so that it holds the ids first seen in the stream each once,
    in an order that need not be theirs. *)
Theorem group_participants_are_the_contributed_ids c dc cid st g st' :
  iterates_members X ->
  dmConversation c = Some dc -> conversationId dc = Some cid ->
  group_conversation X paths c st = Ok (Some g, st') ->
  exists participants,
    _find_group_dm_conversation_participant_ids c = Ok participants
    /\ (forall id, id ∈ participants
                   <-> exists m, m ∈ events c /\ contributes m id)
    /\ group_participant g
       = map (fun id => handle_or st id (profile_url id))
             (set_iter X participants)
    /\ set_iter X participants ≡ₚ first_seen_ids c.
Proof.
  intros HX Hdc Hcid H.
  destruct (group_conversation_participants c dc cid st g st' Hdc Hcid H)
    as (participants & Hparticipants & Hhandles).
  exists participants. split; [done|].
  split; [by apply participant_ids_elem|]. split; [done|].
  apply NoDup_Permutation.
  - by apply set_iter_NoDup.
  - apply first_seen_from_NoDup.
  - intros id. rewrite set_iter_elem by done.
    rewrite (participant_ids_elem c participants Hparticipants id).
    by rewrite first_seen_ids_elem.
Qed.

End Group.

(** A conversation in which two accounts write, of which nothing but the
    senders is known. *)
Lemma two_senders (X : Externals) (paths : PathConfig) (cid a b : str)
    (st : state) :
  group_conversation X paths
    (Examples.conversation cid [Examples.sent_by a; Examples.sent_by b]) st
  = Ok (Some {| group_name := None; group_dms := Some [];
                group_participant :=
                  map (fun id => handle_or st id (profile_url id))
                      (set_iter X (∅ ∪ {[a]} ∪ {[b]})) |}, st).
Proof.
  unfold group_conversation. simpl. by rewrite group_participants_eq.
Qed.

Lemma group_participants_are_the_contributed_ids_witness :
  iterates_members Model.env
  /\ exists g st',
       group_conversation Model.env Model.paths Examples.group_12
         (initial_state ∅) = Ok (Some g, st')
       /\ exists participants,
            _find_group_dm_conversation_participant_ids Examples.group_12
            = Ok participants
            /\ (forall id,
                   id ∈ participants
                   <-> exists m, m ∈ events Examples.group_12
                                 /\ contributes m id)
            /\ group_participant g
               = map (fun id => handle_or (initial_state ∅) id
                                  (profile_url id))
                     (elements participants)
            /\ elements participants ≡ₚ first_seen_ids Examples.group_12.
Proof.
  split; [exact elements_iterates_members|].
  destruct (group_conversation Model.env Model.paths Examples.group_12
              (initial_state ∅)) as [[[g|] st']|e] eqn:Hg;
    [|vm_compute in Hg; discriminate Hg|vm_compute in Hg; discriminate Hg].
  exists g, st'. split; [done|].
  exact (group_participants_are_the_contributed_ids Model.env Model.paths
           Examples.group_12 _ (lit "g12") (initial_state ∅) g st'
           elements_iterates_members eq_refl eq_refl Hg).
Defined.

(** C5 as it is stated fails. The handles of the two participants of
    [group_12], who first write in the order 1, 2, come in the order 2, 1 in
    the concrete environment. No other order of iteration mends this: the
    senders of [group_12] and of [group_21] form the same set, which is
    iterated in one order, and are first seen in opposite orders. *)
Lemma participants_do_not_keep_first_seen_order :
  (exists g st',
      group_conversation Model.env Model.paths Examples.group_12
        (initial_state ∅) = Ok (Some g, st')
      /\ first_seen_ids Examples.group_12 = [lit "1"; lit "2"]
      /\ group_participant g = [profile_url (lit "2"); profile_url (lit "1")]
      /\ group_participant g
         <> map profile_url (first_seen_ids Examples.group_12))
  /\ ~ exists X : Externals,
         forall c g st',
           group_conversation X Model.paths c (initial_state ∅)
           = Ok (Some g, st')
           -> group_participant g = map profile_url (first_seen_ids c).
Proof.
  split.
  - eexists _, _. split; [vm_compute; reflexivity|].
    split; [reflexivity|]. split; [reflexivity|]. vm_compute. discriminate.
  - intros [X HX].
    pose proof (HX _ _ _ (two_senders X Model.paths (lit "g12") (lit "1")
                            (lit "2") (initial_state ∅))) as H12.
    pose proof (HX _ _ _ (two_senders X Model.paths (lit "g21") (lit "2")
                            (lit "1") (initial_state ∅))) as H21.
    simpl in H12, H21.
    replace (∅ ∪ {[lit "2"]} ∪ {[lit "1"]} : gset str)
      with (∅ ∪ {[lit "1"]} ∪ {[lit "2"]} : gset str) in H21 by set_solver.
    rewrite H12 in H21. vm_compute in H21. discriminate H21.
Qed.

(** ** The links of old tweets (C7) *)

Lemma display_url_of_eq (url : url_parts) :
  display_url_of url
  = drop_www (netloc url)
    ++ (if bool_decide (15 <= length (path url ++ lit "?" ++ query url))
        then take 15 (path url ++ lit "?" ++ query url) ++ [ELLIPSIS]
        else path url).
Proof.
  unfold display_url_of, drop_www. f_equal.
  destruct (Nat.ltb_spec (length (path url ++ lit "?" ++ query url)) 15);
    case_bool_decide; done || lia.
Qed.

Section Backfill.

Variable X : Externals.

(** [urlparse] raises nothing but [ValueError]. *)
Hypothesis urlparse_raises : forall word e, urlparse X word = Raise e -> e = ValueError.

Lemma backfill_word_eq (text word : str) (l : list url_entity) :
  word ∈ Py.split text ->
  backfill_word X text word (Some l)
  = Ok (Some (l ++ option_list (pretend_link X text word))).
Proof using urlparse_raises.
  intros Hword. unfold backfill_word, pretend_link.
  destruct (urlparse X word) as [url|e] eqn:Hparse.
  - destruct (negb _ && negb _ && negb _); simpl; [|by rewrite app_nil_r].
    by destruct (find_from_word text word Hword) as [i ->].
  - rewrite (urlparse_raises word e Hparse). simpl. by rewrite app_nil_r.
Qed.

Lemma backfill_words_eq (text : str) (words : list str) (l : list url_entity) :
  (forall w, w ∈ words -> w ∈ Py.split text) ->
  for_each (backfill_word X text) words (Some l)
  = Ok (Some (l ++ omap (pretend_link X text) words)).
Proof using urlparse_raises.
  revert l. induction words as [|w words IH]; intros l Hwords; simpl.
  - by rewrite app_nil_r.
  - rewrite backfill_word_eq by (apply Hwords; by left). simpl.
    rewrite IH by (intros w' Hw'; apply Hwords; by right).
    rewrite <- app_assoc. by destruct (pretend_link X text w).
Qed.

(** C7, as the code has it. The backfill leaves a tweet as it is unless the
    tweet has entities, among which no media and no link. For a tweet whose
    list of links is there and empty, it appends one made-up link entity for
    each word of the body that is an absolute link (it parses with a scheme
    and a network location) and does not end in an ellipsis, in the order of
    the words. The display form of the entity is the network location
    without a leading [www.], followed by: the first 15 code points of
    [path?query] and an ellipsis when [path?query], the question mark
    counted, has 15 code points or more; the path alone, without the query,
    otherwise. *)
Theorem backfill_adds_pretend_links (text : str) (tweet : tweet_obj) :
  (* when the backfill runs *)
  (tw_entities tweet = None -> backfill_links X text tweet = Ok tweet)
  /\ (forall ents,
        tw_entities tweet = Some ents ->
        is_Some (ent_media ents) \/ (exists u l, ent_urls ents = Some (u :: l)) ->
        backfill_links X text tweet = Ok tweet)
  (* what it adds *)
  /\ (forall ents,
        tw_entities tweet = Some ents ->
        ent_media ents = None -> ent_urls ents = Some [] ->
        backfill_links X text tweet
        = Ok (with_urls tweet ents
                (Some (omap (pretend_link X text) (Py.split text)))))
  (* for which words, and with what display form *)
  /\ (forall word entity,
        pretend_link X text word = Some entity <->
        exists url,
          absolute_link X word url
          /\ entity
             = {| ue_url := Some word; ue_expanded_url := Some word;
                  ue_display_url :=
                    Some (drop_www (netloc url)
                          ++ (if bool_decide
                                   (15 <= length (path url ++ lit "?"
                                                  ++ query url))
                              then take 15 (path url ++ lit "?" ++ query url)
                                   ++ [ELLIPSIS]
                              else path url));
                  ue_indices := (fun i => (i, i + length word))
                                  <$> Py.find_from word text 0 |}).
Proof using urlparse_raises.
  split; [|split; [|split]].
  - intros Hnone. unfold backfill_links. by rewrite Hnone.
  - intros ents Hents Hgate. unfold backfill_links. rewrite Hents.
    destruct Hgate as [Hmedia|(u & l & Hurls)].
    + by rewrite (bool_decide_eq_true_2 _ Hmedia).
    + rewrite Hurls. simpl. by rewrite andb_false_r.
  - intros ents Hents Hmedia Hurls. unfold backfill_links.
    rewrite Hents, Hmedia, Hurls. simpl.
    by rewrite backfill_words_eq.
  - intros word entity. unfold pretend_link, absolute_link.
    destruct (urlparse X word) as [url|e].
    + setoid_rewrite <- display_url_of_eq.
      destruct (bool_decide (scheme url = [])) eqn:Hscheme;
        [|destruct (bool_decide (netloc url = [])) eqn:Hnetloc;
          [|destruct (Py.endswith [ELLIPSIS] word) eqn:Hend]]; simpl.
      * apply bool_decide_eq_true in Hscheme.
        split; [done|]. intros (url' & ([= <-] & ? & _) & _). done.
      * apply bool_decide_eq_true in Hnetloc.
        split; [done|]. intros (url' & ([= <-] & _ & ? & _) & _). done.
      * apply endswith_last in Hend.
        split; [done|]. intros (url' & ([= <-] & _ & _ & ?) & _). done.
      * apply bool_decide_eq_false in Hscheme, Hnetloc.
        assert (last word <> Some ELLIPSIS).
        { rewrite <- endswith_last. by rewrite Hend. }
        split.
        -- intros [= <-]. by exists url.
        -- intros (url' & ([= <-] & _) & ->). done.
    + split; [done|]. by intros (url & (? & _) & _).
Qed.

End Backfill.

Lemma py_urlparse_raises (word : str) (e : exn) :
  Model.py_urlparse word = Raise e -> e = ValueError.
Proof.
  unfold Model.py_urlparse.
  destruct (Model.split_scheme _) as [scheme url].
  destruct (if Py.startswith _ _ then _ else _) as [netloc url'].
  destruct (_ || _); [congruence|].
  destruct (Model.split_first 35 url') as [url1 fragment].
  destruct (Model.split_first 63 url1) as [url2 query].
  by destruct (if _ && _ then _ else _).
Qed.

Lemma backfill_adds_pretend_links_witness :
  (forall word e, urlparse Model.env word = Raise e -> e = ValueError)
  /\ backfill_links Model.env Examples.short_link_text
       (Examples.old_tweet Examples.short_link_text)
     = Ok (with_urls (Examples.old_tweet Examples.short_link_text)
             {| ent_media := None; ent_urls := Some [];
                ent_user_mentions := None |}
             (Some (omap (pretend_link Model.env Examples.short_link_text)
                      (Py.split Examples.short_link_text))))
  /\ omap (pretend_link Model.env Examples.short_link_text)
       (Py.split Examples.short_link_text)
     = [Examples.short_link_entity].
Proof.
  split; [exact py_urlparse_raises|]. split; [|vm_compute; reflexivity].
  exact (proj1 (proj2 (proj2
           (backfill_adds_pretend_links Model.env py_urlparse_raises
              Examples.short_link_text
              (Examples.old_tweet Examples.short_link_text))))
           _ eq_refl eq_refl eq_refl).
Defined.

(** C7 as it is stated fails. In the body [see http://a.com/p?q=1] the
    word [http://a.com/p?q=1] is an absolute link whose path and query have
    fewer than 15 code points, with or without the question mark between
    them; the claim keeps them unchanged in the display form, the code
    keeps the path [/p] and drops the query. *)
Lemma short_link_loses_its_query :
  exists url tweet',
    urlparse Model.env Examples.short_link = Ok url
    /\ netloc url = lit "a.com" /\ path url = lit "/p"
    /\ query url = lit "q=1"
    /\ backfill_links Model.env Examples.short_link_text
         (Examples.old_tweet Examples.short_link_text) = Ok tweet'
    /\ ent_urls <$> tw_entities tweet'
       = Some (Some [Examples.short_link_entity])
    /\ ue_display_url Examples.short_link_entity = Some (lit "a.com/p")
    /\ spec_display_url (netloc url) (path url ++ query url)
       = lit "a.com/pq=1"
    /\ spec_display_url (netloc url) (path url ++ lit "?" ++ query url)
       = lit "a.com/p?q=1"
    /\ lit "a.com/p" <> lit "a.com/pq=1"
    /\ lit "a.com/p" <> lit "a.com/p?q=1".
Proof.
  eexists _, _. split; [vm_compute; reflexivity|].
  do 3 (split; [reflexivity|]).
  split; [vm_compute; reflexivity|].
  do 4 (split; [reflexivity|]).
  split; vm_compute; discriminate.
Qed.

(** ** The classification of a post (C4) *)

Lemma mention_run_committed (in_name : bool) (pending committed : nat)
    (s : str) :
  mention_run in_name pending committed s
  = committed + mention_run in_name pending 0 s.
Proof.
  revert in_name pending committed.
  induction s as [|c s IH]; intros in_name pending committed; simpl; [lia|].
  destruct in_name.
  - destruct (is_name_char c); [apply IH|].
    destruct (c =? 32)%N; [|lia].
    rewrite (IH false 0 (committed + S pending)).
    match goal with
    | |- _ = _ + mention_run _ _ ?k _ => rewrite (IH false 0 k)
    end.
    lia.
  - destruct (c =? 64)%N; [apply IH|lia].
Qed.

(** What follows the match does not start with a match: from the middle of
    a name, either nothing more is matched, or the match runs past the
    pending code points and what follows it matches nothing. *)
Lemma mention_run_maximal (s : str) :
  (forall pending,
      let r := mention_run true pending 0 s in
      r = 0 \/ (pending < r
                /\ mention_run false 0 0 (drop (r - pending) s) = 0))
  /\ mention_run false 0 0 (drop (mention_run false 0 0 s) s) = 0.
Proof.
  induction s as [|c s [IHname IHstart]]; [by split; [left|]|].
  split.
  - intros pending. simpl. destruct (is_name_char c).
    + destruct (IHname (S pending)) as [->|[Hlt Hrest]]; [by left|].
      right. split; [lia|].
      replace (mention_run true (S pending) 0 s - pending)
        with (S (mention_run true (S pending) 0 s - S pending)) by lia.
      done.
    + destruct (c =? 32)%N; [|by left]. right.
      rewrite mention_run_committed.
      match goal with
      | |- _ < ?k + ?r /\ _ =>
          assert (Hk : k + r - pending = S r) by lia; rewrite Hk
      end.
      split; [lia|done].
  - simpl. destruct (c =? 64)%N eqn:Hc; [|simpl; by rewrite Hc].
    destruct (IHname 1) as [Hzero|[Hlt Hrest]].
    + rewrite Hzero. simpl. by rewrite Hc.
    + replace (mention_run true 1 0 s)
        with (S (mention_run true 1 0 s - 1)) at 1 by lia.
      done.
Qed.

Lemma mention_run_name (name rest : str) (pending : nat) :
  Forall (fun c => is_name_char c = true) name ->
  mention_run true pending 0 (name ++ 32%N :: rest)
  = S (pending + length name) + mention_run false 0 0 rest.
Proof.
  intros Hname. revert pending.
  induction Hname as [|c name Hc _ IH]; intros pending; simpl.
  - rewrite mention_run_committed. lia.
  - rewrite Hc, IH. lia.
Qed.

Lemma mention_run_zero (s : str) :
  mention_run false 0 0 s = 0 -> ~ starts_with_mention s.
Proof.
  intros Hzero (name & rest & -> & Hname). simpl in Hzero.
  rewrite mention_run_name in Hzero by done. lia.
Qed.

Lemma not_starts_with_mention_nil : ~ starts_with_mention [].
Proof. by intros (name & rest & ? & _). Qed.

(** The body that the reply branch leaves does not start with a mention. *)
Lemma match_mentions_stripped (body : str) :
  ~ starts_with_mention (drop (length (match_mentions body)) body).
Proof.
  apply mention_run_zero. unfold match_mentions.
  destruct (decide (mention_run false 0 0 body <= length body)).
  - rewrite length_take, Nat.min_l by done. apply mention_run_maximal.
  - rewrite take_ge, drop_all by lia. done.
Qed.

Lemma match_mentions_none (body : str) :
  match_mentions body = [] -> ~ starts_with_mention body.
Proof.
  intros Hnone. pose proof (match_mentions_stripped body) as H.
  by rewrite Hnone in H.
Qed.

Section Classification.

Variable X : Externals.
Variable paths : PathConfig.
Variable owner : str.

Lemma retweet_header_Ok (text body body0 : str) (ty0 : TweetType.t)
    (rt : option str) :
  retweet_header text body = Ok (ty0, rt, body0) ->
  (head (Py.split text) = Some RT /\ ty0 = TweetType.RETWEET /\ is_Some rt)
  \/ (head (Py.split text) <> Some RT /\ ty0 = TweetType.TWEET /\ rt = None
      /\ body0 = body).
Proof.
  unfold retweet_header. intros H.
  inv_bind H as first Hfirst. apply index_Ok in Hfirst.
  rewrite <- head_lookup in Hfirst. rewrite Hfirst.
  case_bool_decide as HRT.
  - inv_bind H as second Hsecond. injection H as <- <- <-.
    left. by rewrite HRT.
  - injection H as <- <- <-. right. repeat split; congruence.
Qed.

Lemma backfill_links_fields (text : str) (tweet tweet' : tweet_obj) :
  backfill_links X text tweet = Ok tweet' ->
  in_reply_to_status_id tweet' = in_reply_to_status_id tweet
  /\ full_text tweet' = full_text tweet
  /\ tw_entities tweet' ≫= ent_media = tw_entities tweet ≫= ent_media.
Proof.
  unfold backfill_links. intros H.
  destruct (tw_entities tweet) as [ents|] eqn:Hents;
    [|injection H as <-; by rewrite Hents].
  destruct (_ && _); [|injection H as <-; by rewrite Hents].
  inv_bind H as urls Hurls. by injection H as <-.
Qed.

Lemma reply_header_Ok (tweet : tweet_obj) (ty0 ty : TweetType.t)
    (body body1 : str) (names : option (list str)) (reply_url : option str) :
  reply_header owner tweet ty0 body = Ok (ty, names, reply_url, body1) ->
  (in_reply_to_status_id tweet = None /\ ty = ty0 /\ body1 = body)
  \/ (is_Some (in_reply_to_status_id tweet) /\ ty = TweetType.REPLY
      /\ is_Some reply_url /\ ~ starts_with_mention body1).
Proof.
  unfold reply_header. intros H.
  destruct (in_reply_to_status_id tweet) as [status_id|];
    [|injection H as <- <- <- <-; by left].
  right. split; [done|].
  case_bool_decide as Hmatched.
  - inv_bind H as name Hname. rewrite REPLAY_TO_TWEET_format in H.
    simpl in H. injection H as <- <- <- <-.
    repeat split; [done|]. by apply match_mentions_none.
  - inv_bind H as name Hname. rewrite REPLAY_TO_TWEET_format in H.
    simpl in H. injection H as <- <- <- <-.
    repeat split; [done|]. apply match_mentions_stripped.
Qed.

Lemma attach_media_Ok (tweet : tweet_obj) (id body body2 : str)
    (attached : option str) (st st1 : state) :
  attach_media X paths tweet id body st = Ok (body2, attached, st1) ->
  (attached = None /\ body2 = body)
  \/ (is_Some attached
      /\ exists first original_url,
           (tw_entities tweet ≫= ent_media) ≫= head = Some first
           /\ med_url first = Some original_url
           /\ body2 = Py.replace body original_url []).
Proof.
  unfold attach_media. intros H.
  destruct (tw_entities tweet) as [ents|]; [|injection H as <- <- <-; by left].
  destruct (tw_extended_entities tweet) as [ext|];
    [|injection H as <- <- <-; by left].
  destruct (ent_media ents) as [entity_media|] eqn:Hentity_media;
    [|injection H as <- <- <-; by left].
  destruct (ext_media ext) as [extended_media|];
    [|injection H as <- <- <-; by left].
  inv_bind H as first Hfirst. inv_bind H as original_url Hurl.
  inv_bind H as tuple [markdown st2] Hloop. injection H as <- <- <-.
  apply index_Ok in Hfirst. apply getitem_Ok in Hurl.
  right. split; [done|]. exists first, original_url.
  split; [|done]. simpl. rewrite Hentity_media. simpl.
  by destruct entity_media.
Qed.

(** The reply step takes the leading run of mentions off the body. *)
Lemma reply_header_body (tweet : tweet_obj) (ty0 ty : TweetType.t)
    (body body1 : str) (names : option (list str)) (reply_url : option str) :
  is_Some (in_reply_to_status_id tweet) ->
  reply_header owner tweet ty0 body = Ok (ty, names, reply_url, body1) ->
  body1 = drop (length (match_mentions body)) body.
Proof.
  unfold reply_header. intros [status_id ->] H.
  case_bool_decide as Hmatched.
  - inv_bind H as name Hname. rewrite REPLAY_TO_TWEET_format in H.
    simpl in H. injection H as <- <- <- <-. by rewrite Hmatched.
  - inv_bind H as name Hname. rewrite REPLAY_TO_TWEET_format in H.
    simpl in H. by injection H as <- <- <- <-.
Qed.

Lemma body_before_reply_Ok (text : str) (tweet tweet' : tweet_obj)
    (ty0 : TweetType.t) (rt : option str) (body0 : str) :
  full_text tweet = Some text ->
  retweet_header text (join_words (Py.split text)) = Ok (ty0, rt, body0) ->
  backfill_links X text tweet = Ok tweet' ->
  body_before_reply X tweet = Ok (expand_links tweet' body0).
Proof.
  intros Htext Hrt Hbackfill. unfold body_before_reply.
  rewrite Htext. cbn [getitem mbind result_bind]. rewrite Hrt.
  cbn [mbind result_bind]. by rewrite Hbackfill.
Qed.

(** C4, as the code has it. The kind of a post is decided by its content:
    [REPLY] when the tweet names the status it replies to, else [RETWEET]
    when the first word of the body is [RT], else [TWEET], so that exactly
    one of the three holds. A [RETWEET] has its [retweeted_from]. A [REPLY]
    has its [replying_to_tweet]. The body that the reply step leaves is
    the body that reaches it (the words of the text, links expanded)
    without its leading run of mentions, and does not start with a
    mention; the body of the post is that body when the post has no media
    attached, and that body without the occurrences of the link of its
    first media entity when it has. *)
Theorem converted_tweet_is_classified (tweet : tweet_json) (st st' : state)
    (t : Tweet) :
  _convert_tweet X paths owner tweet st = Ok (t, st') ->
  (tweet_type t = TweetType.REPLY
   <-> is_Some (in_reply_to_status_id (unwrap tweet)))
  /\ (tweet_type t = TweetType.RETWEET
      <-> in_reply_to_status_id (unwrap tweet) = None
          /\ starts_with_RT (unwrap tweet))
  /\ (tweet_type t = TweetType.TWEET
      <-> in_reply_to_status_id (unwrap tweet) = None
          /\ ~ starts_with_RT (unwrap tweet))
  /\ (tweet_type t = TweetType.RETWEET -> is_Some (retweeted_from t))
  /\ (tweet_type t = TweetType.REPLY ->
      is_Some (replying_to_tweet t)
      /\ exists before body,
           body_before_reply X (unwrap tweet) = Ok before
           /\ body = drop (length (match_mentions before)) before
           /\ ~ starts_with_mention body
           /\ (tweets_attached_media t = None -> tweet_data t = body)
           /\ (is_Some (tweets_attached_media t) ->
               exists first original_url,
                 (tw_entities (unwrap tweet) ≫= ent_media) ≫= head
                 = Some first
                 /\ med_url first = Some original_url
                 /\ tweet_data t = Py.replace body original_url [])).
Proof.
  intros H. apply _convert_tweet_Ok in H.
  destruct H as (ts & text & id & year & ty0 & rt & body0 & tweet' & ty
                 & names & reply_url & body1 & body2 & attached & st1 & st2
                 & Hts & Htext & Hid & Hyear & Hrt & Hbackfill & Hreply
                 & Hmedia & _ & _ & ->).
  simpl.
  destruct (backfill_links_fields text _ _ Hbackfill) as (Hstatus & _ & Hsame).
  assert (HRT : starts_with_RT (unwrap tweet) <-> head (Py.split text) = Some RT).
  { unfold starts_with_RT. rewrite Htext. split.
    - by intros (text' & [= <-] & ?).
    - intros ?. by exists text. }
  pose proof (body_before_reply_Ok _ _ _ _ _ _ Htext Hrt Hbackfill)
    as Hbefore.
  pose proof (fun Hsome => reply_header_body _ _ _ _ _ _ _ Hsome Hreply)
    as Hstripped.
  rewrite Hstatus in Hstripped.
  apply retweet_header_Ok in Hrt. apply reply_header_Ok in Hreply.
  rewrite Hstatus in Hreply. rewrite HRT.
  destruct Hreply as [(Hnone & -> & ->)|(Hsome & -> & Hurl & Hbody)].
  - rewrite Hnone.
    destruct Hrt as [(Hfirst & -> & Hfrom)|(Hfirst & -> & -> & ->)];
      repeat split; try done; try tauto;
      try (by intros ?%is_Some_None); by intros [_ ?].
  - destruct Hsome as [status_id Hsome]. rewrite Hsome.
    repeat split; try done; try (by intros [? _]);
      try (by destruct Hrt as [(_ & -> & _)|(_ & -> & _)]).
    exists (expand_links tweet' body0), body1. split; [done|].
    split; [by apply Hstripped|]. split; [done|].
    apply attach_media_Ok in Hmedia.
    destruct Hmedia as [[-> ->]|(Hattached & first & url & Hfirst & Hurl' & ->)].
    + split; [done|]. by intros ?%is_Some_None.
    + split; [intros ->; by apply is_Some_None in Hattached|].
      intros _. exists first, url. split; [|done].
      by rewrite <- Hsame.
Qed.

End Classification.

Lemma converted_tweet_is_classified_witness :
  (exists t st',
      Examples.convert Examples.thanks_tweet = Ok (t, st')
      /\ tweet_type t = TweetType.REPLY
      /\ replied_to_names t = Some [lit "@bob"; lit "@carol"]
      /\ replying_to_tweet t = Some (lit "https://twitter.com/bob/status/41")
      /\ tweet_data t = lit "thanks "
      /\ (tweet_type t = TweetType.REPLY
          <-> is_Some (in_reply_to_status_id Examples.thanks_tweet))
      /\ exists before body,
           body_before_reply Model.env Examples.thanks_tweet = Ok before
           /\ body = drop (length (match_mentions before)) before
           /\ ~ starts_with_mention body
           /\ (tweets_attached_media t = None -> tweet_data t = body)).
Proof.
  destruct (Examples.convert Examples.thanks_tweet) as [[t st']|e] eqn:Hconv;
    [|vm_compute in Hconv; discriminate Hconv].
  exists t, st'. split; [done|].
  destruct (converted_tweet_is_classified Model.env Model.paths (lit "alice")
              (Bare Examples.thanks_tweet) (initial_state ∅) st' t Hconv)
    as (Hreply & _ & _ & _ & Hbody).
  vm_compute in Hconv. injection Hconv as <- <-.
  do 4 (split; [reflexivity|]). split; [exact Hreply|].
  destruct (Hbody eq_refl) as (_ & before & body & Hbefore & Hdrop & Hstripped
                               & Hplain & _).
  by exists before, body.
Defined.

(** C4 as it is stated fails: the reply [@bob https://t.co/abc@carol hi],
    whose picture has the link [https://t.co/abc], is a [REPLY] with its
    [replying_to_tweet], and its body, [@carol hi ], starts with a mention:
    the link is taken out of the body after the names are. *)
Lemma reply_body_may_start_with_a_mention :
  exists t st',
    Examples.convert Examples.media_reply_tweet = Ok (t, st')
    /\ tweet_type t = TweetType.REPLY
    /\ replying_to_tweet t = Some (lit "https://twitter.com/bob/status/41")
    /\ tweet_data t = lit "@carol hi "
    /\ starts_with_mention (tweet_data t).
Proof.
  eexists _, _. split; [vm_compute; reflexivity|].
  do 3 (split; [reflexivity|]).
  exists (lit "carol"), (lit "hi "). split; [reflexivity|].
  repeat constructor.
Qed.

(** The two posts of the specification. *)
Example retweet_of_alice :
  exists t st',
    Examples.convert (Examples.plain_tweet (lit "7") (lit "RT @alice: hello world"))
    = Ok (t, st')
    /\ tweet_type t = TweetType.RETWEET
    /\ retweeted_from t = Some (lit "alice")
    /\ tweet_data t = lit "hello world ".
Proof. eexists _, _. split; [vm_compute; reflexivity|]. by repeat split. Qed.

(** ** The order of the writes to the registry (C1) *)

Lemma grows_refl (Q : registration -> Prop) (st : state) : grows Q st st.
Proof. exists []. by rewrite app_nil_r. Qed.

Lemma grows_same (Q : registration -> Prop) (st st' : state) :
  registrations st' = registrations st -> grows Q st st'.
Proof. intros H. exists []. by rewrite app_nil_r. Qed.

Lemma grows_trans (Q : registration -> Prop) (st1 st2 st3 : state) :
  grows Q st1 st2 -> grows Q st2 st3 -> grows Q st1 st3.
Proof.
  intros (l1 & H1 & Hl1) (l2 & H2 & Hl2). exists (l1 ++ l2).
  split; [by rewrite H2, H1, app_assoc | by apply Forall_app].
Qed.

Lemma grows_register (Q : registration -> Prop) who id h (st : state) :
  Q (who id h) -> grows Q st (register who id h st).
Proof. intros HQ. exists [who id h]. split; [done|by constructor]. Qed.

(** A loop over a state grows the registry if each of its steps does. *)
Lemma for_each_grows {A S} (Q : registration -> Prop) (proj : S -> state)
    (body : A -> S -> result S) (xs : list A) (s s' : S) :
  (forall x s1 s2, body x s1 = Ok s2 -> grows Q (proj s1) (proj s2)) ->
  for_each body xs s = Ok s' -> grows Q (proj s) (proj s').
Proof.
  intros Hbody. apply (for_each_invariant (fun s1 => grows Q (proj s) (proj s1))).
  - intros x s1 s2 _ Hs1 Hstep. eapply grows_trans; [done|by eapply Hbody].
  - apply grows_refl.
Qed.

(** A loop leaves unchanged what each of its steps leaves unchanged. *)
Lemma for_each_preserves {A S B} (f : S -> B) (body : A -> S -> result S)
    (xs : list A) (s s' : S) :
  (forall x s1 s2, body x s1 = Ok s2 -> f s2 = f s1) ->
  for_each body xs s = Ok s' -> f s' = f s.
Proof.
  intros Hbody. apply (for_each_invariant (fun s1 => f s1 = f s)); [|done].
  intros x s1 s2 _ Hs1 Hstep. rewrite <- Hs1. by eapply Hbody.
Qed.

Section Trace.

Variable X : Externals.
Variable paths : PathConfig.
Variable owner : str.

Lemma save_best_quality_registrations tweet u e p f m media st st' :
  save_best_quality paths tweet u e p f m media st = Ok st' ->
  registrations st' = registrations st.
Proof.
  unfold save_best_quality. intros H.
  destruct (med_video_info media) as [vi|]; [|by injection H as <-].
  destruct (vi_variants vi) as [variants|]; [|by injection H as <-].
  inv_bind H as tuple [url bitrate] Hbest.
  case_bool_decide; by injection H as <-.
Qed.

Lemma fallback_file_registrations tweet u e media p acc acc' :
  fallback_file X paths tweet u e media p acc = Ok acc' ->
  registrations acc'.2 = registrations acc.2.
Proof.
  unfold fallback_file. destruct acc as [markdown st]. intros H.
  inv_bind H as st1 Hsave. injection H as <-.
  apply save_best_quality_registrations in Hsave. simpl. rewrite Hsave.
  by destruct (isfile st _).
Qed.

Lemma media_step_registrations tweet id u media acc acc' :
  media_step X paths tweet id u media acc = Ok acc' ->
  registrations acc'.2 = registrations acc.2.
Proof.
  unfold media_step. destruct acc as [markdown st]. intros H.
  destruct (med_url media); [|by injection H as <-].
  destruct (med_media_url media) as [expanded|]; [|by injection H as <-].
  destruct (isfile st _).
  - inv_bind H as best Hbest. injection H as <-. simpl.
    by destruct (isfile st _).
  - case_bool_decide; [|by injection H as <-].
    apply (for_each_preserves (fun acc => registrations acc.2)) in H; [done|].
    intros p s1 s2. apply fallback_file_registrations.
Qed.

(** Attaching the media of a tweet copies files and logs; it does not
    write to the registry. *)
Lemma attach_media_registrations tweet id body st body' attached st' :
  attach_media X paths tweet id body st = Ok (body', attached, st') ->
  registrations st' = registrations st.
Proof.
  unfold attach_media. intros H.
  destruct (tw_entities tweet) as [ents|]; [|by injection H as <- <- <-].
  destruct (tw_extended_entities tweet) as [ext|];
    [|by injection H as <- <- <-].
  destruct (ent_media ents) as [entity_media|]; [|by injection H as <- <- <-].
  destruct (ext_media ext) as [extended_media|];
    [|by injection H as <- <- <-].
  inv_bind H as first Hfirst. inv_bind H as original_url Hurl.
  inv_bind H as tuple [markdown st2] Hloop. injection H as <- <- <-.
  apply (for_each_preserves (fun acc => registrations acc.2)) in Hloop;
    [done|].
  intros media s1 s2. apply media_step_registrations.
Qed.

Lemma discover_reply_target_grows tweet st st' :
  discover_reply_target tweet st = Ok st' -> grows is_discovery st st'.
Proof.
  unfold discover_reply_target. intros H.
  destruct (in_reply_to_user_id tweet) as [reply_to_id|];
    [|injection H as <-; apply grows_refl].
  destruct (in_reply_to_screen_name tweet) as [[|h]|];
    try (injection H as <-; apply grows_refl).
  inv_bind H as ok Hok.
  destruct ok; injection H as <-; [by apply grows_register|apply grows_refl].
Qed.

Lemma discover_mention_grows m st st' :
  discover_mention m st = Ok st' -> grows is_discovery st st'.
Proof.
  unfold discover_mention. intros H.
  destruct m as [|m]; [injection H as <-; apply grows_refl|].
  destruct (men_id m) as [mentioned_id|];
    [|injection H as <-; apply grows_refl].
  destruct (men_screen_name m) as [h|];
    [|injection H as <-; apply grows_refl].
  inv_bind H as ok Hok.
  destruct ok; [|injection H as <-; apply grows_refl].
  destruct h as [|h]; injection H as <-;
    [apply grows_refl|by apply grows_register].
Qed.

Lemma discover_mentions_grows tweet st st' :
  discover_mentions tweet st = Ok st' -> grows is_discovery st st'.
Proof.
  unfold discover_mentions. intros H.
  destruct (tw_entities tweet) as [ents|];
    [|injection H as <-; apply grows_refl].
  destruct (ent_user_mentions ents) as [[|mentions]|];
    try (injection H as <-; apply grows_refl).
  apply (for_each_grows is_discovery id) in H; [done|].
  intros m s1 s2. apply discover_mention_grows.
Qed.

(** The conversion of a tweet writes discoveries to the registry, and
    nothing else. *)
Lemma _convert_tweet_grows tweet st t st' :
  _convert_tweet X paths owner tweet st = Ok (t, st') ->
  grows is_discovery st st'.
Proof.
  intros H. apply _convert_tweet_Ok in H.
  destruct H as (ts & text & tid & year & ty0 & rt & body0 & tweet' & ty
                 & names & reply_url & body1 & body2 & attached & st1 & st2
                 & _ & _ & _ & _ & _ & _ & _ & Hmedia & Hreply & Hmentions
                 & _).
  apply attach_media_registrations in Hmedia.
  eapply grows_trans; [by apply grows_same|].
  eapply grows_trans; [by eapply discover_reply_target_grows|].
  by eapply discover_mentions_grows.
Qed.

Lemma _get_tweets_grows tweet_files st tweets st' :
  _get_tweets X paths owner tweet_files st = Ok (tweets, st') ->
  grows is_discovery st st'.
Proof.
  unfold _get_tweets. intros H.
  apply (for_each_grows is_discovery snd) in H; [done|].
  intros file acc1 acc2 Hfile.
  apply (for_each_grows is_discovery snd) in Hfile; [done|].
  intros tweet [tweets1 s1] acc Hstep.
  inv_bind Hstep as tuple [t s2] Hconv. injection Hstep as <-.
  by eapply _convert_tweet_grows.
Qed.

Lemma register_retrieved_grows retrieved st :
  grows is_bulk st (register_retrieved retrieved st).1.
Proof.
  revert st. induction retrieved as [|[user_id user] rest IH]; intros st;
    simpl; [apply grows_refl|].
  destruct (api_screen_name user) as [[|screen_name]|];
    [apply IH| |apply grows_refl].
  eapply grows_trans; [|apply IH]. by apply grows_register.
Qed.

(** The lookup writes what the service resolved, and nothing else. *)
Lemma _lookup_users_grows user_ids st :
  grows is_bulk st (_lookup_users X user_ids st).
Proof.
  unfold _lookup_users. case_bool_decide; [apply grows_refl|].
  destruct (_ ≫= _) as [retrieved|e]; [|by apply grows_same].
  pose proof (register_retrieved_grows retrieved st) as Hgrows.
  destruct (register_retrieved retrieved st) as [st1 [err|]]; [|done].
  eapply grows_trans; [done|by apply grows_same].
Qed.

Lemma direct_message_step_registrations m acc acc' :
  direct_message_step X paths m acc = Ok acc' ->
  registrations acc'.2 = registrations acc.2.
Proof.
  unfold direct_message_step. destruct acc as [dms st]. intros H.
  destruct m as [mc| | | |]; try by injection H as <-.
  destruct (mc_senderId mc); [|by injection H as <-].
  destruct (mc_recipientId mc); [|by injection H as <-].
  destruct (mc_text mc); [|by injection H as <-].
  destruct (mc_createdAt mc); [|by injection H as <-].
  inv_bind H as tuple [body st1] Hmedia.
  apply attach_dm_media_users in Hmedia as [_ Hregs].
  inv_bind H as to_handle Hto. inv_bind H as from_handle Hfrom.
  by injection H as <-.
Qed.

Lemma _get_direct_messages_registrations a st dms st' :
  _get_direct_messages X paths a st = Ok (dms, st') ->
  registrations st' = registrations st.
Proof.
  unfold _get_direct_messages. intros H.
  apply (for_each_preserves (fun acc => registrations acc.2)) in H; [done|].
  intros c acc1 acc2 Hc.
  destruct (dmConversation c) as [dc|]; [|by injection Hc as <-].
  destruct (conversationId dc); [|by injection Hc as <-].
  destruct (messages dc) as [ms|]; [|by injection Hc as <-].
  apply (for_each_preserves (fun acc => registrations acc.2)) in Hc; [done|].
  intros m s1 s2. apply direct_message_step_registrations.
Qed.

Lemma group_message_step_registrations m acc acc' :
  group_message_step X paths m acc = Ok acc' ->
  registrations acc'.2 = registrations acc.2.
Proof.
  unfold group_message_step. destruct acc as [[name gdms] st]. intros H.
  destruct m as [mc| | |u|]; try by injection H as <-.
  - destruct (mc_senderId mc); [|by injection H as <-].
    destruct (mc_text mc); [|by injection H as <-].
    destruct (mc_createdAt mc); [|by injection H as <-].
    inv_bind H as tuple [body st1] Hmedia.
    apply attach_dm_media_users in Hmedia as [_ Hregs].
    inv_bind H as from_handle Hfrom. by injection H as <-.
  - destruct (cn_name u); by injection H as <-.
Qed.

Lemma group_conversation_registrations c st g st' :
  group_conversation X paths c st = Ok (g, st') ->
  registrations st' = registrations st.
Proof.
  unfold group_conversation. intros H.
  destruct (dmConversation c) as [dc|]; [|by injection H as <- <-].
  destruct (conversationId dc); [|by injection H as <- <-].
  inv_bind H as participants Hparticipants.
  inv_bind H as handles Hhandles.
  inv_bind H as tuple [[name gdms] st1] Hfold. injection H as <- <-.
  destruct (messages dc) as [ms|]; [|by injection Hfold as <- <- <-].
  apply (for_each_preserves (fun acc => registrations acc.2)) in Hfold;
    [done|].
  intros m s1 s2. apply group_message_step_registrations.
Qed.

Lemma _get_group_direct_messages_registrations a st groups st' :
  _get_group_direct_messages X paths a st = Ok (groups, st') ->
  registrations st' = registrations st.
Proof.
  unfold _get_group_direct_messages. intros H.
  apply (for_each_preserves (fun acc => registrations acc.2)) in H; [done|].
  intros c [groups1 s1] acc2 Hc.
  inv_bind Hc as tuple [g s2] Hg.
  apply group_conversation_registrations in Hg.
  by destruct g; injection Hc as <-.
Qed.

End Trace.

Lemma discovery_precedes_bulk_app (discovered resolved : list registration) :
  Forall is_discovery discovered -> Forall is_bulk resolved ->
  discovery_precedes_bulk (discovered ++ resolved).
Proof.
  intros Hd Hr i j r r' Hi Hdisc Hj Hbulk.
  rewrite Forall_forall in Hd, Hr.
  assert (i < length discovered).
  { destruct (decide (i < length discovered)); [done|].
    rewrite lookup_app_r in Hi by lia.
    apply list_elem_of_lookup_2, Hr in Hi. by destruct r. }
  assert (length discovered <= j).
  { destruct (decide (length discovered <= j)); [done|].
    rewrite lookup_app_l in Hj by lia.
    apply list_elem_of_lookup_2, Hd in Hj. by destruct r'. }
  lia.
Qed.

(** C1, as the code has it: the registry starts empty and is written in the
    order discovery, then bulk lookup. The tweets are converted first, and
    every write made meanwhile is a discovery; the ids of the four sources
    are looked up next, against the registry that the discoveries left, and
    every write made meanwhile is one of the lookup; the follow edges and
    the conversations are built last, from the registry that the lookup
    left, and write nothing. So every discovery comes before every write of
    the lookup. *)
Theorem discoveries_precede_the_lookup (X : Externals) (paths : PathConfig)
    (owner : str) (a : Archive) (fs : gset str) (self : TwitterDataParser) :
  TwitterDataParser_init X paths owner a fs = Ok self ->
  exists st1 ids discovered resolved,
    users (initial_state fs) = ∅
    /\ _get_tweets X paths owner (tweet_files a) (initial_state fs)
       = Ok (self_tweets self, st1)
    /\ registrations st1 = discovered
    /\ Forall is_discovery discovered
    /\ collected_user_ids X a = Ok ids
    /\ registrations (_lookup_users X ids st1) = discovered ++ resolved
    /\ Forall is_bulk resolved
    /\ _get_following_users a (_lookup_users X ids st1)
       = Ok (self_following self)
    /\ _get_followers_users a (_lookup_users X ids st1)
       = Ok (self_followers self)
    /\ registrations (self_state self) = discovered ++ resolved
    /\ discovery_precedes_bulk (registrations (self_state self)).
Proof.
  unfold TwitterDataParser_init. intros H.
  inv_bind H as tuple [tweets st1] Htweets.
  inv_bind H as st2 Hbulk.
  inv_bind H as following Hfollowing. inv_bind H as followers Hfollowers.
  inv_bind H as tuple [dms st3] Hdms.
  inv_bind H as tuple [groups st4] Hgroups.
  injection H as <-. simpl.
  unfold _bulk_look_up_for_user_handles in Hbulk.
  inv_bind Hbulk as ids Hids. injection Hbulk as <-.
  destruct (_get_tweets_grows X paths owner _ _ _ _ Htweets)
    as (discovered & Hdiscovered & Hd).
  destruct (_lookup_users_grows X ids st1) as (resolved & Hresolved & Hr).
  simpl in Hdiscovered. rewrite Hdiscovered in Hresolved.
  apply _get_direct_messages_registrations in Hdms.
  apply _get_group_direct_messages_registrations in Hgroups.
  assert (Hfinal : registrations st4 = discovered ++ resolved)
    by (by rewrite Hgroups, Hdms).
  exists st1, ids, discovered, resolved.
  repeat split; try done.
  rewrite Hfinal. by apply discovery_precedes_bulk_app.
Qed.

Lemma discoveries_precede_the_lookup_witness :
  exists self,
    Examples.run Examples.lookup_archive = Ok self
    /\ registrations (self_state self)
       = [Discovered (lit "7") (lit "bob");
          BulkResolved (lit "9") (lit "user9");
          BulkResolved (lit "8") (lit "user8");
          BulkResolved (lit "11") (lit "user11");
          BulkResolved (lit "10") (lit "user10")]
    /\ discovery_precedes_bulk (registrations (self_state self)).
Proof.
  destruct (Examples.run Examples.lookup_archive) as [self|e] eqn:Hrun;
    [|vm_compute in Hrun; discriminate Hrun].
  exists self. split; [done|].
  destruct (discoveries_precede_the_lookup Model.env Model.paths (lit "alice")
              Examples.lookup_archive ∅ self Hrun)
    as (st1 & ids & discovered & resolved & _ & _ & _ & _ & _ & _ & _ & _
        & _ & _ & Horder).
  split; [|exact Horder].
  vm_compute in Hrun. injection Hrun as <-. reflexivity.
Defined.

(** C1 as it is stated fails: in the run over [lookup_archive] the account
    7 is discovered in a tweet before the lookup resolves the accounts 9,
    8, 11 and 10, so that a write of the lookup (the second of the trace)
    comes after a discovery (the first). *)
Lemma a_discovery_precedes_a_lookup_write :
  exists self,
    Examples.run Examples.lookup_archive = Ok self
    /\ registrations (self_state self) !! 0
       = Some (Discovered (lit "7") (lit "bob"))
    /\ registrations (self_state self) !! 1
       = Some (BulkResolved (lit "9") (lit "user9"))
    /\ ~ bulk_precedes_discovery (registrations (self_state self)).
Proof.
  eexists. split; [vm_compute; reflexivity|].
  split; [reflexivity|]. split; [reflexivity|].
  intros Hclaim.
  specialize (Hclaim 1 0 (BulkResolved (lit "9") (lit "user9"))
                (Discovered (lit "7") (lit "bob")) eq_refl I eq_refl I).
  lia.
Qed.

(** * More of the parser *)

(** ** What leaves the registry as it is *)

Section Untouched.

Variable X : Externals.
Variable paths : PathConfig.
Variable owner : str.

Lemma save_best_quality_users tweet u e p f m media st st' :
  save_best_quality paths tweet u e p f m media st = Ok st' ->
  users st' = users st /\ files st' = files st.
Proof.
  unfold save_best_quality. intros H.
  destruct (med_video_info media) as [vi|]; [|by injection H as <-].
  destruct (vi_variants vi) as [variants|]; [|by injection H as <-].
  inv_bind H as tuple [url bitrate] Hbest.
  case_bool_decide; by injection H as <-.
Qed.

Lemma fallback_file_users tweet u e media p acc acc' :
  fallback_file X paths tweet u e media p acc = Ok acc' ->
  users acc'.2 = users acc.2.
Proof.
  unfold fallback_file. destruct acc as [markdown st]. intros H.
  inv_bind H as st1 Hsave. injection H as <-.
  apply save_best_quality_users in Hsave as [Husers _]. simpl.
  rewrite Husers. by destruct (isfile st _).
Qed.

Lemma media_step_users tweet id u media acc acc' :
  media_step X paths tweet id u media acc = Ok acc' ->
  users acc'.2 = users acc.2.
Proof.
  unfold media_step. destruct acc as [markdown st]. intros H.
  destruct (med_url media); [|by injection H as <-].
  destruct (med_media_url media) as [expanded|]; [|by injection H as <-].
  destruct (isfile st _).
  - inv_bind H as best Hbest. injection H as <-. simpl.
    by destruct (isfile st _).
  - case_bool_decide; [|by injection H as <-].
    apply (for_each_preserves (fun acc => users acc.2)) in H; [done|].
    intros p s1 s2. apply fallback_file_users.
Qed.

Lemma attach_media_users tweet id body st body' attached st' :
  attach_media X paths tweet id body st = Ok (body', attached, st') ->
  users st' = users st.
Proof.
  unfold attach_media. intros H.
  destruct (tw_entities tweet) as [ents|]; [|by injection H as <- <- <-].
  destruct (tw_extended_entities tweet) as [ext|];
    [|by injection H as <- <- <-].
  destruct (ent_media ents) as [entity_media|]; [|by injection H as <- <- <-].
  destruct (ext_media ext) as [extended_media|];
    [|by injection H as <- <- <-].
  inv_bind H as first Hfirst. inv_bind H as original_url Hurl.
  inv_bind H as tuple [markdown st2] Hloop. injection H as <- <- <-.
  apply (for_each_preserves (fun acc => users acc.2)) in Hloop; [done|].
  intros media s1 s2. apply media_step_users.
Qed.

Lemma direct_message_step_users m acc acc' :
  direct_message_step X paths m acc = Ok acc' -> users acc'.2 = users acc.2.
Proof.
  unfold direct_message_step. destruct acc as [dms st]. intros H.
  destruct m as [mc| | | |]; try by injection H as <-.
  destruct (mc_senderId mc); [|by injection H as <-].
  destruct (mc_recipientId mc); [|by injection H as <-].
  destruct (mc_text mc); [|by injection H as <-].
  destruct (mc_createdAt mc); [|by injection H as <-].
  inv_bind H as tuple [body st1] Hmedia.
  apply attach_dm_media_users in Hmedia as [Husers _].
  inv_bind H as to_handle Hto. inv_bind H as from_handle Hfrom.
  by injection H as <-.
Qed.

Lemma _get_direct_messages_users a st dms st' :
  _get_direct_messages X paths a st = Ok (dms, st') -> users st' = users st.
Proof.
  unfold _get_direct_messages. intros H.
  apply (for_each_preserves (fun acc => users acc.2)) in H; [done|].
  intros c acc1 acc2 Hc.
  destruct (dmConversation c) as [dc|]; [|by injection Hc as <-].
  destruct (conversationId dc); [|by injection Hc as <-].
  destruct (messages dc) as [ms|]; [|by injection Hc as <-].
  apply (for_each_preserves (fun acc => users acc.2)) in Hc; [done|].
  intros m s1 s2. apply direct_message_step_users.
Qed.

Lemma group_message_step_users m acc acc' :
  group_message_step X paths m acc = Ok acc' -> users acc'.2 = users acc.2.
Proof.
  unfold group_message_step. destruct acc as [[name gdms] st]. intros H.
  destruct m as [mc| | |u|]; try by injection H as <-.
  - destruct (mc_senderId mc); [|by injection H as <-].
    destruct (mc_text mc); [|by injection H as <-].
    destruct (mc_createdAt mc); [|by injection H as <-].
    inv_bind H as tuple [body st1] Hmedia.
    apply attach_dm_media_users in Hmedia as [Husers _].
    inv_bind H as from_handle Hfrom. by injection H as <-.
  - destruct (cn_name u); by injection H as <-.
Qed.

Lemma group_conversation_users c st g st' :
  group_conversation X paths c st = Ok (g, st') -> users st' = users st.
Proof.
  unfold group_conversation. intros H.
  destruct (dmConversation c) as [dc|]; [|by injection H as <- <-].
  destruct (conversationId dc); [|by injection H as <- <-].
  inv_bind H as participants Hparticipants.
  inv_bind H as handles Hhandles.
  inv_bind H as tuple [[name gdms] st1] Hfold. injection H as <- <-.
  destruct (messages dc) as [ms|]; [|by injection Hfold as <- <- <-].
  apply (for_each_preserves (fun acc => users acc.2)) in Hfold; [done|].
  intros m s1 s2. apply group_message_step_users.
Qed.

Lemma _get_group_direct_messages_users a st groups st' :
  _get_group_direct_messages X paths a st = Ok (groups, st') ->
  users st' = users st.
Proof.
  unfold _get_group_direct_messages. intros H.
  apply (for_each_preserves (fun acc => users acc.2)) in H; [done|].
  intros c [groups1 s1] acc2 Hc.
  inv_bind Hc as tuple [g s2] Hg.
  apply group_conversation_users in Hg.
  by destruct g; injection Hc as <-.
Qed.

(** The steps of [__init__] that returned. *)
Lemma TwitterDataParser_init_Ok (a : Archive) (fs : gset str)
    (self : TwitterDataParser) :
  TwitterDataParser_init X paths owner a fs = Ok self ->
  exists st1 ids st3,
    _get_tweets X paths owner (tweet_files a) (initial_state fs)
    = Ok (self_tweets self, st1)
    /\ collected_user_ids X a = Ok ids
    /\ self_following self
       = map (edge_of (_lookup_users X ids st1))
             (collect_account_ids (following_json a))
    /\ self_followers self
       = map (edge_of (_lookup_users X ids st1))
             (collect_account_ids (follower_json a))
    /\ _get_direct_messages X paths a (_lookup_users X ids st1)
       = Ok (self_direct_messages self, st3)
    /\ _get_group_direct_messages X paths a st3
       = Ok (self_group_direct_messages self, self_state self)
    /\ users (self_state self) = users (_lookup_users X ids st1).
Proof.
  unfold TwitterDataParser_init. intros H.
  inv_bind H as tuple [tweets st1] Htweets.
  inv_bind H as st2 Hbulk.
  inv_bind H as following Hfollowing. inv_bind H as followers Hfollowers.
  inv_bind H as tuple [dms st3] Hdms.
  inv_bind H as tuple [groups st4] Hgroups.
  injection H as <-. simpl.
  unfold _bulk_look_up_for_user_handles in Hbulk.
  inv_bind Hbulk as ids Hids. injection Hbulk as <-.
  unfold _get_following_users in Hfollowing.
  unfold _get_followers_users in Hfollowers.
  rewrite follow_edges_eq in Hfollowing, Hfollowers.
  injection Hfollowing as <-. injection Hfollowers as <-.
  exists st1, ids, st3. repeat split; try done.
  apply _get_direct_messages_users in Hdms.
  apply _get_group_direct_messages_users in Hgroups. congruence.
Qed.

End Untouched.

(** ** Follow edges and counts *)

Lemma collect_account_ids_omap (l : list follow_json) :
  collect_account_ids l = omap account_id l.
Proof.
  unfold collect_account_ids.
  assert (H : forall acc,
             foldl (fun ids follow =>
                      match fj_account follow with
                      | Some (Some id) => ids ++ [id]
                      | _ => ids
                      end) acc l
             = acc ++ omap account_id l); [|apply (H [])].
  induction l as [|f l IH]; intros acc; simpl; [by rewrite app_nil_r|].
  rewrite IH. unfold account_id.
  destruct (fj_account f) as [[id|]|]; simpl; by rewrite <- ?app_assoc.
Qed.

Lemma edge_of_users (st st' : state) (id : str) :
  users st' = users st -> edge_of st' id = edge_of st id.
Proof. unfold edge_of, handle_or. by intros ->. Qed.

(** X1. The following and the followers that a run returns are the entries of
    [following.js] and [follower.js] that carry an account id, in the
    order of the files, each with the profile URL of its id and the handle
    that the registry holds for the id when the run ends, or the sentinel;
    the two counts are the numbers of those entries. *)
Theorem follow_edges_follow_the_files (X : Externals) (paths : PathConfig)
    (owner : str) (a : Archive) (fs : gset str) (self : TwitterDataParser) :
  TwitterDataParser_init X paths owner a fs = Ok self ->
  let info := retrieve_information owner self in
  following info
  = Some (map (edge_of (self_state self)) (omap account_id (following_json a)))
  /\ followers info
     = Some (map (edge_of (self_state self))
               (omap account_id (follower_json a)))
  /\ following_count info = length (omap account_id (following_json a))
  /\ follower_count info = length (omap account_id (follower_json a)).
Proof.
  intros H. apply TwitterDataParser_init_Ok in H.
  destruct H as (st1 & ids & st3 & _ & _ & Hfollowing & Hfollowers & _ & _
                 & Husers).
  simpl. rewrite Hfollowing, Hfollowers, !collect_account_ids_omap.
  rewrite !length_map.
  repeat split; try done; f_equal; apply map_ext; intros id;
    symmetry; by apply edge_of_users.
Qed.

Lemma follow_edges_follow_the_files_witness :
  exists self,
    Examples.run Examples.lookup_archive = Ok self
    /\ following (retrieve_information (lit "alice") self)
       = Some [ {| user_handle := Some (lit "user8");
                   user_profile_url :=
                     Some (lit "https://twitter.com/i/user/8") |} ]
    /\ following_count (retrieve_information (lit "alice") self) = 1
    /\ follower_count (retrieve_information (lit "alice") self) = 2.
Proof.
  destruct (Examples.run Examples.lookup_archive) as [self|e] eqn:Hrun;
    [|vm_compute in Hrun; discriminate Hrun].
  exists self. split; [done|].
  destruct (follow_edges_follow_the_files Model.env Model.paths (lit "alice")
              Examples.lookup_archive ∅ self Hrun)
    as (Hfollowing & _ & Hcount & Hcount').
  rewrite Hfollowing, Hcount, Hcount'.
  vm_compute in Hrun. injection Hrun as <-.
  split; [vm_compute; reflexivity|]. by split.
Defined.

(** ** Direct messages and group conversations *)

(** A loop whose steps append to a list what they make of their element
    appends what they make of all the elements, in order. *)
Lemma for_each_emits {A B C S} (out : S -> list B) (Inv : S -> Prop)
    (sel : A -> list C) (R : C -> B -> Prop)
    (body : A -> S -> result S) (xs : list A) (s s' : S) :
  (forall x s1 s2, body x s1 = Ok s2 -> Inv s1 ->
     Inv s2 /\ exists new, out s2 = out s1 ++ new /\ Forall2 R (sel x) new) ->
  for_each body xs s = Ok s' -> Inv s ->
  Inv s' /\ exists new, out s' = out s ++ new
                        /\ Forall2 R (flat_map sel xs) new.
Proof.
  intros Hbody. revert s.
  induction xs as [|x xs IH]; intros s H Hinv; simpl in H.
  - injection H as <-. split; [done|]. exists []. by rewrite app_nil_r.
  - inv_bind H as s1 Hs1.
    destruct (Hbody x s s1 Hs1 Hinv) as (Hinv1 & new1 & Hout1 & Hnew1).
    destruct (IH s1 H Hinv1) as (Hinv' & new & Hout & Hnew).
    split; [done|]. exists (new1 ++ new).
    split; [by rewrite Hout, Hout1, app_assoc|]. simpl.
    by apply Forall2_app.
Qed.

Section Messages.

Variable X : Externals.
Variable paths : PathConfig.

Lemma resolve_users (st st' : state) (id : str) :
  users st' = users st -> resolve st' id = resolve st id.
Proof. unfold resolve, handle_or. by intros ->. Qed.

Lemma direct_message_step_emits (st0 : state) (m : message)
    (acc acc' : list DirectMessage * state) :
  direct_message_step X paths m acc = Ok acc' ->
  users acc.2 = users st0 ->
  users acc'.2 = users st0
  /\ exists new, acc'.1 = acc.1 ++ new
                 /\ Forall2 (dm_of st0) (option_list (complete_dm m)) new.
Proof.
  intros H Hinv. pose proof (direct_message_step_users X paths m acc acc' H)
    as Husers.
  split; [congruence|].
  unfold direct_message_step in H. destruct acc as [dms st].
  unfold complete_dm.
  destruct m as [mc| | | |];
    try (injection H as <-; exists []; by rewrite app_nil_r).
  destruct (mc_senderId mc) as [from_id|] eqn:Hfrom;
    [|injection H as <-; exists []; by rewrite app_nil_r].
  destruct (mc_recipientId mc) as [to_id|] eqn:Hto;
    [|injection H as <-; exists []; by rewrite app_nil_r].
  destruct (mc_text mc) as [text|] eqn:Htext;
    [|injection H as <-; exists []; by rewrite app_nil_r].
  destruct (mc_createdAt mc) as [created|] eqn:Hcreated;
    [|injection H as <-; exists []; by rewrite app_nil_r].
  inv_bind H as tuple [body st1] Hmedia.
  apply attach_dm_media_users in Hmedia as [Hst1 _].
  rewrite !message_handle_eq in H. cbn [mbind result_bind] in H.
  injection H as <-. eexists. split; [done|].
  constructor; [|constructor].
  unfold dm_of. simpl in *. rewrite Hcreated, Hfrom, Hto. simpl.
  repeat split; f_equal; symmetry; apply resolve_users; congruence.
Qed.

Lemma flat_map_option_list {A B} (f : A -> option B) (l : list A) :
  flat_map (fun x => option_list (f x)) l = omap f l.
Proof.
  induction l as [|x l IH]; simpl; [done|]. rewrite IH. by destruct (f x).
Qed.

Lemma conversation_step_emits (st0 : state) (c : conversation_json)
    (acc acc' : list DirectMessage * state) :
  match dmConversation c with
  | Some dc =>
      match conversationId dc, messages dc with
      | Some _, Some ms => for_each (direct_message_step X paths) ms acc
      | _, _ => Ok acc
      end
  | None => Ok acc
  end = Ok acc' ->
  users acc.2 = users st0 ->
  users acc'.2 = users st0
  /\ exists new, acc'.1 = acc.1 ++ new
                 /\ Forall2 (dm_of st0) (complete_dms c) new.
Proof.
  unfold complete_dms. intros H Hinv.
  destruct (dmConversation c) as [dc|];
    [|injection H as <-; split; [done|]; exists []; by rewrite app_nil_r].
  destruct (conversationId dc);
    [|injection H as <-; split; [done|]; exists []; by rewrite app_nil_r].
  destruct (messages dc) as [ms|];
    [|injection H as <-; split; [done|]; exists []; by rewrite app_nil_r].
  rewrite <- flat_map_option_list.
  apply (for_each_emits fst (fun acc => users acc.2 = users st0)
           (fun m => option_list (complete_dm m)) (dm_of st0)) in H; [done| |done].
  intros m s1 s2. apply direct_message_step_emits.
Qed.

(** X2. The direct messages of a run are the complete messages of the
    pairwise conversations (a [messageCreate] with sender, recipient, text
    and time, in a conversation that has an id), in the order of the file;
    every other event is passed over without an error. Each carries the
    time of its event, and as its two handles those that the registry holds
    when the conversations are reached, or the profile URLs of the ids; the
    registry is left as it is. *)
Theorem direct_messages_follow_the_file (a : Archive) (st st' : state)
    (dms : list DirectMessage) :
  _get_direct_messages X paths a st = Ok (dms, st') ->
  Forall2 (dm_of st) (flat_map complete_dms (dms_json a)) dms
  /\ users st' = users st.
Proof.
  unfold _get_direct_messages. intros H.
  apply (for_each_emits fst (fun acc => users acc.2 = users st)
           complete_dms (dm_of st)) in H; [| |done].
  - destruct H as (Husers & new & Hnew & Hall). simpl in *. by subst.
  - intros c s1 s2. apply conversation_step_emits.
Qed.

Lemma group_message_step_emits (st0 : state) (m : message)
    (acc acc' : option str * list GroupDirectMessage * state) :
  group_message_step X paths m acc = Ok acc' ->
  users acc.2 = users st0 ->
  users acc'.2 = users st0
  /\ exists new, acc'.1.2 = acc.1.2 ++ new
                 /\ Forall2 (group_dm_of st0)
                      (option_list (complete_group_dm m)) new.
Proof.
  intros H Hinv.
  pose proof (group_message_step_users X paths m acc acc' H) as Husers.
  split; [congruence|].
  unfold group_message_step in H. destruct acc as [[name gdms] st].
  unfold complete_group_dm.
  destruct m as [mc| | |u|];
    try (injection H as <-; exists []; by rewrite app_nil_r).
  - destruct (mc_senderId mc) as [from_id|] eqn:Hfrom;
      [|injection H as <-; exists []; by rewrite app_nil_r].
    destruct (mc_text mc) as [text|] eqn:Htext;
      [|injection H as <-; exists []; by rewrite app_nil_r].
    destruct (mc_createdAt mc) as [created|] eqn:Hcreated;
      [|injection H as <-; exists []; by rewrite app_nil_r].
    inv_bind H as tuple [body st1] Hmedia.
    apply attach_dm_media_users in Hmedia as [Hst1 _].
    rewrite !message_handle_eq in H. cbn [mbind result_bind] in H.
    injection H as <-. eexists. split; [done|].
    constructor; [|constructor].
    unfold group_dm_of. simpl in *. rewrite Hcreated, Hfrom. simpl.
    repeat split; f_equal; symmetry; apply resolve_users; congruence.
  - destruct (cn_name u); injection H as <-; exists [];
      by rewrite app_nil_r.
Qed.

(** The name after a run of events: that of the last event that gives
    one, or the name before. *)
Lemma group_messages_name (ms : list message)
    (acc acc' : option str * list GroupDirectMessage * state) :
  for_each (group_message_step X paths) ms acc = Ok acc' ->
  acc'.1.1 = match last (omap name_update ms) with
             | Some name => Some name
             | None => acc.1.1
             end.
Proof.
  revert acc. induction ms as [|m ms IH]; intros acc H; simpl in H.
  - by injection H as <-.
  - inv_bind H as acc1 Hstep. rewrite (IH acc1 H).
    assert (Hname : acc1.1.1 = match name_update m with
                                | Some name => Some name
                                | None => acc.1.1
                                end).
    { unfold group_message_step in Hstep. destruct acc as [[name gdms] st].
      destruct m as [mc| | |u|]; simpl; try by injection Hstep as <-.
      - destruct (mc_senderId mc); [|by injection Hstep as <-].
        destruct (mc_text mc); [|by injection Hstep as <-].
        destruct (mc_createdAt mc); [|by injection Hstep as <-].
        inv_bind Hstep as tuple [body st1] Hmedia.
        inv_bind Hstep as h Hh. by injection Hstep as <-.
      - destruct (cn_name u); by injection Hstep as <-. }
    simpl. destruct (name_update m) as [name|]; simpl.
    + rewrite Hname, last_cons.
      change (list_omap _ _ name_update ms) with (omap name_update ms).
      by destruct (last (omap name_update ms)).
    + by rewrite Hname.
Qed.

(** One group conversation that gave an entry. *)
Lemma group_conversation_Ok (c : conversation_json) (st st' : state)
    (g : GroupDirectMessages) :
  group_conversation X paths c st = Ok (Some g, st') ->
  users st' = users st
  /\ with_id c
  /\ group_name g = last (omap name_update (events c))
  /\ exists l, group_dms g = Some l
               /\ Forall2 (group_dm_of st) (complete_group_dms c) l.
Proof.
  intros H.
  pose proof (group_conversation_users X paths c st (Some g) st' H).
  split; [done|].
  unfold group_conversation in H. unfold with_id, complete_group_dms, events.
  destruct (dmConversation c) as [dc|]; [|done]. simpl.
  destruct (conversationId dc); [|done]. split; [done|].
  inv_bind H as participants Hparticipants.
  inv_bind H as handles Hhandles.
  inv_bind H as tuple [[name gdms] st1] Hfold. injection H as <- <-.
  simpl.
  destruct (messages dc) as [ms|];
    [|injection Hfold as <- <- <-; split; [done|]; exists []; by split].
  simpl. split.
  - apply group_messages_name in Hfold. simpl in Hfold. rewrite Hfold.
    by destruct (last _).
  - exists gdms. split; [done|]. rewrite <- flat_map_option_list.
    apply (for_each_emits (fun acc => acc.1.2)
             (fun acc => users acc.2 = users st)
             (fun m => option_list (complete_group_dm m)) (group_dm_of st))
      in Hfold; [| |done].
    + destruct Hfold as (_ & new & Hnew & Hall). simpl in Hnew. by subst.
    + intros m s1 s2. apply group_message_step_emits.
Qed.

(** A conversation without an id gives no entry. *)
Lemma group_conversation_None (c : conversation_json) (st st' : state) :
  group_conversation X paths c st = Ok (None, st') -> ~ with_id c.
Proof.
  unfold group_conversation, with_id. intros H.
  destruct (dmConversation c) as [dc|]; simpl; [|by intros []].
  destruct (conversationId dc); [|by intros []].
  inv_bind H as participants Hparticipants.
  inv_bind H as handles Hhandles.
  by inv_bind H as tuple [[name gdms] st1] Hfold.
Qed.

Lemma flat_map_filter {A} (P : A -> Prop) `{!forall x, Decision (P x)}
    (l : list A) :
  flat_map (fun x => filter P [x]) l = filter P l.
Proof.
  induction l as [|x l IH]; [done|]. cbn [flat_map].
  rewrite IH, !filter_cons, filter_nil. by destruct (decide (P x)).
Qed.

(** All the group conversations: one entry for each conversation that
    has an id. *)
Lemma _get_group_direct_messages_Ok (R : state -> conversation_json ->
                                         GroupDirectMessages -> Prop)
    (a : Archive) (st st' : state) (groups : list GroupDirectMessages) :
  (forall c s s' g, group_conversation X paths c s = Ok (Some g, s') ->
                    users s = users st -> R st c g) ->
  _get_group_direct_messages X paths a st = Ok (groups, st') ->
  Forall2 (R st) (filter with_id (group_dms_json a)) groups.
Proof.
  intros HR. unfold _get_group_direct_messages. intros H.
  apply (for_each_emits fst (fun acc => users acc.2 = users st)
           (fun c => filter with_id [c]) (R st)) in H; [| |done].
  - destruct H as (_ & new & Hnew & Hall). simpl in Hnew. subst new.
    by rewrite flat_map_filter in Hall.
  - intros c [groups1 s1] s2 Hc Hinv.
    inv_bind Hc as tuple [g s3] Hg. simpl in Hinv.
    pose proof (group_conversation_users X paths c s1 g s3 Hg) as Husers.
    rewrite filter_cons, filter_nil. destruct g as [g|]; injection Hc as <-.
    + destruct (group_conversation_Ok c s1 s3 g Hg) as (_ & Hid & _).
      rewrite decide_True by done. simpl.
      split; [congruence|]. exists [g]. split; [done|].
      constructor; [|constructor]. by eapply HR.
    + apply group_conversation_None in Hg. rewrite decide_False by done.
      simpl. split; [congruence|]. exists []. by rewrite app_nil_r.
Qed.

Lemma group_dm_of_users (st st' : state) mc gdm :
  users st' = users st -> group_dm_of st' mc gdm -> group_dm_of st mc gdm.
Proof.
  unfold group_dm_of, resolve, handle_or. by intros ->.
Qed.

(** X3. A run has one group conversation for each conversation of the
    file that has its id, in order; a conversation without an id gives no
    entry. The messages of an entry are the complete messages of its
    conversation (a [messageCreate] with sender, text and time), in the
    order of the stream, each with the time of its event and the handle
    of its sender as the registry resolves it, or the profile URL of the
    id; the events of the other kinds give no message. *)
Theorem group_messages_follow_the_stream (a : Archive) (st st' : state)
    (groups : list GroupDirectMessages) :
  _get_group_direct_messages X paths a st = Ok (groups, st') ->
  Forall2 (fun c g =>
             exists l, group_dms g = Some l
                       /\ Forall2 (group_dm_of st) (complete_group_dms c) l)
          (filter with_id (group_dms_json a)) groups.
Proof.
  apply (_get_group_direct_messages_Ok
           (fun st c g =>
              exists l, group_dms g = Some l
                        /\ Forall2 (group_dm_of st) (complete_group_dms c) l)).
  intros c s s' g Hg Hs.
  destruct (group_conversation_Ok c s s' g Hg) as (_ & _ & _ & l & Hl & Hall).
  exists l. split; [done|].
  eapply Forall2_impl; [done|]. intros mc gdm. by apply group_dm_of_users.
Qed.

(** X4. The name of the entry of a group conversation is the name of the
    last event of its stream that renames it; the entry of a conversation
    that no event names has no name. The entries are those of the
    conversations that have an id, in the order of the file. *)
Theorem group_name_is_the_last_update (a : Archive) (st st' : state)
    (groups : list GroupDirectMessages) :
  _get_group_direct_messages X paths a st = Ok (groups, st') ->
  Forall2 (fun c g => group_name g = last (omap name_update (events c)))
          (filter with_id (group_dms_json a)) groups.
Proof.
  apply (_get_group_direct_messages_Ok
           (fun _ c g => group_name g = last (omap name_update (events c)))).
  intros c s s' g Hg _.
  by destruct (group_conversation_Ok c s s' g Hg) as (_ & _ & Hname & _).
Qed.

End Messages.

Lemma direct_messages_follow_the_file_witness :
  exists dms st',
    _get_direct_messages Model.offline Model.paths More.chat_archive
      (initial_state ∅) = Ok (dms, st')
    /\ Forall2 (dm_of (initial_state ∅))
         (flat_map complete_dms (dms_json More.chat_archive)) dms
    /\ dms = [ {| dm_from := lit "https://twitter.com/i/user/1";
                  dm_to := lit "https://twitter.com/i/user/2";
                  dm_data := lit "hi "; dm_at := More.time1 |};
               {| dm_from := lit "https://twitter.com/i/user/2";
                  dm_to := lit "https://twitter.com/i/user/1";
                  dm_data := lit "hello there "; dm_at := More.time2 |} ].
Proof.
  destruct (_get_direct_messages Model.offline Model.paths More.chat_archive
              (initial_state ∅)) as [[dms st']|e] eqn:Hrun;
    [|vm_compute in Hrun; discriminate Hrun].
  exists dms, st'. split; [done|].
  split.
  - exact (proj1 (direct_messages_follow_the_file Model.offline Model.paths
                    More.chat_archive (initial_state ∅) st' dms Hrun)).
  - vm_compute in Hrun. by injection Hrun as <- <-.
Defined.

Lemma group_messages_follow_the_stream_witness :
  exists groups st',
    _get_group_direct_messages Model.offline Model.paths More.chat_archive
      (initial_state ∅) = Ok (groups, st')
    /\ Forall2 (fun c g =>
                  exists l, group_dms g = Some l
                            /\ Forall2 (group_dm_of (initial_state ∅))
                                 (complete_group_dms c) l)
         (filter with_id (group_dms_json More.chat_archive)) groups
    /\ length (group_dms_json More.chat_archive) = 2
    /\ map (fun g => option_map (map group_dm_data) (group_dms g)) groups
       = [Some [lit "where to? "; lit "north "]].
Proof.
  destruct (_get_group_direct_messages Model.offline Model.paths
              More.chat_archive (initial_state ∅))
    as [[groups st']|e] eqn:Hrun;
    [|vm_compute in Hrun; discriminate Hrun].
  exists groups, st'. split; [done|].
  split.
  - exact (group_messages_follow_the_stream Model.offline Model.paths
             More.chat_archive (initial_state ∅) st' groups Hrun).
  - split; [done|]. vm_compute in Hrun. by injection Hrun as <- <-.
Defined.

Lemma group_name_is_the_last_update_witness :
  exists groups st',
    _get_group_direct_messages Model.offline Model.paths More.chat_archive
      (initial_state ∅) = Ok (groups, st')
    /\ Forall2 (fun c g => group_name g = last (omap name_update (events c)))
         (filter with_id (group_dms_json More.chat_archive)) groups
    /\ length (group_dms_json More.chat_archive) = 2
    /\ map group_name groups = [Some (lit "Trip 2024")].
Proof.
  destruct (_get_group_direct_messages Model.offline Model.paths
              More.chat_archive (initial_state ∅))
    as [[groups st']|e] eqn:Hrun;
    [|vm_compute in Hrun; discriminate Hrun].
  exists groups, st'. split; [done|].
  split.
  - exact (group_name_is_the_last_update Model.offline Model.paths
             More.chat_archive (initial_state ∅) st' groups Hrun).
  - split; [done|]. vm_compute in Hrun. by injection Hrun as <- <-.
Defined.

(** ** The body of a post *)

Lemma split_cons (c : char) (s : str) :
  Py.split (c :: s)
  = if Py.isspace c then Py.split s
    else if Py.starts_nonspace s then
           match Py.split s with
           | w :: ws => (c :: w) :: ws
           | [] => [[c]]
           end
         else [c] :: Py.split s.
Proof. reflexivity. Qed.

(** The words that [split] returns are words. *)
Lemma split_words (s : str) : Forall word (Py.split s).
Proof.
  induction s as [|c s IH]; [constructor|]. rewrite split_cons.
  destruct (Py.isspace c) eqn:Hc; [done|].
  destruct (Py.starts_nonspace s).
  - destruct (Py.split s) as [|w ws].
    + constructor; [|done]. split; [done|]. by constructor.
    + inversion IH as [|? ? [Hw Hchars] Hws]; subst.
      constructor; [|done]. split; [done|]. by constructor.
  - constructor; [|done]. split; [done|]. by constructor.
Qed.

(** A word, a whitespace and a rest split into the word and the words of
    the rest. *)
Lemma split_word_space (w : str) (sp : char) (rest : str) :
  word w -> Py.isspace sp = true ->
  Py.split (w ++ sp :: rest) = w :: Py.split rest.
Proof.
  intros [Hne Hchars] Hsp. induction Hchars as [|c w Hc Hw IH]; [done|].
  rewrite <- app_comm_cons, split_cons, Hc.
  destruct w as [|c' w].
  - simpl. rewrite Hsp. simpl. by rewrite split_cons, Hsp.
  - inversion Hw as [|? ? Hc' _]; subst. simpl. rewrite Hc'. simpl.
    rewrite app_comm_cons, IH by done. done.
Qed.

Lemma join_words_flat_map (words : list str) :
  join_words words = flat_map (fun w => w ++ [32%N]) words.
Proof.
  unfold join_words.
  assert (H : forall acc,
             foldl (fun body w => body ++ w ++ [32%N]) acc words
             = acc ++ flat_map (fun w => w ++ [32%N]) words);
    [|apply (H [])].
  induction words as [|w ws IH]; intros acc; simpl; [by rewrite app_nil_r|].
  rewrite IH. by rewrite <- !app_assoc.
Qed.

(** Joining words and splitting the result gives the words back. *)
Lemma split_join_words (words : list str) :
  Forall word words -> Py.split (join_words words) = words.
Proof.
  rewrite join_words_flat_map.
  induction 1 as [|w ws Hw _ IH]; simpl; [done|].
  rewrite <- app_assoc. simpl. rewrite split_word_space by done.
  by rewrite IH.
Qed.

Lemma skip_two_words_drop (words : list str) :
  skip_two_words words = join_words (drop 2 words).
Proof.
  unfold skip_two_words, join_words.
  assert (H : forall body ws,
             foldl (fun '(body_markdown, n) w =>
                      if (1 <? n)%nat then (body_markdown ++ w ++ [32%N], n)
                      else (body_markdown, S n)) (body, 2) ws
             = (foldl (fun b w => b ++ w ++ [32%N]) body ws, 2)).
  { intros body ws. revert body.
    induction ws as [|w ws IH]; intros body; simpl; [done|]. apply IH. }
  destruct words as [|w1 [|w2 ws]]; simpl; try done. by rewrite H.
Qed.

Section Body.

Variable X : Externals.
Variable paths : PathConfig.
Variable owner : str.

(** The steps of the conversion of a plain tweet that do nothing. *)
Lemma plain_tweet_steps (tweet : tweet_obj) (text id body : str)
    (ty : TweetType.t) (st : state) :
  plain tweet ->
  backfill_links X text tweet = Ok tweet
  /\ expand_links tweet body = body
  /\ reply_header owner tweet ty body = Ok (ty, None, None, body)
  /\ attach_media X paths tweet id body st = Ok (body, None, st)
  /\ discover_reply_target tweet st = Ok st
  /\ discover_mentions tweet st = Ok st.
Proof.
  intros (Hents & Hext & Hstatus & Hname & Huser).
  unfold backfill_links, expand_links, reply_header, attach_media,
    discover_reply_target, discover_mentions.
  by rewrite Hents, ?Hext, ?Hstatus, ?Huser.
Qed.

(** X5. The body of a plain post that is no retweet holds the words of
    [full_text], each followed by one space, whatever whitespace separated
    them: splitting the body gives the words of the text back. The post is
    a [TWEET], it attaches nothing, and its conversion changes neither the
    registry nor the files. *)
Theorem plain_body_keeps_the_words (tweet : tweet_json) (st st' : state)
    (t : Tweet) (text : str) :
  plain (unwrap tweet) ->
  full_text (unwrap tweet) = Some text ->
  head (Py.split text) <> Some RT ->
  _convert_tweet X paths owner tweet st = Ok (t, st') ->
  tweet_data t = flat_map (fun w => w ++ [32%N]) (Py.split text)
  /\ Py.split (tweet_data t) = Py.split text
  /\ tweet_type t = TweetType.TWEET
  /\ tweets_attached_media t = None
  /\ st' = st.
Proof.
  intros Hplain Htext HRT H. apply _convert_tweet_Ok in H.
  destruct H as (ts & text' & id & year & ty0 & rt & body0 & tweet' & ty
                 & names & reply_url & body1 & body2 & attached & st1 & st2
                 & Hts & Htext' & Hid & Hyear & Hrt & Hbackfill & Hreply
                 & Hmedia & Hdr & Hdm & ->).
  rewrite Htext in Htext'. injection Htext' as <-.
  destruct (plain_tweet_steps (unwrap tweet) text id body0 ty0 st Hplain)
    as (Hb & He & Hr & Hm & Hd1 & Hd2).
  rewrite Hb in Hbackfill. injection Hbackfill as <-.
  rewrite He, Hr in Hreply. injection Hreply as <- <- <- <-.
  rewrite Hm in Hmedia. injection Hmedia as <- <- <-.
  rewrite Hd1 in Hdr. injection Hdr as <-.
  rewrite Hd2 in Hdm. injection Hdm as <-.
  unfold retweet_header in Hrt.
  inv_bind Hrt as first Hfirst. apply index_Ok in Hfirst.
  rewrite <- head_lookup in Hfirst.
  case_bool_decide as Hfirst'; [congruence|].
  injection Hrt as <- <- <-. simpl.
  rewrite <- join_words_flat_map.
  repeat split. apply split_join_words, split_words.
Qed.

End Body.

Lemma plain_body_keeps_the_words_witness :
  exists t st',
    Examples.convert (Examples.plain_tweet (lit "8") (lit "  two   words "))
    = Ok (t, st')
    /\ tweet_data t = lit "two words "
    /\ Py.split (tweet_data t) = Py.split (lit "  two   words ").
Proof.
  destruct (Examples.convert
              (Examples.plain_tweet (lit "8") (lit "  two   words ")))
    as [[t st']|e] eqn:Hconv; [|vm_compute in Hconv; discriminate Hconv].
  exists t, st'. split; [done|].
  destruct (plain_body_keeps_the_words Model.env Model.paths (lit "alice")
              (Bare (Examples.plain_tweet (lit "8") (lit "  two   words ")))
              (initial_state ∅) st' t (lit "  two   words "))
    as (Hbody & Hsplit & _); [by repeat split|done| |exact Hconv|].
  - vm_compute. discriminate.
  - split; [|exact Hsplit]. rewrite Hbody. reflexivity.
Defined.

(** ** The first lines of [_convert_tweet] *)

Lemma index_ge {A} (l : list A) (i : nat) :
  length l <= i -> index l i = Raise IndexError.
Proof. intros Hi. unfold index. by rewrite lookup_ge_None_2. Qed.

Lemma removelast_take {A} (l : list A) :
  take (length l - 1) l = removelast l.
Proof.
  induction l as [|a [|b l] IH]; [done|done|].
  change (removelast (a :: b :: l)) with (a :: removelast (b :: l)).
  rewrite <- IH. simpl. by rewrite Nat.sub_0_r.
Qed.

(** [h[1:len(h) - 1]] is [h] without its first and its last code point. *)
Lemma slice_middle (h : str) :
  slice h 1 (length h - 1) = removelast (tail h).
Proof.
  unfold slice. destruct h as [|a h]; [done|]. simpl.
  rewrite Nat.sub_0_r, drop_0. apply removelast_take.
Qed.

Section Header.

Variable X : Externals.
Variable paths : PathConfig.
Variable owner : str.

(** X6. A tweet that lacks [created_at], [full_text] or [id_str] raises
    [KeyError]; a timestamp of fewer than six fields, a text without a
    word, and the text that is the retweet marker alone raise
    [IndexError]. Nothing is converted or registered before. *)
Theorem header_failure_is_raised (tweet : tweet_json) (st : state) (e : exn) :
  header_failure (unwrap tweet) = Some e ->
  _convert_tweet X paths owner tweet st = Raise e.
Proof.
  unfold header_failure, _convert_tweet.
  destruct (created_at (unwrap tweet)) as [ts|]; [|by intros [= <-]].
  destruct (full_text (unwrap tweet)) as [text|]; [|by intros [= <-]].
  destruct (id_str (unwrap tweet)) as [id|]; [|by intros [= <-]].
  cbn [getitem mbind result_bind]. case_bool_decide as Hts.
  - intros [= <-]. rewrite index_ge by lia. done.
  - destruct (index_lt (Py.split ts) 5) as [year ->]; [lia|].
    cbn [mbind result_bind]. unfold retweet_header.
    destruct (Py.split text) as [|w [|w' ws]] eqn:Hwords.
    + intros [= <-]. by rewrite index_nil.
    + case_bool_decide as Hw; [|done]. intros [= <-]. subst w.
      reflexivity.
    + done.
Qed.

(** X7. A plain tweet always converts when its first lines do not fail,
    and the conversion leaves the state as it is. *)
Theorem plain_tweet_converts (tweet : tweet_json) (st : state) :
  plain (unwrap tweet) -> header_failure (unwrap tweet) = None ->
  exists t, _convert_tweet X paths owner tweet st = Ok (t, st).
Proof.
  intros Hplain. unfold header_failure, _convert_tweet.
  destruct (created_at (unwrap tweet)) as [ts|]; [|done].
  destruct (full_text (unwrap tweet)) as [text|]; [|done].
  destruct (id_str (unwrap tweet)) as [id|]; [|done].
  cbn [getitem mbind result_bind]. case_bool_decide as Hts; [done|].
  destruct (index_lt (Py.split ts) 5) as [year ->]; [lia|].
  cbn [mbind result_bind]. intros Hwords.
  assert (exists ty rt body,
             retweet_header text (join_words (Py.split text))
             = Ok (ty, rt, body)) as (ty & rt & body & ->).
  { unfold retweet_header.
    destruct (Py.split text) as [|w [|w' ws]]; [done| |].
    - case_bool_decide as Hw; [done|]. unfold index. simpl.
      rewrite bool_decide_false by done. by eexists _, _, _.
    - unfold index. simpl. case_bool_decide; by eexists _, _, _. }
  cbn [mbind result_bind].
  destruct (plain_tweet_steps X paths owner (unwrap tweet) text id body ty st
              Hplain) as (Hb & He & Hr & Hm & Hd1 & Hd2).
  rewrite Hb. cbn [mbind result_bind]. rewrite He, Hr.
  cbn [mbind result_bind]. rewrite Hm. cbn [mbind result_bind].
  rewrite TWEET_URL_format. cbn [mbind result_bind]. rewrite Hd1.
  cbn [mbind result_bind]. rewrite Hd2. cbn [mbind result_bind].
  by eexists.
Qed.

(** X8. A retweet names the account it reposts by the second word of the
    text without its first and its last code point, whatever these are.
    When the tweet is plain, the post is a [RETWEET] whose body holds the
    words after the second one. *)
Theorem retweet_drops_two_words (tweet : tweet_json) (st st' : state)
    (t : Tweet) (text : str) :
  full_text (unwrap tweet) = Some text ->
  head (Py.split text) = Some RT ->
  _convert_tweet X paths owner tweet st = Ok (t, st') ->
  exists h rest,
    Py.split text = RT :: h :: rest
    /\ retweeted_from t = Some (removelast (tail h))
    /\ (plain (unwrap tweet) ->
        tweet_type t = TweetType.RETWEET
        /\ tweet_data t = flat_map (fun w => w ++ [32%N]) rest).
Proof.
  intros Htext HRT H. apply _convert_tweet_Ok in H.
  destruct H as (ts & text' & id & year & ty0 & rt & body0 & tweet' & ty
                 & names & reply_url & body1 & body2 & attached & st1 & st2
                 & Hts & Htext' & Hid & Hyear & Hrt & Hbackfill & Hreply
                 & Hmedia & Hdr & Hdm & ->).
  rewrite Htext in Htext'. injection Htext' as <-.
  unfold retweet_header in Hrt.
  inv_bind Hrt as first Hfirst. apply index_Ok in Hfirst.
  rewrite <- head_lookup, HRT in Hfirst. injection Hfirst as <-.
  rewrite bool_decide_true in Hrt by done.
  inv_bind Hrt as h Hh. apply index_Ok in Hh.
  injection Hrt as <- <- <-.
  destruct (Py.split text) as [|w [|h' rest]] eqn:Hwords; [done|done|].
  injection HRT as ->. injection Hh as ->.
  exists h, rest. split; [done|]. split; [simpl; by rewrite slice_middle|].
  intros Hplain.
  destruct (plain_tweet_steps X paths owner (unwrap tweet) text id
              (skip_two_words (RT :: h :: rest)) TweetType.RETWEET st Hplain)
    as (Hb & He & Hr & Hm & _).
  rewrite Hb in Hbackfill. injection Hbackfill as <-.
  rewrite He, Hr in Hreply. injection Hreply as <- <- <- <-.
  rewrite Hm in Hmedia. injection Hmedia as <- <- <-.
  simpl. by rewrite skip_two_words_drop, join_words_flat_map.
Qed.

End Header.

Lemma header_failure_is_raised_witness :
  Examples.convert (Examples.plain_tweet (lit "8") (lit " RT ")) = Raise IndexError.
Proof.
  apply (header_failure_is_raised Model.env Model.paths (lit "alice")
           (Bare (Examples.plain_tweet (lit "8") (lit " RT ")))).
  reflexivity.
Defined.

Lemma plain_tweet_converts_witness :
  exists t,
    Examples.convert (Examples.plain_tweet (lit "8") (lit "RT @bob: hi"))
    = Ok (t, initial_state ∅).
Proof.
  apply (plain_tweet_converts Model.env Model.paths (lit "alice")
           (Bare (Examples.plain_tweet (lit "8") (lit "RT @bob: hi")))).
  - by repeat split.
  - reflexivity.
Defined.

Lemma retweet_drops_two_words_witness :
  exists t st',
    Examples.convert (Examples.plain_tweet (lit "8") (lit "RT @bob: hi  you"))
    = Ok (t, st')
    /\ retweeted_from t = Some (lit "bob")
    /\ tweet_data t = lit "hi you ".
Proof.
  destruct (Examples.convert
              (Examples.plain_tweet (lit "8") (lit "RT @bob: hi  you")))
    as [[t st']|e] eqn:Hconv; [|vm_compute in Hconv; discriminate Hconv].
  exists t, st'. split; [done|].
  destruct (retweet_drops_two_words Model.env Model.paths (lit "alice")
              (Bare (Examples.plain_tweet (lit "8") (lit "RT @bob: hi  you")))
              (initial_state ∅) st' t (lit "RT @bob: hi  you"))
    as (h & rest & Hwords & Hfrom & Hplain); [done|reflexivity|exact Hconv|].
  vm_compute in Hwords. injection Hwords as <- <-.
  destruct Hplain as [_ Hbody]; [by repeat split|].
  split; [exact Hfrom | exact Hbody].
Defined.

(** ** What the conversion of a tweet writes to the registry *)

Lemma written_app (l1 l2 : list (str * str)) (m : gmap str UserData) :
  written (l1 ++ l2) m = written l2 (written l1 m).
Proof. apply foldl_app. Qed.

Lemma discovered_from_nil (st : state) : discovered_from st [] st.
Proof. split; [done|]. by rewrite app_nil_r. Qed.

Lemma discovered_from_app (st1 st2 st3 : state) (l1 l2 : list (str * str)) :
  discovered_from st1 l1 st2 -> discovered_from st2 l2 st3 ->
  discovered_from st1 (l1 ++ l2) st3.
Proof.
  intros [Hu1 Hr1] [Hu2 Hr2]. split.
  - by rewrite written_app, <- Hu1.
  - by rewrite Hr2, Hr1, map_app, app_assoc.
Qed.

Lemma discovered_from_register (st : state) (id h : str) :
  discovered_from st [(id, h)] (register Discovered id h st).
Proof. done. Qed.

Lemma nonnegative_id_Ok (id : str) (ok : bool) (h : nullable str) :
  nonnegative_id id = Ok ok ->
  discovery_of id h
  = match h with
    | Val h => if ok then Some (id, h) else None
    | Null => None
    end.
Proof.
  unfold nonnegative_id, discovery_of.
  destruct (Py.int id) as [n|]; [|done]. intros [= <-].
  destruct h; [by destruct (0 <=? n)%Z|done].
Qed.

Lemma discover_reply_target_discovers (tweet : tweet_obj) (st st' : state) :
  discover_reply_target tweet st = Ok st' ->
  discovered_from st
    match in_reply_to_user_id tweet, in_reply_to_screen_name tweet with
    | Some id, Some h => option_list (discovery_of id h)
    | _, _ => []
    end st'.
Proof.
  unfold discover_reply_target. intros H.
  destruct (in_reply_to_user_id tweet) as [reply_to_id|];
    [|injection H as <-; apply discovered_from_nil].
  destruct (in_reply_to_screen_name tweet) as [[|h]|];
    [| |injection H as <-; apply discovered_from_nil].
  - injection H as <-. unfold discovery_of.
    destruct (Py.int reply_to_id); apply discovered_from_nil.
  - inv_bind H as ok Hok. rewrite (nonnegative_id_Ok _ _ _ Hok).
    destruct ok; injection H as <-;
      [apply discovered_from_register|apply discovered_from_nil].
Qed.

Lemma discover_mention_discovers (m : nullable mention) (st st' : state) :
  discover_mention m st = Ok st' ->
  discovered_from st (option_list (mention_discovery m)) st'.
Proof.
  unfold discover_mention, mention_discovery. intros H.
  destruct m as [|m]; [injection H as <-; apply discovered_from_nil|].
  destruct (men_id m) as [mentioned_id|];
    [|injection H as <-; apply discovered_from_nil].
  destruct (men_screen_name m) as [h|];
    [|injection H as <-; apply discovered_from_nil].
  inv_bind H as ok Hok. rewrite (nonnegative_id_Ok _ _ _ Hok).
  destruct ok, h as [|h]; injection H as <-;
    (apply discovered_from_register || apply discovered_from_nil).
Qed.

Lemma discover_mentions_loop (mentions : list (nullable mention))
    (st st' : state) :
  for_each discover_mention mentions st = Ok st' ->
  discovered_from st (omap mention_discovery mentions) st'.
Proof.
  revert st. induction mentions as [|m ms IH]; intros st H.
  - injection H as <-. apply discovered_from_nil.
  - cbn [for_each] in H. inv_bind H as st1 Hm.
    apply discover_mention_discovers in Hm. apply IH in H.
    replace (omap mention_discovery (m :: ms))
      with (option_list (mention_discovery m) ++ omap mention_discovery ms)
      by (simpl; by destruct (mention_discovery m)).
    by eapply discovered_from_app.
Qed.

Lemma discover_mentions_discovers (tweet : tweet_obj) (st st' : state) :
  discover_mentions tweet st = Ok st' ->
  discovered_from st
    match tw_entities tweet ≫= ent_user_mentions with
    | Some (Val mentions) => omap mention_discovery mentions
    | _ => []
    end st'.
Proof.
  unfold discover_mentions. intros H.
  destruct (tw_entities tweet) as [ents|]; simpl;
    [|injection H as <-; apply discovered_from_nil].
  destruct (ent_user_mentions ents) as [[|mentions]|];
    try (injection H as <-; apply discovered_from_nil).
  by apply discover_mentions_loop.
Qed.

(** Backfilling the links touches the [urls] of the entities only. *)
Lemma backfill_links_names (X : Externals) (text : str)
    (tweet tweet' : tweet_obj) :
  backfill_links X text tweet = Ok tweet' -> discoveries tweet' = discoveries tweet.
Proof.
  unfold backfill_links, discoveries. intros H.
  destruct (tw_entities tweet) as [ents|] eqn:Hents;
    [|injection H as <-; by rewrite Hents].
  destruct (_ && _); [|injection H as <-; by rewrite Hents].
  inv_bind H as urls Hurls. by injection H as <-.
Qed.

(** X9. The conversion of a tweet writes to the registry the accounts the
    tweet names, and nothing else: the account replied to and then the
    mentions, each under its id with its handle, where the handle is not
    null and the id reads as an integer that is not negative. An id such
    as [-1] is never registered, and a later pair overwrites an earlier
    one for the same id. *)
Theorem conversion_registers_the_named_accounts (X : Externals)
    (paths : PathConfig) (owner : str) (tweet : tweet_json) (st st' : state)
    (t : Tweet) :
  _convert_tweet X paths owner tweet st = Ok (t, st') ->
  users st' = written (discoveries (unwrap tweet)) (users st)
  /\ registrations st'
     = registrations st
       ++ map (fun p => Discovered p.1 p.2) (discoveries (unwrap tweet))
  /\ Forall (fun p => exists n, Py.int p.1 = Some n /\ (0 <= n)%Z)
       (discoveries (unwrap tweet)).
Proof.
  intros H. apply _convert_tweet_Ok in H.
  destruct H as (ts & text & tid & year & ty0 & rt & body0 & tweet' & ty
                 & names & reply_url & body1 & body2 & attached & st1 & st2
                 & _ & _ & _ & _ & _ & Hbackfill & _ & Hmedia & Hreply
                 & Hmentions & _).
  apply backfill_links_names in Hbackfill.
  pose proof (attach_media_users _ _ _ _ _ _ _ _ _ Hmedia) as Husers.
  pose proof (attach_media_registrations _ _ _ _ _ _ _ _ _ Hmedia) as Hregs.
  apply discover_reply_target_discovers in Hreply.
  apply discover_mentions_discovers in Hmentions.
  destruct (discovered_from_app _ _ _ _ _ Hreply Hmentions) as [Hu Hr].
  fold (discoveries tweet') in Hu, Hr. rewrite Hbackfill in Hu, Hr.
  rewrite Husers in Hu. rewrite Hregs in Hr. split; [done|]. split; [done|].
  clear. unfold discoveries. apply Forall_app. split.
  - destruct (in_reply_to_user_id _) as [id|]; [|done].
    destruct (in_reply_to_screen_name _) as [h|]; [|done].
    unfold discovery_of. destruct (Py.int id) as [n|] eqn:Hn; [|done].
    destruct h as [|h]; [done|]. destruct (0 <=? n)%Z eqn:Hle; [|done].
    constructor; [|done]. exists n. split; [done|lia].
  - destruct (_ ≫= _) as [[|mentions]|]; [done| |done].
    induction mentions as [|m ms IH]; [done|]. simpl.
    destruct (mention_discovery m) as [p|] eqn:Hp; [|done].
    constructor; [|done]. clear IH. unfold mention_discovery in Hp.
    destruct m as [|m]; [done|]. destruct (men_id m) as [id|]; [|done].
    destruct (men_screen_name m) as [h|]; [|done].
    unfold discovery_of in Hp. destruct (Py.int id) as [n|] eqn:Hn; [|done].
    destruct h as [|h]; [done|]. destruct (0 <=? n)%Z eqn:Hle; [|done].
    injection Hp as <-. exists n. split; [done|lia].
Qed.

Lemma conversion_registers_the_named_accounts_witness :
  exists t st',
    Examples.convert More.naming_tweet = Ok (t, st')
    /\ users st' !! lit "7"
       = Some {| user_id := lit "7"; handle := lit "robert" |}
    /\ users st' !! lit "-1" = None
    /\ users st' !! lit "8" = None.
Proof.
  destruct (Examples.convert More.naming_tweet) as [[t st']|e] eqn:Hconv;
    [|vm_compute in Hconv; discriminate Hconv].
  exists t, st'. split; [done|].
  destruct (conversion_registers_the_named_accounts Model.env Model.paths
              (lit "alice") (Bare More.naming_tweet) (initial_state ∅) st' t
              Hconv) as (-> & _ & _).
  by vm_compute.
Defined.

(** ** The requests of the bulk lookup *)

Lemma batches_fuel_concat (fuel : nat) (user_ids : list str) :
  length user_ids <= fuel -> concat (batches_fuel fuel user_ids) = user_ids.
Proof.
  revert user_ids. induction fuel as [|fuel IH]; intros user_ids Hfuel.
  - destruct user_ids; [done|simpl in Hfuel; lia].
  - destruct user_ids as [|id user_ids]; [done|].
    cbn [batches_fuel concat]. rewrite IH; [apply take_drop|].
    rewrite length_drop. cbn [length] in *. lia.
Qed.

Lemma batches_fuel_sizes (fuel : nat) (user_ids : list str) :
  Forall (fun batch => 0 < length batch <= 100) (batches_fuel fuel user_ids).
Proof.
  revert user_ids. induction fuel as [|fuel IH]; intros user_ids.
  - by destruct user_ids.
  - destruct user_ids as [|id user_ids]; [done|].
    cbn [batches_fuel]. constructor; [|apply IH].
    rewrite length_take. cbn [length]. lia.
Qed.

Lemma batches_fuel_full (fuel : nat) (user_ids : list str) (i : nat)
    (batch : list str) :
  batches_fuel fuel user_ids !! i = Some batch ->
  S i < length (batches_fuel fuel user_ids) -> length batch = 100.
Proof.
  revert user_ids i. induction fuel as [|fuel IH]; intros user_ids i.
  - by destruct user_ids.
  - destruct user_ids as [|id user_ids]; [done|]. cbn [batches_fuel].
    destruct i as [|i]; [|simpl; intros Hi Hlen; apply (IH _ i Hi); lia].
    intros Hi Hlen.
    assert (batch = take 100 (id :: user_ids)) as -> by (by injection Hi).
    rewrite length_take.
    destruct (decide (100 <= length (id :: user_ids))) as [|Hshort]; [lia|].
    rewrite (drop_ge (id :: user_ids)) in Hlen by lia.
    destruct fuel; simpl in Hlen; lia.
Qed.

Lemma get_twitter_users_loop_batches (X : Externals) (fuel : nat)
    (guest_token : str) (retrieved : list (str * api_user))
    (user_ids : list str) :
  get_twitter_users_loop X fuel guest_token retrieved user_ids
  = for_each (batch_step X guest_token) (batches_fuel fuel user_ids) retrieved.
Proof.
  revert retrieved user_ids.
  induction fuel as [|fuel IH]; intros retrieved user_ids.
  - by destruct user_ids.
  - destruct user_ids as [|id user_ids]; [done|].
    cbn [get_twitter_users_loop batches_fuel for_each]. unfold batch_step.
    destruct (users_lookup X guest_token _) as [response|e]; [|done].
    cbn [mbind result_bind].
    destruct (for_each _ response retrieved) as [retrieved'|e]; [|done].
    cbn [mbind result_bind]. apply IH.
Qed.

(** X10. [_get_twitter_users] asks for the ids in consecutive batches, in
    order: the batches put together are the ids, every batch has between
    one and 100 ids, and every batch but the last has 100. The answers are
    stored batch after batch. *)
Theorem lookup_requests_are_batches_of_100 (X : Externals) (guest_token : str)
    (user_ids : list str) :
  _get_twitter_users X guest_token user_ids
  = for_each (batch_step X guest_token) (batches user_ids) []
  /\ concat (batches user_ids) = user_ids
  /\ Forall (fun batch => 0 < length batch <= 100) (batches user_ids)
  /\ forall i batch,
       batches user_ids !! i = Some batch ->
       S i < length (batches user_ids) -> length batch = 100.
Proof.
  split; [apply get_twitter_users_loop_batches|].
  split; [by apply batches_fuel_concat|].
  split; [apply batches_fuel_sizes|apply batches_fuel_full].
Qed.

(** A lookup that is refused raises. *)
Lemma refused_lookup_raises (X : Externals) (user_ids : list str) :
  lookup_refused X user_ids -> exists e, retrieved_users X user_ids = Raise e.
Proof.
  unfold retrieved_users, _get_twitter_api_guest_token.
  intros [[e He]|[He|(token & batch & e & Htoken & Hbatch & He)]].
  - rewrite He. by exists e.
  - rewrite He. by exists OtherException.
  - rewrite Htoken. cbn [mbind result_bind].
    case_bool_decide; [by exists OtherException|]. cbn [mbind result_bind].
    unfold _get_twitter_users. rewrite get_twitter_users_loop_batches.
    apply (for_each_raises _ _ batch); [done|].
    intros s. exists e. unfold batch_step. by rewrite He.
Qed.

(** X11. A lookup that the service refuses, be it the guest token or any
    one batch, registers nothing, not even the answers to the batches
    before: the state is the one before with one error logged, and no
    exception leaves [_lookup_users]. *)
Theorem refused_lookup_registers_nothing (X : Externals) (user_ids : list str)
    (st : state) :
  filtered_user_ids user_ids st <> [] ->
  lookup_refused X (filtered_user_ids user_ids st) ->
  exists e, _lookup_users X user_ids st = logging (ErrorFailedDownload e) st.
Proof.
  intros Hfiltered Hrefused. unfold _lookup_users.
  rewrite bool_decide_false by done.
  destruct (refused_lookup_raises X _ Hrefused) as [e He].
  unfold retrieved_users in He. rewrite He. by exists e.
Qed.

Lemma register_retrieved_named (retrieved : list (str * api_user))
    (st : state) :
  let st' := (register_retrieved retrieved st).1 in
  users st' = written (omap resolved (named_records retrieved)) (users st)
  /\ log st' = log st /\ files st' = files st
  /\ ((register_retrieved retrieved st).2
      = if bool_decide (length (named_records retrieved) = length retrieved)
        then None else Some KeyError).
Proof.
  revert st. induction retrieved as [|[user_id user] rest IH]; intros st;
    [done|].
  cbn [register_retrieved named_records].
  destruct (api_screen_name user) as [[|screen_name]|].
  - destruct (IH st) as (Hu & Hl & Hf & He). simpl.
    repeat split; try done. rewrite He.
    by rewrite (bool_decide_ext (S _ = S _)
                  (length (named_records rest) = length rest)) by lia.
  - destruct (IH (register BulkResolved user_id screen_name st))
      as (Hu & Hl & Hf & He). simpl.
    repeat split; try done. rewrite He.
    by rewrite (bool_decide_ext (S _ = S _)
                  (length (named_records rest) = length rest)) by lia.
  - done.
Qed.

(** X12. A lookup that is answered registers the records of the answer in
    order, up to the first record without a [screen_name]: a record with a
    handle is registered under its id, a record whose screen name is null
    is skipped. A record without a [screen_name] ends the loop with a
    [KeyError] that is logged; what was registered before it stays, and
    what follows it is lost. *)
Theorem answered_lookup_registers_named_records (X : Externals)
    (user_ids : list str) (st : state) (retrieved : list (str * api_user)) :
  filtered_user_ids user_ids st <> [] ->
  retrieved_users X (filtered_user_ids user_ids st) = Ok retrieved ->
  users (_lookup_users X user_ids st)
  = written (omap resolved (named_records retrieved)) (users st)
  /\ log (_lookup_users X user_ids st)
     = log st
       ++ (if bool_decide (length (named_records retrieved) = length retrieved)
           then [] else [ErrorFailedDownload KeyError]).
Proof.
  intros Hfiltered Hretrieved. unfold _lookup_users.
  rewrite bool_decide_false by done.
  unfold retrieved_users in Hretrieved. rewrite Hretrieved.
  destruct (register_retrieved_named retrieved st) as (Hu & Hl & _ & He).
  destruct (register_retrieved retrieved st) as [st1 err].
  simpl in Hu, Hl, He. rewrite He.
  case_bool_decide; simpl; by rewrite Hu, Hl, ?app_nil_r.
Qed.

Lemma refused_lookup_registers_nothing_witness :
  exists e,
    _lookup_users More.full_batches_only (replicate 101 (lit "7"))
      (initial_state ∅)
    = logging (ErrorFailedDownload e) (initial_state ∅).
Proof.
  apply (refused_lookup_registers_nothing More.full_batches_only
           (replicate 101 (lit "7")) (initial_state ∅)).
  - by vm_compute.
  - right. right. exists (lit "guest"), [lit "7"], OtherException.
    split; [done|]. split; [|done].
    vm_compute. apply list_elem_of_further, list_elem_of_here.
Defined.

Lemma answered_lookup_registers_named_records_witness :
  let st' := _lookup_users More.gappy [lit "1"; lit "2"; lit "3"; lit "4"]
               (initial_state ∅) in
  users st' = {[ lit "1" := {| user_id := lit "1"; handle := lit "ann" |} ]}
  /\ log st' = [ErrorFailedDownload KeyError].
Proof.
  destruct (answered_lookup_registers_named_records More.gappy
              [lit "1"; lit "2"; lit "3"; lit "4"] (initial_state ∅)
              [ (lit "1", {| api_id_str := Some (lit "1");
                             api_screen_name := Some (Val (lit "ann")) |});
                (lit "2", {| api_id_str := Some (lit "2");
                             api_screen_name := Some Null |});
                (lit "3", {| api_id_str := Some (lit "3");
                             api_screen_name := None |});
                (lit "4", {| api_id_str := Some (lit "4");
                             api_screen_name := Some (Val (lit "dan")) |}) ])
    as [Hu Hl]; [by vm_compute|by vm_compute|].
  split; [rewrite Hu|rewrite Hl]; by vm_compute.
Defined.

(** ** The ids that the bulk lookup sends (C2) *)

Lemma dict_set_new {V} (k : str) (v : V) (d : list (str * V)) :
  k ∉ map fst d -> dict_set k v d = d ++ [(k, v)].
Proof.
  induction d as [|[k' v'] d IH]; [done|]. simpl.
  intros Hk. case_bool_decide as Heq; [destruct Hk; subst; by left|].
  rewrite IH; [done|]. intros Hin. apply Hk. by right.
Qed.

Section Sent.

Variable X : Externals.
Variable token : str.
Variable h : str -> str.
Hypothesis Hservice : answers_every_id X token h.

(** A batch of new ids is answered with a record for each of them. *)
Lemma batch_step_answered (batch : list str)
    (retrieved : list (str * api_user)) :
  NoDup (map fst retrieved ++ batch) ->
  batch_step X token batch retrieved
  = Ok (retrieved ++ map (fun id => (id, answer h id)) batch).
Proof using Hservice.
  destruct Hservice as (_ & _ & Hanswer). unfold batch_step.
  rewrite Hanswer. cbn [mbind result_bind]. revert retrieved.
  induction batch as [|id batch IH]; intros retrieved Hnodup.
  - simpl. by rewrite app_nil_r.
  - cbn [map for_each answer api_id_str getitem mbind result_bind].
    apply NoDup_app in Hnodup as (Hkeys & Hdisjoint & Hbatch).
    apply NoDup_cons in Hbatch as [Hid Hbatch].
    rewrite dict_set_new by (intros Hin; apply (Hdisjoint id Hin); by left).
    rewrite IH.
    + by rewrite <- app_assoc.
    + rewrite map_app. simpl. rewrite <- app_assoc. simpl.
      apply NoDup_app. split; [done|]. split; [|by apply NoDup_cons].
      intros k Hk. apply Hdisjoint, Hk.
Qed.

Lemma batches_fuel_answered (fuel : nat) (user_ids : list str)
    (retrieved : list (str * api_user)) :
  length user_ids <= fuel -> NoDup (map fst retrieved ++ user_ids) ->
  for_each (batch_step X token) (batches_fuel fuel user_ids) retrieved
  = Ok (retrieved ++ map (fun id => (id, answer h id)) user_ids).
Proof using Hservice.
  revert user_ids retrieved.
  induction fuel as [|fuel IH]; intros user_ids retrieved Hfuel Hnodup.
  - destruct user_ids; [simpl; by rewrite app_nil_r|simpl in Hfuel; lia].
  - destruct user_ids as [|id user_ids]; [simpl; by rewrite app_nil_r|].
    cbn [batches_fuel for_each].
    rewrite <- (take_drop 100 (id :: user_ids)) in Hnodup.
    rewrite batch_step_answered.
    + cbn [mbind result_bind]. rewrite IH.
      * rewrite <- app_assoc, <- map_app. by rewrite take_drop.
      * rewrite length_drop. cbn [length] in *. lia.
      * rewrite map_app, map_map. simpl. rewrite map_id.
        by rewrite <- app_assoc.
    + rewrite app_assoc in Hnodup. by apply NoDup_app in Hnodup as [? _].
Qed.

(** The records of the answers are registered one by one. *)
Lemma register_retrieved_answered (user_ids : list str) (st : state) :
  let st' := (register_retrieved
                (map (fun id => (id, answer h id)) user_ids) st).1 in
  (register_retrieved (map (fun id => (id, answer h id)) user_ids) st).2
  = None
  /\ registrations st'
     = registrations st ++ map (fun id => BulkResolved id (h id)) user_ids
  /\ users st' = written (map (fun id => (id, h id)) user_ids) (users st)
  /\ log st' = log st.
Proof.
  revert st. induction user_ids as [|id user_ids IH]; intros st.
  - simpl. by rewrite app_nil_r.
  - cbn [map register_retrieved answer api_screen_name].
    destruct (IH (register BulkResolved id (h id) st))
      as (Herr & Hregs & Husers & Hlog).
    split; [done|]. simpl in *. rewrite Hregs, Husers, Hlog.
    by rewrite <- app_assoc.
Qed.

Lemma _lookup_users_answered (user_ids : list str) (st : state) :
  NoDup (filtered_user_ids user_ids st) ->
  registrations (_lookup_users X user_ids st)
  = registrations st
    ++ map (fun id => BulkResolved id (h id)) (filtered_user_ids user_ids st)
  /\ users (_lookup_users X user_ids st)
     = written (map (fun id => (id, h id)) (filtered_user_ids user_ids st))
         (users st)
  /\ log (_lookup_users X user_ids st) = log st.
Proof using Hservice.
  intros Hnodup. unfold _lookup_users. case_bool_decide as Hnone.
  - rewrite Hnone. simpl. by rewrite app_nil_r.
  - destruct Hservice as (Htoken & Hnonempty & _).
    unfold _get_twitter_api_guest_token, _get_twitter_users.
    rewrite Htoken. cbn [mbind result_bind].
    rewrite bool_decide_false by done. cbn [mbind result_bind].
    rewrite get_twitter_users_loop_batches, batches_fuel_answered by done.
    cbn [app].
    destruct (register_retrieved_answered (filtered_user_ids user_ids st) st)
      as (Herr & Hregs & Husers & Hlog).
    destruct (register_retrieved _ st) as [st1 err]. simpl in *.
    by subst err.
Qed.

End Sent.

(** The lookup, for ids to look up: the requests and what is made of the
    answers. *)
Lemma _lookup_users_requests (X : Externals) (user_ids : list str)
    (st : state) :
  filtered_user_ids user_ids st <> [] ->
  _lookup_users X user_ids st
  = store_answers (requests X (filtered_user_ids user_ids st)) st.
Proof.
  intros Hsome. unfold _lookup_users, store_answers, requests.
  rewrite bool_decide_false by done.
  destruct (_get_twitter_api_guest_token X) as [token|e]; [|done].
  cbn [mbind result_bind]. unfold _get_twitter_users.
  by rewrite get_twitter_users_loop_batches.
Qed.

(** C2: the ids that the bulk lookup sends are, without a repetition, the
    ids that the four sources refer to (the following edges, the follower
    edges, the two halves of the id of each pairwise conversation, the
    events of the group conversations) less the ids that the registry
    holds when the lookup starts. [_lookup_users] hands this list to
    [_get_twitter_users], which asks the service for it batch by batch,
    the batches put together being the list; nothing is asked when the
    list is empty. A service that answers with a record for every id it
    is asked for is therefore seen to resolve exactly these ids, in this
    order, and the registry keeps its other entries. *)
Theorem lookup_request_is_sources_minus_known (X : Externals) (a : Archive)
    (st : state) (ids : list str) :
  iterates_members X ->
  collected_user_ids X a = Ok ids ->
  let sent := filtered_user_ids ids st in
  NoDup sent
  /\ (forall id, id ∈ sent <-> referenced a id /\ id ∉ dom (users st))
  /\ _bulk_look_up_for_user_handles X a st = Ok (_lookup_users X ids st)
  /\ (sent = [] -> _lookup_users X ids st = st)
  /\ (sent <> [] ->
      _lookup_users X ids st = store_answers (requests X sent) st)
  /\ concat (batches sent) = sent
  /\ (forall token h,
        answers_every_id X token h ->
        _get_twitter_users X token sent
        = Ok (map (fun id => (id, answer h id)) sent)
        /\ registrations (_lookup_users X ids st)
           = registrations st ++ map (fun id => BulkResolved id (h id)) sent
        /\ users (_lookup_users X ids st)
           = written (map (fun id => (id, h id)) sent) (users st)).
Proof.
  intros HX Hids sent.
  destruct (collected_user_ids_elem X HX a ids Hids) as [Hnodup Hmem].
  assert (Hsent : NoDup sent) by by apply NoDup_filter.
  split; [done|]. split; [|split; [|split; [|split; [|split]]]].
  - intros id. unfold sent, filtered_user_ids.
    rewrite list_elem_of_filter, Hmem, not_elem_of_dom. tauto.
  - unfold _bulk_look_up_for_user_handles. by rewrite Hids.
  - intros Hnone. unfold _lookup_users. fold sent. by rewrite Hnone.
  - apply _lookup_users_requests.
  - by apply batches_fuel_concat.
  - intros token h Hservice. split.
    + unfold _get_twitter_users.
      by rewrite get_twitter_users_loop_batches,
        (batches_fuel_answered X token h Hservice).
    + destruct (_lookup_users_answered X token h Hservice ids st Hsent)
        as (Hregs & Husers & _).
      by split.
Qed.

Lemma echo_answers_every_id :
  answers_every_id Model.env (lit "guest") (fun id => lit "user" ++ id).
Proof. by repeat split. Qed.

Lemma lookup_request_is_sources_minus_known_witness :
  iterates_members Model.env
  /\ exists ids,
       collected_user_ids Model.env Examples.lookup_archive = Ok ids
       /\ filtered_user_ids ids Examples.bob_known
          = [lit "9"; lit "8"; lit "11"; lit "10"]
       /\ (forall id, id ∈ filtered_user_ids ids Examples.bob_known
                      <-> referenced Examples.lookup_archive id
                          /\ id ∉ dom (users Examples.bob_known))
       /\ registrations (_lookup_users Model.env ids Examples.bob_known)
          = registrations Examples.bob_known
            ++ [BulkResolved (lit "9") (lit "user9");
                BulkResolved (lit "8") (lit "user8");
                BulkResolved (lit "11") (lit "user11");
                BulkResolved (lit "10") (lit "user10")].
Proof.
  split; [exact elements_iterates_members|].
  destruct (collected_user_ids Model.env Examples.lookup_archive)
    as [ids|e] eqn:Hids; [|vm_compute in Hids; discriminate Hids].
  exists ids. split; [done|].
  assert (Hsent : filtered_user_ids ids Examples.bob_known
                  = [lit "9"; lit "8"; lit "11"; lit "10"]).
  { vm_compute in Hids. injection Hids as <-. vm_compute. reflexivity. }
  split; [exact Hsent|].
  destruct (lookup_request_is_sources_minus_known Model.env
              Examples.lookup_archive Examples.bob_known ids
              elements_iterates_members Hids)
    as (_ & Hmem & _ & _ & _ & _ & Hanswered).
  split; [exact Hmem|].
  destruct (Hanswered (lit "guest") (fun id => lit "user" ++ id)
              echo_answers_every_id) as (_ & Hregs & _).
  rewrite Hregs, Hsent. reflexivity.
Defined.

(** ** Events of a group conversation without their keys *)

Lemma participant_ids_step_raises_only (m : message) (ids : gset str)
    (e : exn) :
  participant_ids_step m ids = Raise e -> e = KeyError.
Proof.
  destruct m as [mc|jc|pj| |]; simpl; try done.
  - destruct (mc_senderId mc); simpl; congruence.
  - destruct (jc_initiatingUserId jc); simpl; [|congruence].
    destruct (jc_participantsSnapshot jc); simpl; congruence.
  - destruct (pj_initiatingUserId pj); simpl; [|congruence].
    destruct (pj_userIds pj); simpl; congruence.
Qed.

Lemma participant_ids_step_lacking (m : message) (ids : gset str) :
  lacks_participant_key m -> participant_ids_step m ids = Raise KeyError.
Proof.
  destruct m as [mc|jc|pj| |]; simpl; try done.
  - by intros ->.
  - intros [->| ->]; [done|]. by destruct (jc_initiatingUserId jc).
  - intros [->| ->]; [done|]. by destruct (pj_initiatingUserId pj).
Qed.

Lemma _find_group_dm_conversation_participant_ids_raises_only
    (c : conversation_json) (e : exn) :
  _find_group_dm_conversation_participant_ids c = Raise e -> e = KeyError.
Proof.
  unfold _find_group_dm_conversation_participant_ids.
  destruct (dmConversation c) as [dc|]; [|done].
  destruct (conversationId dc); [|done].
  destruct (messages dc) as [ms|]; [|done].
  generalize (∅ : gset str). induction ms as [|m ms IH]; intros ids; [done|].
  cbn [for_each].
  destruct (participant_ids_step m ids) as [ids'|e'] eqn:Hstep.
  - apply IH.
  - intros [= <-]. by eapply participant_ids_step_raises_only.
Qed.

(** X13. An event of a group conversation that lacks a key the collection
    of the participants reads (a message without a sender, a join event
    without its initiator or its list of ids) makes the collection raise
    [KeyError]. Nothing handles it: the run raises instead of returning,
    although [_get_group_direct_messages] itself would skip a message
    without a sender. *)
Theorem group_event_without_key_raises_KeyError (X : Externals)
    (groups : list conversation_json) (c : conversation_json)
    (dc : dm_conversation) (cid : str) (ms : list message) (m : message) :
  c ∈ groups ->
  dmConversation c = Some dc -> conversationId dc = Some cid ->
  messages dc = Some ms -> m ∈ ms -> lacks_participant_key m ->
  _collect_user_ids_from_group_direct_messages X groups = Raise KeyError
  /\ forall paths owner a fs,
       group_dms_json a = groups ->
       exists e, TwitterDataParser_init X paths owner a fs = Raise e.
Proof.
  intros Hc Hdc Hcid Hms Hm Hlacks.
  assert (Hfind : _find_group_dm_conversation_participant_ids c
                  = Raise KeyError).
  { unfold _find_group_dm_conversation_participant_ids.
    rewrite Hdc, Hcid, Hms.
    apply (for_each_raises_only _ ms m); [done| |].
    - intros ids. by apply participant_ids_step_lacking.
    - apply participant_ids_step_raises_only. }
  assert (Hcollect :
            _collect_user_ids_from_group_direct_messages X groups
            = Raise KeyError).
  { unfold _collect_user_ids_from_group_direct_messages.
    rewrite (for_each_raises_only _ groups c KeyError); [done|done| |].
    - intros ids. by rewrite Hfind.
    - intros c' ids e He.
      destruct (_find_group_dm_conversation_participant_ids c') as [p|e']
        eqn:Hc'; [done|]. injection He as <-.
      by eapply _find_group_dm_conversation_participant_ids_raises_only. }
  split; [done|]. intros paths owner a fs Hgroups.
  unfold TwitterDataParser_init.
  destruct (_get_tweets X paths owner (tweet_files a) (initial_state fs))
    as [[tweets st]|e]; [|by exists e].
  cbn [mbind result_bind].
  unfold _bulk_look_up_for_user_handles, collected_user_ids.
  destruct (_collect_user_ids_from_direct_messages X (dms_json a))
    as [dms_ids|e]; [|by exists e].
  cbn [mbind result_bind]. rewrite Hgroups, Hcollect. by exists KeyError.
Qed.

Lemma group_event_without_key_raises_KeyError_witness :
  _collect_user_ids_from_group_direct_messages Model.env
    (group_dms_json More.anonymous_archive) = Raise KeyError
  /\ exists e, Examples.run More.anonymous_archive = Raise e.
Proof.
  destruct (group_event_without_key_raises_KeyError Model.env
              (group_dms_json More.anonymous_archive)
              (Examples.conversation (lit "g") More.anonymous_events)
              {| conversationId := Some (lit "g");
                 messages := Some More.anonymous_events |}
              (lit "g") More.anonymous_events More.anonymous)
    as [Hcollect Hrun].
  - apply list_elem_of_here.
  - reflexivity.
  - reflexivity.
  - reflexivity.
  - apply list_elem_of_further, list_elem_of_here.
  - reflexivity.
  - split; [exact Hcollect|].
    apply (Hrun Model.paths (lit "alice") More.anonymous_archive ∅ eq_refl).
Defined.

(** ** Reading the archive *)

(** The last four code points of a name are [.zip] exactly when the name
    is a stem followed by [.zip]; the stem is the name without them. *)
Lemma zip_suffix (name : str) :
  slice_from name (Z.of_nat (length name) - 4) = lit ".zip"
  <-> exists stem, name = stem ++ lit ".zip".
Proof.
  unfold slice_from, clip_index. split.
  - intros H. exists (take (length name - 4) name).
    destruct (decide (4 <= length name)) as [Hlen|Hlen].
    + rewrite <- H at 1.
      destruct (Z.ltb_spec (Z.of_nat (length name) - 4) 0) as [?|_]; [lia|].
      replace (Z.to_nat (Z.min _ _)) with (length name - 4) by lia.
      by rewrite take_drop.
    + apply (f_equal length) in H. rewrite length_drop in H.
      simpl in H. lia.
  - intros [stem ->]. rewrite length_app.
    change (length (lit ".zip")) with 4.
    destruct (Z.ltb_spec (Z.of_nat (length stem + 4) - 4) 0) as [?|_]; [lia|].
    replace (Z.to_nat (Z.min _ _)) with (length stem) by lia.
    by rewrite drop_app_length.
Qed.

Lemma zip_stem (stem : str) :
  slice_to (stem ++ lit ".zip") (Z.of_nat (length (stem ++ lit ".zip")) - 4)
  = stem.
Proof.
  unfold slice_to, clip_index. rewrite length_app.
  change (length (lit ".zip")) with 4.
  destruct (Z.ltb_spec (Z.of_nat (length stem + 4) - 4) 0) as [?|_]; [lia|].
  replace (Z.to_nat (Z.min _ _)) with (length stem) by lia.
  by rewrite take_app_length.
Qed.

Lemma split_on_last (sep : char) (s : str) : is_Some (last (Py.split_on sep s)).
Proof.
  induction s as [|c s [w Hw]]; simpl; [by eexists|].
  destruct (c =? sep)%N.
  - destruct (Py.split_on sep s); [done|]. by eexists.
  - destruct (Py.split_on sep s) as [|w' [|w'' ws]]; by eexists.
Qed.

(** X14. [_extract_and_find_archive] accepts exactly the paths whose last
    component, after the last slash, ends in [.zip]: it then extracts the
    file and returns the directory of the component's stem under the
    current working directory, wherever the file itself lies. For any
    other name it raises before the file is opened. *)
Theorem archive_is_extracted_under_cwd (cwd : str)
    (extractall : str -> str -> result unit) (file_path : str) :
  (forall dir,
     _extract_and_find_archive cwd extractall file_path = Ok dir
     <-> exists stem,
           last (Py.split_on 47%N file_path) = Some (stem ++ lit ".zip")
           /\ dir = cwd ++ lit "/" ++ stem
           /\ extractall file_path dir = Ok tt)
  /\ ((forall stem,
         last (Py.split_on 47%N file_path) <> Some (stem ++ lit ".zip")) ->
      _extract_and_find_archive cwd extractall file_path
      = Raise OtherException).
Proof.
  unfold _extract_and_find_archive.
  destruct (split_on_last 47%N file_path) as [name Hname].
  rewrite last_lookup in Hname.
  replace (pred (length (Py.split_on 47 file_path)))
    with (length (Py.split_on 47 file_path) - 1) in Hname by lia.
  unfold index. rewrite last_lookup.
  replace (pred (length (Py.split_on 47 file_path)))
    with (length (Py.split_on 47 file_path) - 1) by lia.
  rewrite Hname. cbn [mbind result_bind]. split.
  - intros dir. case_bool_decide as Hzip.
    + split; [done|]. intros (stem & [= ->] & _). destruct Hzip.
      apply zip_suffix. by exists stem.
    + apply zip_suffix in Hzip as [stem ->].
      rewrite zip_stem. split.
      * destruct (extractall file_path _) as [[]|e] eqn:Hextract; [|done].
        intros [= <-]. by exists stem.
      * intros (stem' & [= Hstem] & -> & Hextract).
        apply app_inv_tail in Hstem. subst stem'. by rewrite Hextract.
  - intros Hnot. rewrite bool_decide_true; [done|].
    intros Hzip. apply zip_suffix in Hzip as [stem ->]. by apply (Hnot stem).
Qed.

(** X15. Of the first line of a [.js] file, only the presence of an
    opening brace reaches the JSON parser: two files of more than one line
    that agree on it and on their other lines read the same. *)
Theorem first_line_counts_for_its_brace_only {J} (json_loads : str -> result J)
    (first first' : str) (rest : list str) :
  (123%N ∈ first <-> 123%N ∈ first') ->
  _read_json_from_js_file json_loads (first :: rest)
  = _read_json_from_js_file json_loads (first' :: rest).
Proof.
  intros Hbrace. unfold _read_json_from_js_file, js_to_json. simpl.
  by rewrite (bool_decide_ext _ _ Hbrace).
Qed.

(** X16. A [.js] file of at most one line reads as the empty dictionary,
    whatever the line holds and without the JSON parser being asked:
    iterating over it yields nothing, and looking the user name up in it
    raises [KeyError]. *)
Theorem short_file_is_the_empty_dictionary {J}
    (json_loads : str -> result (list J))
    (account_loads : str -> result (list account_json)) (data : list str) :
  length data <= 1 ->
  (file ← _read_json_from_js_file json_loads data; Ok (iterate file)) = Ok []
  /\ _read_json_from_js_file account_loads data ≫= _extract_username
     = Raise KeyError.
Proof.
  intros Hlen. unfold _read_json_from_js_file.
  by rewrite !bool_decide_true by done.
Qed.

Lemma first_line_counts_for_its_brace_only_witness :
  _read_json_from_js_file (fun text => Ok text)
    [lit "window.YTD.tweets.part0 = [ {"; lit "} ]"]
  = _read_json_from_js_file (fun text => Ok text) [lit "{"; lit "} ]"].
Proof.
  apply (first_line_counts_for_its_brace_only (fun text => Ok text)).
  split; intros _; [apply list_elem_of_here|].
  apply (bool_decide_unpack (123%N ∈ lit "window.YTD.tweets.part0 = [ {")).
  vm_compute. exact I.
Defined.

Lemma short_file_is_the_empty_dictionary_witness :
  (file ← _read_json_from_js_file (fun _ => Ok [lit "unused"])
            [lit "window.YTD.follower.part0 = [ ]"];
   Ok (iterate file)) = Ok []
  /\ _read_json_from_js_file (fun _ => Ok [])
       [lit "window.YTD.follower.part0 = [ ]"] ≫= _extract_username
     = Raise KeyError.
Proof.
  apply (short_file_is_the_empty_dictionary (fun _ => Ok [lit "unused"])
           (fun _ => Ok []) [lit "window.YTD.follower.part0 = [ ]"]).
  simpl. lia.
Defined.

Lemma archive_is_extracted_under_cwd_witness :
  _extract_and_find_archive (lit "/home/ann") (fun _ _ => Ok tt)
    (lit "/tmp/downloads/twitter-2024.zip")
  = Ok (lit "/home/ann/twitter-2024").
Proof.
  apply (proj1 (archive_is_extracted_under_cwd (lit "/home/ann")
                  (fun _ _ => Ok tt) (lit "/tmp/downloads/twitter-2024.zip"))).
  exists (lit "twitter-2024"). by vm_compute.
Defined.

(** ** The media of a tweet *)

Lemma union_absorb (x : str) (s : gset str) : x ∈ s -> s = {[x]} ∪ s.
Proof.
  intros Hx. apply set_eq. intros y. rewrite elem_of_union, elem_of_singleton.
  split; [by right|]. by intros [->|Hy].
Qed.

Section Media.

Variable X : Externals.
Variable paths : PathConfig.

Lemma media_step_unlinked (tweet : tweet_obj) (id u : str)
    (media : media_entity) (acc : str * state) :
  media_link media = None -> media_step X paths tweet id u media acc = Ok acc.
Proof.
  unfold media_link, media_step. destruct acc as [markdown st].
  destruct (med_url media); [|done]. by destruct (med_media_url media).
Qed.

Lemma media_link_Some (media : media_entity) (e : str) :
  media_link media = Some e ->
  is_Some (med_url media) /\ med_media_url media = Some e.
Proof.
  unfold media_link. destruct (med_url media); [|done].
  destruct (med_media_url media); [|done]. by intros [= ->].
Qed.

(** The file of the archive is there: it is copied unless the copy exists,
    and its best quality is the original of the same name. *)
Lemma media_step_exact (tweet : tweet_obj) (id u e : str)
    (media : media_entity) (markdown : str) (st : state) :
  media_link media = Some e ->
  Path.join (dir_input_media paths) (archive_name id e) ∈ files st ->
  exists st',
    media_step X paths tweet id u media (markdown, st)
    = Ok (markdown
          ++ _rel_url X (Path.join (dir_output_media paths) (archive_name id e))
               (example_file_output_tweets paths), st')
    /\ files st'
       = {[Path.join (dir_output_media paths) (archive_name id e)]} ∪ files st
    /\ media_sources st'
       = media_sources st
         ++ [(Path.join (dir_output_media paths) (archive_name id e),
              lit "https://pbs.twimg.com/media/" ++ Path.basename e
              ++ lit ":orig")]
    /\ log st' = log st /\ users st' = users st
    /\ registrations st' = registrations st.
Proof.
  intros [[short Hshort] He]%media_link_Some Hfile. unfold media_step.
  rewrite Hshort, He. fold (archive_name id e). unfold isfile at 1.
  rewrite bool_decide_true by done. rewrite BEST_QUALITY_URL_format.
  cbn [mbind result_bind]. eexists. split; [done|].
  unfold isfile. case_bool_decide as Hcopy; simpl; [|done].
  repeat split. by apply union_absorb.
Qed.

(** Neither the file nor any file of the tweet is there: the link of the
    first entity stands for the media, and a warning is logged. *)
Lemma media_step_missing (tweet : tweet_obj) (id u e : str)
    (media : media_entity) (markdown : str) (st : state) :
  media_link media = Some e ->
  Path.join (dir_input_media paths) (archive_name id e) ∉ files st ->
  glob X (files st) (Path.join (dir_input_media paths) (id ++ lit "*")) = [] ->
  media_step X paths tweet id u media (markdown, st)
  = Ok (markdown ++ u,
        logging (WarnMissingLocalFile
                   (Path.join (dir_input_media paths) (archive_name id e)) u e)
          st).
Proof.
  intros [[short Hshort] He]%media_link_Some Hfile Hglob. unfold media_step.
  rewrite Hshort, He. fold (archive_name id e). unfold isfile.
  rewrite bool_decide_false by done. rewrite Hglob.
  by rewrite bool_decide_false by (simpl; lia).
Qed.

Lemma media_loop_exact (tweet : tweet_obj) (id u : str)
    (medias : list media_entity) (markdown : str) (st : state) :
  Forall (fun e => Path.join (dir_input_media paths) (archive_name id e)
                   ∈ files st) (omap media_link medias) ->
  exists st',
    for_each (media_step X paths tweet id u) medias (markdown, st)
    = Ok (markdown
          ++ flat_map
               (fun e => _rel_url X
                           (Path.join (dir_output_media paths)
                              (archive_name id e))
                           (example_file_output_tweets paths))
               (omap media_link medias), st')
    /\ files st'
       = list_to_set
           ((fun e => Path.join (dir_output_media paths) (archive_name id e))
              <$> omap media_link medias) ∪ files st
    /\ media_sources st'
       = media_sources st
         ++ ((fun e => (Path.join (dir_output_media paths) (archive_name id e),
                        lit "https://pbs.twimg.com/media/" ++ Path.basename e
                        ++ lit ":orig")) <$> omap media_link medias)
    /\ log st' = log st /\ users st' = users st
    /\ registrations st' = registrations st.
Proof.
  revert markdown st.
  induction medias as [|media medias IH]; intros markdown st Hfiles.
  - exists st. simpl. rewrite !app_nil_r. repeat split.
    by rewrite (left_id_L ∅ (∪)).
  - cbn [for_each omap list_omap] in *.
    fold (omap media_link medias) in *.
    destruct (media_link media) as [e|] eqn:He.
    + apply Forall_cons in Hfiles as [Hfile Hfiles].
      destruct (media_step_exact tweet id u e media markdown st He Hfile)
        as (st1 & -> & Hf1 & Hs1 & Hl1 & Hu1 & Hr1).
      cbn [mbind result_bind].
      destruct (IH (markdown
                    ++ _rel_url X
                         (Path.join (dir_output_media paths)
                            (archive_name id e))
                         (example_file_output_tweets paths)) st1)
        as (st' & -> & Hf & Hs & Hl & Hu & Hr).
      { eapply Forall_impl; [exact Hfiles|]. intros e' He'. simpl.
        rewrite Hf1. apply elem_of_union. by right. }
      exists st'. simpl. rewrite <- !app_assoc.
      split; [done|]. rewrite Hf, Hs, Hl, Hu, Hr, Hf1, Hs1.
      rewrite <- !app_assoc. repeat split; try done.
      rewrite (comm_L (∪) {[_]} (list_to_set _)).
      by rewrite (assoc_L (∪)).
    + rewrite media_step_unlinked by done. cbn [mbind result_bind].
      by apply IH.
Qed.

Lemma media_loop_missing (tweet : tweet_obj) (id u : str)
    (medias : list media_entity) (markdown : str) (st : state) :
  glob X (files st) (Path.join (dir_input_media paths) (id ++ lit "*")) = [] ->
  Forall (fun e => Path.join (dir_input_media paths) (archive_name id e)
                   ∉ files st) (omap media_link medias) ->
  exists st',
    for_each (media_step X paths tweet id u) medias (markdown, st)
    = Ok (markdown ++ flat_map (fun _ => u) (omap media_link medias), st')
    /\ files st' = files st
    /\ media_sources st' = media_sources st
    /\ log st'
       = log st
         ++ ((fun e => WarnMissingLocalFile
                         (Path.join (dir_input_media paths)
                            (archive_name id e)) u e)
               <$> omap media_link medias)
    /\ users st' = users st /\ registrations st' = registrations st.
Proof.
  revert markdown st.
  induction medias as [|media medias IH]; intros markdown st Hglob Hfiles.
  - exists st. simpl. by rewrite !app_nil_r.
  - cbn [for_each omap list_omap] in *.
    fold (omap media_link medias) in *.
    destruct (media_link media) as [e|] eqn:He.
    + apply Forall_cons in Hfiles as [Hfile Hfiles].
      rewrite (media_step_missing tweet id u e) by done.
      cbn [mbind result_bind].
      destruct (IH (markdown ++ u)
                  (logging (WarnMissingLocalFile
                              (Path.join (dir_input_media paths)
                                 (archive_name id e)) u e) st))
        as (st' & -> & Hf & Hs & Hl & Hu & Hr); [done|done|].
      exists st'. simpl. rewrite <- !app_assoc.
      split; [done|]. rewrite Hf, Hs, Hl, Hu, Hr. simpl.
      by rewrite <- !app_assoc.
    + rewrite media_step_unlinked by done. cbn [mbind result_bind].
      by apply IH.
Qed.

Lemma attach_media_loop (tweet : tweet_obj) (u id body : str)
    (medias : list media_entity) (st : state) :
  has_media tweet u medias ->
  attach_media X paths tweet id body st
  = '(markdown, st) ←
      for_each (media_step X paths tweet id u) medias ([], st);
    Ok (Py.replace body u [], Some markdown, st).
Proof.
  intros (ents & first & ext & Hents & Hfirst & Hu & Hext & Hmedias).
  unfold attach_media. rewrite Hents, Hext, Hmedias.
  destruct (ent_media ents) as [[|first' entity_media]|]; try done.
  injection Hfirst as ->. unfold index. simpl. by rewrite Hu.
Qed.

(** X17. When the archive holds, under its expected name, the file of
    every media element of a tweet, the media markup is the sequence of
    the relative links to the copies, the link of the first entity is
    taken out of the body, every copy exists afterwards and no other file
    is added, and each copy is recorded with the original of the same name
    as its best quality. Elements that lack a link are passed by, and
    nothing is logged. *)
Theorem archived_media_are_copied (tweet : tweet_obj) (u id body : str)
    (medias : list media_entity) (st : state) :
  has_media tweet u medias ->
  Forall (fun e => Path.join (dir_input_media paths) (archive_name id e)
                   ∈ files st) (omap media_link medias) ->
  exists st',
    attach_media X paths tweet id body st
    = Ok (Py.replace body u [],
          Some (flat_map
                  (fun e => _rel_url X
                              (Path.join (dir_output_media paths)
                                 (archive_name id e))
                              (example_file_output_tweets paths))
                  (omap media_link medias)), st')
    /\ files st'
       = list_to_set
           ((fun e => Path.join (dir_output_media paths) (archive_name id e))
              <$> omap media_link medias) ∪ files st
    /\ media_sources st'
       = media_sources st
         ++ ((fun e => (Path.join (dir_output_media paths) (archive_name id e),
                        lit "https://pbs.twimg.com/media/" ++ Path.basename e
                        ++ lit ":orig")) <$> omap media_link medias)
    /\ log st' = log st.
Proof.
  intros Hmedia Hfiles. rewrite (attach_media_loop tweet u id body medias st) by done.
  destruct (media_loop_exact tweet id u medias [] st Hfiles)
    as (st' & -> & Hf & Hs & Hl & _).
  by exists st'.
Qed.

(** X18. When the archive holds no file for the tweet at all, every media
    element that has its links is replaced by the link of the first
    entity of the tweet, not by its own, with one warning each; no file is
    copied and no source is recorded. The link is taken out of the body
    all the same. *)
Theorem missing_media_keep_the_first_link (tweet : tweet_obj)
    (u id body : str) (medias : list media_entity) (st : state) :
  has_media tweet u medias ->
  glob X (files st) (Path.join (dir_input_media paths) (id ++ lit "*")) = [] ->
  Forall (fun e => Path.join (dir_input_media paths) (archive_name id e)
                   ∉ files st) (omap media_link medias) ->
  exists st',
    attach_media X paths tweet id body st
    = Ok (Py.replace body u [],
          Some (flat_map (fun _ => u) (omap media_link medias)), st')
    /\ files st' = files st
    /\ media_sources st' = media_sources st
    /\ log st'
       = log st
         ++ ((fun e => WarnMissingLocalFile
                         (Path.join (dir_input_media paths)
                            (archive_name id e)) u e)
               <$> omap media_link medias).
Proof.
  intros Hmedia Hglob Hfiles. rewrite (attach_media_loop tweet u id body medias st) by done.
  destruct (media_loop_missing tweet id u medias [] st Hglob Hfiles)
    as (st' & -> & Hf & Hs & Hl & _).
  by exists st'.
Qed.

End Media.

Lemma pictures_tweet_has_media :
  has_media More.pictures_tweet (lit "https://t.co/abc")
    [More.picture "https://t.co/abc" "x.jpg";
     {| med_url := None; med_media_url := None; med_video_info := None |};
     More.picture "https://t.co/abd" "y.jpg"].
Proof. by eexists _, _, _. Qed.

Lemma archived_media_are_copied_witness :
  exists st',
    attach_media Model.env Model.paths More.pictures_tweet (lit "5")
      (lit "look https://t.co/abc ") More.with_pictures
    = Ok (lit "look  ", Some (lit "../../media/5-x.jpg../../media/5-y.jpg"),
          st')
    /\ media_sources st'
       = [(lit "archive/twitter_parser-output/media/5-x.jpg",
           lit "https://pbs.twimg.com/media/x.jpg:orig");
          (lit "archive/twitter_parser-output/media/5-y.jpg",
           lit "https://pbs.twimg.com/media/y.jpg:orig")].
Proof.
  destruct (archived_media_are_copied Model.env Model.paths
              More.pictures_tweet (lit "https://t.co/abc") (lit "5")
              (lit "look https://t.co/abc ") _ More.with_pictures
              pictures_tweet_has_media)
    as (st' & Hattach & _ & Hsources & _).
  - apply Forall_cons_2; [|apply Forall_cons_2; [|apply Forall_nil_2]];
      apply (bool_decide_unpack _); vm_compute; exact I.
  - exists st'. split; [rewrite Hattach|rewrite Hsources]; reflexivity.
Defined.

Lemma missing_media_keep_the_first_link_witness :
  exists st',
    attach_media Model.env Model.paths More.pictures_tweet (lit "5")
      (lit "look https://t.co/abc ") (initial_state ∅)
    = Ok (lit "look  ", Some (lit "https://t.co/abchttps://t.co/abc"), st')
    /\ files st' = ∅ /\ media_sources st' = [].
Proof.
  destruct (missing_media_keep_the_first_link Model.env Model.paths
              More.pictures_tweet (lit "https://t.co/abc") (lit "5")
              (lit "look https://t.co/abc ") _ (initial_state ∅)
              pictures_tweet_has_media)
    as (st' & Hattach & Hfiles & Hsources & _).
  - reflexivity.
  - apply Forall_cons_2; [|apply Forall_cons_2; [|apply Forall_nil_2]];
      apply not_elem_of_empty.
  - exists st'. split; [rewrite Hattach; reflexivity|]. by split.
Defined.

(** ** The links of old tweets *)

Lemma replace_scan_cons (old new : str) (c : char) (s : str) :
  Py.replace_scan old new 0 (c :: s)
  = if Py.startswith old (c :: s)
    then new ++ Py.replace_scan old new (length old - 1) s
    else c :: Py.replace_scan old new 0 s.
Proof. reflexivity. Qed.

Lemma replace_scan_skip (old new pre s : str) :
  Py.replace_scan old new (length pre) (pre ++ s) = Py.replace_scan old new 0 s.
Proof. induction pre as [|c pre IH]; [done|]. simpl. apply IH. Qed.

(** Replacing a word by itself changes nothing. *)
Lemma replace_same (s w : str) : w <> [] -> Py.replace s w w = s.
Proof.
  intros Hw. unfold Py.replace. destruct w as [|a w']; [done|]. clear Hw.
  set (old := a :: w').
  assert (H : forall n s, length s <= n -> Py.replace_scan old old 0 s = s);
    [|by apply (H (length s))].
  clear s. intros n. induction n as [|n IH]; intros s Hlen.
  - destruct s; [done|simpl in Hlen; lia].
  - destruct s as [|c s]; [done|]. rewrite replace_scan_cons.
    destruct (Py.startswith old (c :: s)) eqn:Hstart.
    + apply startswith_prefix in Hstart as [rest Hs].
      unfold old in Hs. injection Hs as -> ->.
      change (length old - 1) with (length w' - 0). rewrite Nat.sub_0_r.
      rewrite replace_scan_skip, IH; [done|].
      simpl in Hlen. rewrite length_app in Hlen. lia.
    + rewrite IH; [done|]. simpl in Hlen. lia.
Qed.

Lemma expand_self_links (urls : list url_entity) (body : str) :
  Forall self_link urls ->
  foldl (fun body_markdown url =>
           match ue_url url, ue_expanded_url url with
           | Some u, Some expanded_url =>
               Py.replace body_markdown u expanded_url
           | _, _ => body_markdown
           end) body urls = body.
Proof.
  intros Hurls. revert body.
  induction Hurls as [|u urls (w & Hw & Hu & He) _ IH]; intros body; [done|].
  simpl. rewrite Hu, He, replace_same by done. apply IH.
Qed.

Section OldTweets.

Variable X : Externals.
Variable paths : PathConfig.
Variable owner : str.

Lemma backfill_word_self_links (text w : str)
    (urls urls' : option (list url_entity)) :
  w <> [] -> backfill_word X text w urls = Ok urls' ->
  Forall self_link (default [] urls) -> Forall self_link (default [] urls').
Proof.
  intros Hw H Hurls. unfold backfill_word in H.
  destruct (urlparse X w) as [url|[]]; try done; [|by injection H as <-].
  destruct (_ && _); [|by injection H as <-].
  inv_bind H as l Hl. apply getitem_Ok in Hl. subst urls.
  destruct (Py.find_from w text 0) as [i|]; [|done].
  cbn [mbind result_bind] in H. injection H as <-. simpl in *.
  apply Forall_app. split; [done|]. constructor; [|done]. by exists w.
Qed.

(** What the backfill leaves of a tweet with entities that hold neither
    media nor links: entities without media, whose links stand for
    themselves. *)
Lemma backfill_links_self_links (text : str) (tweet tweet' : tweet_obj)
    (ents : entities) :
  tw_entities tweet = Some ents -> ent_media ents = None ->
  default [] (ent_urls ents) = [] ->
  backfill_links X text tweet = Ok tweet' ->
  exists ents',
    tw_entities tweet' = Some ents' /\ ent_media ents' = None
    /\ Forall self_link (default [] (ent_urls ents'))
    /\ in_reply_to_status_id tweet' = in_reply_to_status_id tweet.
Proof.
  intros Hents Hmedia Hurls H. unfold backfill_links in H.
  rewrite Hents, Hmedia, Hurls in H. simpl in H.
  inv_bind H as urls Hloop. injection H as <-. eexists.
  split; [done|]. split; [done|]. split; [|done]. simpl.
  apply (for_each_invariant (fun urls => Forall self_link (default [] urls)))
    in Hloop; [done| |by rewrite Hurls].
  intros w urls1 urls2 Hin Hinv Hstep.
  eapply backfill_word_self_links; [|done|done].
  pose proof (split_words text) as Hwords.
  rewrite Forall_forall in Hwords. by destruct (Hwords w Hin).
Qed.

(** X19. The links that the backfill adds to an old tweet, one with
    entities that hold neither media nor links, leave no trace in the
    post: each stands for itself, so that expanding the links changes
    nothing, and the body keeps the words of the text. *)
Theorem backfill_leaves_the_body (tweet : tweet_json) (st st' : state)
    (t : Tweet) (text : str) (ents : entities) :
  tw_entities (unwrap tweet) = Some ents -> ent_media ents = None ->
  default [] (ent_urls ents) = [] ->
  in_reply_to_status_id (unwrap tweet) = None ->
  full_text (unwrap tweet) = Some text ->
  head (Py.split text) <> Some RT ->
  _convert_tweet X paths owner tweet st = Ok (t, st') ->
  tweet_data t = flat_map (fun w => w ++ [32%N]) (Py.split text)
  /\ tweets_attached_media t = None.
Proof.
  intros Hents Hmedia Hurls Hstatus Htext HRT H. apply _convert_tweet_Ok in H.
  destruct H as (ts & text' & id & year & ty0 & rt & body0 & tweet' & ty
                 & names & reply_url & body1 & body2 & attached & st1 & st2
                 & Hts & Htext' & Hid & Hyear & Hrt & Hbackfill & Hreply
                 & Hattach & Hdr & Hdm & ->).
  rewrite Htext in Htext'. injection Htext' as <-.
  apply retweet_header_Ok in Hrt as [[HRT' _]|(_ & _ & _ & ->)]; [done|].
  destruct (backfill_links_self_links _ _ _ _ Hents Hmedia Hurls Hbackfill)
    as (ents' & Hents' & Hmedia' & Hself & Hstatus').
  unfold reply_header in Hreply. rewrite Hstatus', Hstatus in Hreply.
  injection Hreply as <- <- <- <-.
  unfold attach_media in Hattach. rewrite Hents' in Hattach.
  destruct (tw_extended_entities tweet');
    rewrite ?Hmedia' in Hattach; injection Hattach as <- <- <-;
    (split; [|done]); simpl; unfold expand_links; rewrite Hents';
    rewrite <- join_words_flat_map;
    (destruct (ent_urls ents') as [urls|]; [|done]);
    by apply expand_self_links.
Qed.

End OldTweets.

Lemma backfill_leaves_the_body_witness :
  exists t st',
    Examples.convert (Examples.old_tweet Examples.short_link_text)
    = Ok (t, st')
    /\ tweet_data t = lit "see http://a.com/p?q=1 ".
Proof.
  destruct (Examples.convert (Examples.old_tweet Examples.short_link_text))
    as [[t st']|e] eqn:Hconv; [|vm_compute in Hconv; discriminate Hconv].
  exists t, st'. split; [done|].
  destruct (backfill_leaves_the_body Model.env Model.paths (lit "alice")
              (Bare (Examples.old_tweet Examples.short_link_text))
              (initial_state ∅) st' t Examples.short_link_text
              {| ent_media := None; ent_urls := Some [];
                 ent_user_mentions := None |})
    as [Hbody _]; try reflexivity; [|exact Hconv|].
  - vm_compute. discriminate.
  - rewrite Hbody. reflexivity.
Defined.

(** ** The link to the tweet replied to *)

Lemma split_head (c : char) (s : str) :
  Py.isspace c = false -> exists w ws, Py.split (c :: s) = (c :: w) :: ws.
Proof.
  intros Hc. rewrite split_cons, Hc.
  destruct (Py.starts_nonspace s); [destruct (Py.split s)|]; by eexists _, _.
Qed.

Lemma mention_run_at (s : str) :
  mention_run false 0 0 s <> 0 -> exists s', s = 64%N :: s'.
Proof.
  destruct s as [|c s]; [done|]. simpl.
  destruct (N.eqb_spec c 64) as [->|_]; [by eexists|done].
Qed.

Lemma backfill_links_screen_name (X : Externals) (text : str)
    (tweet tweet' : tweet_obj) :
  backfill_links X text tweet = Ok tweet' ->
  in_reply_to_screen_name tweet' = in_reply_to_screen_name tweet.
Proof.
  unfold backfill_links. intros H.
  destruct (tw_entities tweet) as [ents|]; [|by injection H as <-].
  destruct (_ && _); [|by injection H as <-].
  inv_bind H as urls Hurls. by injection H as <-.
Qed.

(** The first of the names replied to starts with an at sign. *)
Lemma first_name_at (owner body name : str) :
  index
    (Py.split
       (if bool_decide (match_mentions body = [])
        then (lit "@" ++ owner, body)
        else (match_mentions body,
              drop (length (match_mentions body)) body)).1) 0 = Ok name ->
  exists rest, name = 64%N :: rest.
Proof.
  intros H. apply index_Ok in H. case_bool_decide as Hmatched; cbn [fst] in H.
  - destruct (split_head 64%N owner eq_refl) as (w & ws & Hsplit).
    change (lit "@" ++ owner) with (64%N :: owner) in H.
    rewrite Hsplit in H. injection H as <-. by eexists.
  - unfold match_mentions in *.
    destruct (mention_run_at body) as [s' ->].
    { intros Hzero. by rewrite Hzero in Hmatched. }
    destruct (mention_run false 0 0 (64%N :: s')) as [|n]; [done|].
    cbn [take] in H.
    destruct (split_head 64%N (take n s') eq_refl) as (w & ws & Hsplit).
    rewrite Hsplit in H. injection H as <-. by eexists.
Qed.

(** X20. The link to the tweet replied to is built from the status id and
    a name. The name is [in_reply_to_screen_name] when the tweet has the
    key, printed as [None] when it is null. Without the key it is the
    first of the names replied to, taken as it stands in the body: it
    keeps its at sign, which ends up in the path of the link. *)
Theorem reply_link_names_the_account (X : Externals) (paths : PathConfig)
    (owner : str) (tweet : tweet_json) (st st' : state) (t : Tweet)
    (status_id : str) :
  in_reply_to_status_id (unwrap tweet) = Some status_id ->
  _convert_tweet X paths owner tweet st = Ok (t, st') ->
  exists name,
    replying_to_tweet t
    = Some (lit "https://twitter.com/" ++ name ++ lit "/status/" ++ status_id)
    /\ match in_reply_to_screen_name (unwrap tweet) with
       | Some (Val h) => name = h
       | Some Null => name = lit "None"
       | None =>
           exists names rest,
             replied_to_names t = Some names /\ head names = Some name
             /\ name = 64%N :: rest
       end.
Proof.
  intros Hstatus H. apply _convert_tweet_Ok in H.
  destruct H as (ts & text & id & year & ty0 & rt & body0 & tweet' & ty
                 & names & reply_url & body1 & body2 & attached & st1 & st2
                 & _ & _ & _ & _ & _ & Hbackfill & Hreply & _ & _ & _ & ->).
  pose proof (backfill_links_screen_name _ _ _ _ Hbackfill) as Hname.
  apply backfill_links_fields in Hbackfill as (Hstatus' & _ & _).
  unfold reply_header in Hreply. rewrite Hstatus', Hstatus, Hname in Hreply.
  destruct (in_reply_to_screen_name (unwrap tweet)) as [v|].
  - cbn [mbind result_bind] in Hreply.
    rewrite REPLAY_TO_TWEET_format in Hreply.
    destruct (if bool_decide _ then _ else _) as [replying_to body].
    cbn [mbind result_bind] in Hreply. injection Hreply as <- <- <- <-.
    exists (show v). split; [done|]. by destruct v.
  - destruct (if bool_decide _ then _ else _) as [replying_to body] eqn:Hif.
    inv_bind Hreply as name Hfirst.
    rewrite REPLAY_TO_TWEET_format in Hreply.
    cbn [mbind result_bind] in Hreply. injection Hreply as <- <- <- <-.
    exists name. split; [done|].
    assert (Hat : exists rest, name = 64%N :: rest).
    { apply (first_name_at owner (expand_links tweet' body0)).
      by rewrite Hif. }
    destruct Hat as [rest ->]. exists (Py.split replying_to), rest.
    split; [done|]. split; [|done].
    apply index_Ok in Hfirst. by rewrite head_lookup.
Qed.

Lemma reply_link_names_the_account_witness :
  exists t st',
    Examples.convert More.old_reply = Ok (t, st')
    /\ replying_to_tweet t = Some (lit "https://twitter.com/@bob/status/41").
Proof.
  destruct (Examples.convert More.old_reply) as [[t st']|e] eqn:Hconv;
    [|vm_compute in Hconv; discriminate Hconv].
  exists t, st'. split; [done|].
  destruct (reply_link_names_the_account Model.env Model.paths (lit "alice")
              (Bare More.old_reply) (initial_state ∅) st' t (lit "41")
              eq_refl Hconv)
    as (name & Hlink & names & rest & Hnames & Hhead & _).
  rewrite Hlink. assert (Ht : Ok (t, st') = Examples.convert More.old_reply)
    by done.
  vm_compute in Ht. injection Ht as -> _.
  cbn [replied_to_names] in Hnames. injection Hnames as <-.
  cbn [head] in Hhead. injection Hhead as <-. reflexivity.
Defined.

(** ** The posts of a run *)

Lemma flat_map_singleton {A} (l : list A) : flat_map (fun x => [x]) l = l.
Proof. induction l as [|x l IH]; simpl; [done|]. by rewrite IH. Qed.

Lemma flat_map_id {A} (l : list (list A)) : flat_map id l = concat l.
Proof. induction l as [|x l IH]; simpl; [done|]. by rewrite IH. Qed.

(** X21. [_get_tweets] returns one post for every tweet of every tweets
    file, in the order of the files and of the tweets within a file: the
    post at a position is the post of the tweet at that position. *)
Theorem tweets_are_converted_in_order (X : Externals) (paths : PathConfig)
    (owner : str) (tweet_files : list (list tweet_json)) (st st' : state)
    (tweets : list Tweet) :
  _get_tweets X paths owner tweet_files st = Ok (tweets, st') ->
  Forall2 (post_of owner) (concat tweet_files) tweets.
Proof.
  unfold _get_tweets. intros H.
  apply (for_each_emits fst (fun _ => True) id (post_of owner)) in H;
    [|clear H|done].
  - destruct H as (_ & new & Hout & Hnew). simpl in Hout. subst new.
    by rewrite <- flat_map_id.
  - intros file s1 s2 Hfile _.
    apply (for_each_emits fst (fun _ => True) (fun tweet => [tweet])
             (post_of owner)) in Hfile; [|clear Hfile|done].
    + by rewrite flat_map_singleton in Hfile.
    + intros tweet [posts s] acc' Hstep _. split; [done|].
      inv_bind Hstep as tuple [t s'] Hconv. injection Hstep as <-.
      exists [t]. split; [done|]. constructor; [|constructor].
      apply _convert_tweet_Ok in Hconv.
      destruct Hconv as (ts & text & id & year & ty0 & rt & body0 & tweet'
                         & ty & names & reply_url & body1 & body2 & attached
                         & st1 & st2 & Hts & _ & Hid & _ & _ & _ & _ & _ & _
                         & _ & ->).
      split; [done|]. by exists id.
Qed.

Lemma tweets_are_converted_in_order_witness :
  exists tweets st',
    _get_tweets Model.env Model.paths (lit "alice") More.two_tweet_files
      (initial_state ∅) = Ok (tweets, st')
    /\ tweet_url <$> tweets
       = [lit "https://twitter.com/alice/status/1";
          lit "https://twitter.com/alice/status/2";
          lit "https://twitter.com/alice/status/3"].
Proof.
  destruct (_get_tweets Model.env Model.paths (lit "alice")
              More.two_tweet_files (initial_state ∅))
    as [[tweets st']|e] eqn:Hrun; [|vm_compute in Hrun; discriminate Hrun].
  exists tweets, st'. split; [done|].
  pose proof (tweets_are_converted_in_order Model.env Model.paths
                (lit "alice") More.two_tweet_files (initial_state ∅) st'
                tweets Hrun) as Hposts.
  simpl in Hposts.
  apply Forall2_cons_inv_l in Hposts as (t1 & l1 & (_ & id1 & [= <-] & H1)
                                         & Hposts & ->).
  apply Forall2_cons_inv_l in Hposts as (t2 & l2 & (_ & id2 & [= <-] & H2)
                                         & Hposts & ->).
  apply Forall2_cons_inv_l in Hposts as (t3 & l3 & (_ & id3 & [= <-] & H3)
                                         & Hposts & ->).
  apply Forall2_nil_inv_l in Hposts as ->.
  simpl. by rewrite H1, H2, H3.
Defined.

(** ** The text of a direct message *)

Lemma linebreak_isspace (c : char) :
  Py.is_linebreak c = true -> Py.isspace c = true.
Proof.
  unfold Py.is_linebreak, Py.isspace.
  rewrite !orb_true_iff, !andb_true_iff, !N.leb_le, !N.eqb_eq. lia.
Qed.

(** A text without a line boundary is one line, or none. *)
Lemma splitlines_one_line (s : str) :
  Forall (fun c => Py.is_linebreak c = false) s ->
  Py.splitlines s = match s with [] => [] | _ => [s] end.
Proof.
  unfold Py.splitlines. induction 1 as [|c s Hc _ IH]; [done|].
  simpl. rewrite Hc, IH. by destruct s.
Qed.

Lemma join_one_line (sep s : str) :
  Forall (fun c => Py.is_linebreak c = false) s ->
  Py.join sep (Py.splitlines s) = s.
Proof. intros Hs. rewrite splitlines_one_line by done. by destruct s. Qed.

(** The words of a text, each followed by a space, have no line boundary
    among them. *)
Lemma join_words_one_line (s : str) :
  Forall (fun c => Py.is_linebreak c = false) (join_words (Py.split s)).
Proof.
  rewrite join_words_flat_map. pose proof (split_words s) as Hwords.
  induction Hwords as [|w ws [_ Hw] _ IH]; [done|]. simpl.
  rewrite <- app_assoc. apply Forall_app. split; [|by constructor].
  eapply Forall_impl; [exact Hw|]. intros c Hc. simpl in Hc.
  destruct (Py.is_linebreak c) eqn:Hbreak; [|done].
  apply linebreak_isspace in Hbreak. congruence.
Qed.

Section DmText.

Variable X : Externals.
Variable paths : PathConfig.

(** A message that fails the media test keeps its body, and the state is
    left as it is. *)
Lemma attach_dm_media_free (media_dir : str) (image_markdown : str -> str)
    (missing : str -> str -> log_entry) (mc : message_create) (body : str)
    (st : state) :
  carries_media mc = false ->
  attach_dm_media X paths media_dir image_markdown missing mc body st
  = Ok (body, st).
Proof.
  unfold carries_media, attach_dm_media.
  destruct (mc_mediaUrls mc) as [[|media_url0 [|]]|]; try done.
  by destruct (mc_urls mc).
Qed.

Lemma direct_message_step_incomplete (m : message)
    (acc : list DirectMessage * state) :
  complete_dm m = None -> direct_message_step X paths m acc = Ok acc.
Proof.
  unfold complete_dm, direct_message_step. destruct acc as [dms st].
  destruct m as [mc| | | |]; try done.
  destruct (mc_senderId mc); [|done]. destruct (mc_recipientId mc); [|done].
  destruct (mc_text mc); [|done]. by destruct (mc_createdAt mc).
Qed.

Lemma direct_message_step_text (mc mc' : message_create)
    (acc acc' : list DirectMessage * state) :
  complete_dm (MessageCreate mc) = Some mc' ->
  direct_message_step X paths (MessageCreate mc) acc = Ok acc' ->
  exists dm, acc'.1 = acc.1 ++ [dm] /\ dm_text_of mc' dm.
Proof.
  unfold complete_dm, direct_message_step. destruct acc as [dms st].
  destruct (mc_senderId mc) as [from_id|]; [|done].
  destruct (mc_recipientId mc) as [to_id|]; [|done].
  destruct (mc_text mc) as [text|] eqn:Htext; [|done].
  destruct (mc_createdAt mc) as [created|]; [|done].
  intros [= <-] H. inv_bind H as tuple [body st1] Hmedia.
  rewrite !message_handle_eq in H. cbn [mbind result_bind] in H.
  injection H as <-. eexists. split; [done|].
  intros Hnone. exists text. split; [done|]. simpl.
  rewrite attach_dm_media_free in Hmedia by done.
  injection Hmedia as <- <-.
  rewrite join_one_line by apply join_words_one_line.
  rewrite join_words_flat_map. by destruct (mc_urls mc).
Qed.

Lemma direct_message_step_emits_text (m : message)
    (acc acc' : list DirectMessage * state) :
  direct_message_step X paths m acc = Ok acc' ->
  exists new, acc'.1 = acc.1 ++ new
              /\ Forall2 dm_text_of (option_list (complete_dm m)) new.
Proof.
  intros H. destruct (complete_dm m) as [mc'|] eqn:Hcomplete.
  - destruct m as [mc| | | |]; try done.
    destruct (direct_message_step_text mc mc' acc acc' Hcomplete H)
      as (dm & Hout & Htext).
    exists [dm]. split; [done|]. by repeat constructor.
  - rewrite direct_message_step_incomplete in H by done.
    injection H as <-. exists []. by rewrite app_nil_r.
Qed.

(** X22. The text of a direct message without media, that is one that
    fails the media test (it lacks [mediaUrls] or [urls], or its
    [mediaUrls] do not have exactly one element), is the text of its
    event after the links were expanded, normalised to its words with one
    space after each. Turning the text into a quote, line by line, then
    finds a single line, so that a text of several lines arrives as one.
    This holds for every direct message of a run, in the order of the
    file. *)
Theorem direct_message_text_is_one_line (a : Archive) (st st' : state)
    (dms : list DirectMessage) :
  _get_direct_messages X paths a st = Ok (dms, st') ->
  Forall2 dm_text_of (flat_map complete_dms (dms_json a)) dms.
Proof.
  unfold _get_direct_messages. intros H.
  apply (for_each_emits fst (fun _ => True) complete_dms dm_text_of) in H;
    [|clear H|done].
  - destruct H as (_ & new & Hnew & Hall). simpl in Hnew. by subst.
  - intros c s1 s2 Hc _. split; [done|]. unfold complete_dms.
    destruct (dmConversation c) as [dc|];
      [|injection Hc as <-; exists []; by rewrite app_nil_r].
    destruct (conversationId dc);
      [|injection Hc as <-; exists []; by rewrite app_nil_r].
    destruct (messages dc) as [ms|];
      [|injection Hc as <-; exists []; by rewrite app_nil_r].
    rewrite <- flat_map_option_list.
    apply (for_each_emits fst (fun _ => True)
             (fun m => option_list (complete_dm m)) dm_text_of) in Hc;
      [by destruct Hc| |done].
    intros m s3 s4 Hm _. split; [done|].
    by apply direct_message_step_emits_text.
Qed.

End DmText.

Lemma direct_message_text_is_one_line_witness :
  exists dm st',
    _get_direct_messages Model.offline Model.paths More.two_lines_archive
      (initial_state ∅) = Ok ([dm], st')
    /\ dm_data dm = lit "first line second line ".
Proof.
  destruct (_get_direct_messages Model.offline Model.paths
              More.two_lines_archive (initial_state ∅))
    as [[dms st']|e] eqn:Hrun; [|vm_compute in Hrun; discriminate Hrun].
  pose proof (direct_message_text_is_one_line Model.offline Model.paths
                More.two_lines_archive (initial_state ∅) st' dms Hrun)
    as Htexts.
  vm_compute flat_map in Htexts.
  apply Forall2_cons_inv_l in Htexts as (dm & l & Hdm & Hl & ->).
  apply Forall2_nil_inv_l in Hl as ->.
  exists dm, st'. split; [done|].
  destruct (Hdm eq_refl) as (text & [= <-] & ->). reflexivity.
Defined.

(** ** Where a run can fail *)

Lemma for_each_total {A S} (body : A -> S -> result S) (xs : list A) (s : S) :
  (forall x s, x ∈ xs -> exists s', body x s = Ok s') ->
  exists s', for_each body xs s = Ok s'.
Proof.
  revert s. induction xs as [|x xs IH]; intros s Hbody; [by eexists|].
  cbn [for_each]. destruct (Hbody x s) as [s1 ->]; [left|].
  cbn [mbind result_bind]. apply IH. intros y s2 Hy. apply Hbody. by right.
Qed.

Lemma for_each_Ok_each {A S} (body : A -> S -> result S) (xs : list A)
    (s s' : S) (x : A) :
  for_each body xs s = Ok s' -> x ∈ xs -> exists s1 s2, body x s1 = Ok s2.
Proof.
  revert s. induction xs as [|y xs IH]; intros s H Hx;
    [by apply not_elem_of_nil in Hx|].
  cbn [for_each] in H. inv_bind H as s1 Hy.
  apply elem_of_cons in Hx as [->|Hx]; [by eexists _, _|by eapply IH].
Qed.

Section Run.

Variable X : Externals.
Variable paths : PathConfig.
Variable owner : str.

Lemma direct_message_step_total (m : message)
    (acc : list DirectMessage * state) :
  (forall mc, m = MessageCreate mc -> carries_media mc = false) ->
  exists acc', direct_message_step X paths m acc = Ok acc'.
Proof.
  intros Hfree. unfold direct_message_step. destruct acc as [dms st].
  destruct m as [mc| | | |]; try by eexists.
  destruct (mc_senderId mc); [|by eexists].
  destruct (mc_recipientId mc); [|by eexists].
  destruct (mc_text mc); [|by eexists].
  destruct (mc_createdAt mc); [|by eexists].
  rewrite attach_dm_media_free by by apply Hfree.
  cbn [mbind result_bind]. rewrite !message_handle_eq. by eexists.
Qed.

Lemma group_message_step_total (m : message)
    (acc : option str * list GroupDirectMessage * state) :
  (forall mc, m = MessageCreate mc -> carries_media mc = false) ->
  exists acc', group_message_step X paths m acc = Ok acc'.
Proof.
  intros Hfree. unfold group_message_step. destruct acc as [[name gdms] st].
  destruct m as [mc| | |u|]; try by eexists.
  - destruct (mc_senderId mc); [|by eexists].
    destruct (mc_text mc); [|by eexists].
    destruct (mc_createdAt mc); [|by eexists].
    rewrite attach_dm_media_free by by apply Hfree.
    cbn [mbind result_bind]. rewrite !message_handle_eq. by eexists.
  - destruct (cn_name u); by eexists.
Qed.

Lemma _get_direct_messages_total (a : Archive) (st : state) :
  Forall media_free (dms_json a) ->
  exists r, _get_direct_messages X paths a st = Ok r.
Proof.
  intros Hfree. unfold _get_direct_messages. apply for_each_total.
  intros c acc Hc. rewrite Forall_forall in Hfree.
  specialize (Hfree c Hc). unfold media_free, events in Hfree.
  destruct (dmConversation c) as [dc|]; [|by eexists].
  destruct (conversationId dc); [|by eexists].
  destruct (messages dc) as [ms|]; [|by eexists].
  apply for_each_total. intros m acc1 Hm.
  apply direct_message_step_total. intros mc ->. by apply Hfree.
Qed.

Lemma group_conversation_total (c : conversation_json) (st : state)
    (participants : gset str) :
  media_free c ->
  _find_group_dm_conversation_participant_ids c = Ok participants ->
  exists r, group_conversation X paths c st = Ok r.
Proof.
  intros Hfree Hfind. unfold group_conversation.
  unfold media_free, events in Hfree.
  destruct (dmConversation c) as [dc|]; [|by eexists].
  destruct (conversationId dc); [|by eexists].
  rewrite Hfind. cbn [mbind result_bind]. rewrite group_participants_eq.
  cbn [mbind result_bind].
  destruct (messages dc) as [ms|]; [|by eexists].
  destruct (for_each_total (group_message_step X paths) ms
              (None, [], st)) as [[[name gdms] st1] ->]; [|by eexists].
  intros m acc Hm. apply group_message_step_total.
  intros mc ->. by apply Hfree.
Qed.

Lemma _get_group_direct_messages_total (a : Archive) (st : state)
    (ids : list str) :
  Forall media_free (group_dms_json a) ->
  _collect_user_ids_from_group_direct_messages X (group_dms_json a) = Ok ids ->
  exists r, _get_group_direct_messages X paths a st = Ok r.
Proof.
  intros Hfree Hcollect. unfold _get_group_direct_messages.
  unfold _collect_user_ids_from_group_direct_messages in Hcollect.
  inv_bind Hcollect as collected Hloop.
  apply for_each_total. intros c [groups st1] Hc.
  destruct (for_each_Ok_each _ _ _ _ c Hloop Hc) as (s1 & s2 & Hstep).
  inv_bind Hstep as participants Hfind.
  rewrite Forall_forall in Hfree.
  destruct (group_conversation_total c st1 participants (Hfree c Hc) Hfind)
    as [[[g|] st2] ->]; by eexists.
Qed.

(** X23. From the conversion of the tweets on, a run can fail in three
    places only. When the tweets convert, the ids for the lookup are
    collected, and no message of a conversation passes the media test
    (both [mediaUrls] with exactly one element and [urls] present), the
    run returns: neither the lookup nor the follow edges nor the messages
    raise. *)
Theorem run_returns (a : Archive) (fs : gset str)
    (converted : list Tweet * state) (ids : list str) :
  _get_tweets X paths owner (tweet_files a) (initial_state fs) = Ok converted ->
  collected_user_ids X a = Ok ids ->
  Forall media_free (dms_json a ++ group_dms_json a) ->
  exists self, TwitterDataParser_init X paths owner a fs = Ok self.
Proof.
  intros Htweets Hids [Hdms Hgroups]%Forall_app.
  unfold TwitterDataParser_init. rewrite Htweets.
  destruct converted as [tweets st1]. cbn [mbind result_bind].
  unfold _bulk_look_up_for_user_handles. rewrite Hids.
  cbn [mbind result_bind].
  unfold _get_following_users, _get_followers_users.
  rewrite !follow_edges_eq. cbn [mbind result_bind].
  destruct (_get_direct_messages_total a (_lookup_users X ids st1) Hdms)
    as [[dms st2] ->].
  cbn [mbind result_bind].
  unfold collected_user_ids in Hids.
  inv_bind Hids as dm_ids Hdm_ids. inv_bind Hids as group_ids Hgroup_ids.
  destruct (_get_group_direct_messages_total a st2 group_ids Hgroups
              Hgroup_ids) as [[groups st3] ->].
  by eexists.
Qed.

End Run.

Lemma two_lines_archive_media_free :
  Forall media_free
    (dms_json More.two_lines_archive ++ group_dms_json More.two_lines_archive).
Proof.
  apply Forall_cons_2; [|apply Forall_nil_2].
  intros mc Hmc. apply list_elem_of_singleton in Hmc.
  by injection Hmc as ->.
Qed.

Lemma run_returns_witness :
  exists self, Examples.run More.two_lines_archive = Ok self.
Proof.
  destruct (collected_user_ids Model.env More.two_lines_archive) as [ids|e]
    eqn:Hids; [|vm_compute in Hids; discriminate Hids].
  apply (run_returns Model.env Model.paths (lit "alice")
           More.two_lines_archive ∅ ([], initial_state ∅) ids).
  - reflexivity.
  - exact Hids.
  - exact two_lines_archive_media_free.
Defined.

(** ** The files of a run *)





Section Files.

Variable X : Externals.
Variable paths : PathConfig.
Variable owner : str.



























End Files.


